(** * Deck performance and matchup aggregation of the match-record viewer

    A shallow embedding of the analysis helpers of
    [pages/01_戦績閲覧.py]: [get_all_analyzable_deck_names],
    [get_all_types_for_archetype], [display_general_deck_performance] and the
    focus-deck part of [show_analysis_section].

    Modelling conventions.
    - A DataFrame is the list of its rows, in row order; a row's position is
      its identity (its index label).
    - The string columns hold Python [str] values, modelled as [string]
      (UTF-8 bytes).  [str.strip] removes every white-space code point of
      [str.isspace], in its UTF-8 encoding.  [str.lower] is only ever
      compared with ['nan'] in the source; it is modelled on the ASCII
      letters, the only code points whose lower case is [n] or [a].
    - [finish_turn] is a nullable integer column ([option Z]); [date] is a
      nullable timestamp column.
    - Python floats produced by [a / b * 100] and by [Series.mean] are
      modelled by exact rationals ([Q]).
    - [/] raises [ZeroDivisionError] on a zero divisor: computations that
      divide live in the error monad [exc].
    - A Python [set] is modelled as a duplicate-free list; every use in the
      source is either sorted afterwards or folded with a commutative
      operation. *)

From Stdlib Require Import List Bool Arith ZArith QArith Lia ZifyNat.
From Stdlib Require Import Strings.String Strings.Ascii.
From Stdlib Require Import Sorting.Permutation Sorting.Sorted.
Import ListNotations.

Local Open Scope string_scope.
Local Open Scope list_scope.
Local Open Scope Z_scope.

(** ** Python strings *)

Module PyStr.

Definition truthy (s : string) : bool :=
  match s with EmptyString => false | _ => true end.

Definition lower_ascii (c : ascii) : ascii :=
  let n := nat_of_ascii c in
  if (65 <=? n)%nat && (n <=? 90)%nat then ascii_of_nat (n + 32) else c.

Fixpoint lower (s : string) : string :=
  match s with
  | EmptyString => EmptyString
  | String c s' => String (lower_ascii c) (lower s')
  end.

(** The string of the given bytes. *)
Definition of_bytes (l : list nat) : string :=
  fold_right (fun n s => String (ascii_of_nat n) s) EmptyString l.

(** White space as [str.isspace] and [str.strip] see it.  The code points
    of one byte: TAB..CR, FS..US, SPACE. *)
Definition is_space (c : ascii) : bool :=
  let n := nat_of_ascii c in
  ((9 <=? n)%nat && (n <=? 13)%nat) || ((28 <=? n)%nat && (n <=? 32)%nat).

(** The other white-space code points, in UTF-8: U+0085, U+00A0, U+1680,
    U+2000..U+200A, U+2028, U+2029, U+202F, U+205F, U+3000. *)
Definition wide_spaces : list string :=
  [of_bytes [194; 133]%nat; of_bytes [194; 160]%nat; of_bytes [225; 154; 128]%nat]
  ++ map (fun k => of_bytes [226; 128; 128 + k]%nat) (seq 0 11)
  ++ [of_bytes [226; 128; 168]%nat; of_bytes [226; 128; 169]%nat;
      of_bytes [226; 128; 175]%nat; of_bytes [226; 129; 159]%nat;
      of_bytes [227; 128; 128]%nat].

(** [s] is the encoding of exactly one white-space code point. *)
Definition is_space_char (s : string) : bool :=
  match s with
  | String c EmptyString => is_space c
  | _ => existsb (String.eqb s) wide_spaces
  end.

(** [str.lstrip]: the white-space code points at the head are removed; a
    code point takes one, two or three bytes. *)
Fixpoint lstrip (s : string) : string :=
  match s with
  | EmptyString => EmptyString
  | String c1 s1 =>
      if is_space c1 then lstrip s1
      else
        match s1 with
        | EmptyString => s
        | String c2 s2 =>
            if is_space_char (String c1 (String c2 EmptyString)) then lstrip s2
            else
              match s2 with
              | EmptyString => s
              | String c3 s3 =>
                  if is_space_char
                       (String c1 (String c2 (String c3 EmptyString)))
                  then lstrip s3 else s
              end
        end
  end.

(** [str.rstrip]: the tail is stripped first; what is left of it, with the
    byte before it, is dropped when it is one white-space code point. *)
Fixpoint rstrip (s : string) : string :=
  match s with
  | EmptyString => EmptyString
  | String c s' =>
      let r := String c (rstrip s') in
      if is_space_char r then EmptyString else r
  end.

Definition strip (s : string) : string := rstrip (lstrip s).

End PyStr.

(** ** Constants of the page *)

Definition SELECT_PLACEHOLDER : string := "--- 選択してください ---".
Definition ALL_TYPES_PLACEHOLDER : string := "全タイプ".

(** The four literals the source compares [result] and [first_second] with. *)
Definition WIN : string := "勝ち".
Definition LOSS : string := "負け".
Definition FIRST : string := "先攻".
Definition SECOND : string := "後攻".

(** ** Exceptions

    The only exception the modelled code can raise is the one of a division
    by zero. *)

Inductive pyerror : Type := ZeroDivisionError.

Inductive exc (A : Type) : Type :=
| Ok (a : A)
| Raise (e : pyerror).
Arguments Ok {A} a.
Arguments Raise {A} e.

Definition ret {A} (a : A) : exc A := Ok a.

Definition bind {A B} (m : exc A) (k : A -> exc B) : exc B :=
  match m with
  | Ok a => k a
  | Raise e => Raise e
  end.

Notation "x <- m ;; k" := (bind m (fun x => k))
  (at level 61, m at next level, right associativity).

Fixpoint mapM {A B} (f : A -> exc B) (l : list A) : exc (list B) :=
  match l with
  | [] => ret []
  | x :: t => y <- f x ;; ys <- mapM f t ;; ret (y :: ys)
  end.

(** [a / b] on Python ints. *)
Definition truediv (a b : Z) : exc Q :=
  if b =? 0 then Raise ZeroDivisionError
  else ret (inject_Z a / inject_Z b)%Q.

(** [a / b * 100]. *)
Definition percent (a b : Z) : exc Q :=
  q <- truediv a b ;; ret (q * 100)%Q.

(** ** Lists as pandas and Python use them *)

Section ListOps.
Context {A : Type} (eq_dec : forall x y : A, {x = y} + {x <> y}).

Definition mem (x : A) (l : list A) : bool :=
  if in_dec eq_dec x l then true else false.

(** Distinct values in order of first appearance: [Series.unique],
    [DataFrame.drop_duplicates] (keep first), and the elements of a
    [set] built by successive [add]. *)
Fixpoint unique_from (seen : list A) (l : list A) : list A :=
  match l with
  | [] => []
  | x :: t =>
      if mem x seen then unique_from seen t
      else x :: unique_from (x :: seen) t
  end.

Definition unique (l : list A) : list A := unique_from [] l.

End ListOps.

Section Sorted.
Context {A : Type} (leb : A -> A -> bool).

Fixpoint insert_sorted (x : A) (l : list A) : list A :=
  match l with
  | [] => [x]
  | y :: t => if leb x y then x :: l else y :: insert_sorted x t
  end.

(** Python's [sorted]: ascending and stable. *)
Fixpoint sorted (l : list A) : list A :=
  match l with
  | [] => []
  | x :: t => insert_sorted x (sorted t)
  end.

End Sorted.

(** Tuples of two strings compare lexicographically. *)
Definition tuple_leb (a b : string * string) : bool :=
  match String.compare (fst a) (fst b) with
  | Lt => true
  | Gt => false
  | Eq => String.leb (snd a) (snd b)
  end.

Definition len {A} (l : list A) : Z := Z.of_nat (List.length l).

Definition is_empty {A} (l : list A) : bool :=
  match l with [] => true | _ => false end.

Definition Qsum (l : list Q) : Q := fold_right Qplus 0%Q l.

(** [pd.Series(l).mean()] of a list of numbers; [None] is the NaN pandas
    gives for an empty series. *)
Definition series_mean (l : list Q) : option Q :=
  match l with
  | [] => None
  | _ => Some (Qsum l / inject_Z (len l))%Q
  end.

(** ** Match records *)

(** A timestamp of the [date] column: calendar date and time of day. *)
Record Timestamp : Type := mkTimestamp {
  year : nat;
  month : nat;
  day : nat;
  time_ns : Z
}.

Record MatchRecord : Type := mkRecord {
  season : string;
  date : option Timestamp;
  environment : string;
  my_deck : string;
  my_deck_type : string;
  opponent_deck : string;
  opponent_deck_type : string;
  first_second : string;
  result : string;
  finish_turn : option Z;
  memo : string
}.

Definition DataFrame : Type := list MatchRecord.

Definition Timestamp_eq_dec (a b : Timestamp) : {a = b} + {a <> b}.
Proof.
  decide equality; try apply Z.eq_dec; apply Nat.eq_dec.
Defined.

Definition MatchRecord_eq_dec (a b : MatchRecord) : {a = b} + {a <> b}.
Proof.
  decide equality; try apply string_dec.
  - decide equality. apply Z.eq_dec.
  - decide equality. apply Timestamp_eq_dec.
Defined.

Definition tuple_eq_dec (a b : string * string) : {a = b} + {a <> b}.
Proof. decide equality; apply string_dec. Defined.

(** [s.replace('', pd.NA).dropna()] on a string column. *)
Definition dropna_empty (l : list string) : list string :=
  filter PyStr.truthy l.

(** [col.dropna().tolist()] on the nullable [finish_turn] column. *)
Fixpoint dropna_turns (l : list (option Z)) : list Q :=
  match l with
  | [] => []
  | Some t :: r => inject_Z t :: dropna_turns r
  | None :: r => dropna_turns r
  end.

Definition finish_turns (df : DataFrame) : list Q :=
  dropna_turns (map finish_turn df).

(** The guard [d and d.lower() != 'nan'] of the discovery helpers. *)
Definition analyzable (d : string) : bool :=
  PyStr.truthy d && negb (PyStr.lower d =? "nan")%string.

(** ** Archetype and type discovery *)

Definition get_all_analyzable_deck_names (df : DataFrame) : list string :=
  let my_decks := unique string_dec (dropna_empty (map my_deck df)) in
  let opponent_decks := unique string_dec (dropna_empty (map opponent_deck df)) in
  let all_decks_set := unique string_dec (my_decks ++ opponent_decks) in
  sorted String.leb (filter analyzable all_decks_set).

(** [deck_name] is the selected option, a string; [pd.isna] is false on
    every string. *)
Definition get_all_types_for_archetype (df : DataFrame) (deck_name : string)
  : list string :=
  if negb (PyStr.truthy deck_name) || (deck_name =? SELECT_PLACEHOLDER)%string
  then [ALL_TYPES_PLACEHOLDER]
  else
    let my_deck_matches := filter (fun r => (my_deck r =? deck_name)%string) df in
    let types1 :=
      if negb (is_empty my_deck_matches)
      then dropna_empty (map my_deck_type my_deck_matches) else [] in
    let opponent_deck_matches :=
      filter (fun r => (opponent_deck r =? deck_name)%string) df in
    let types2 :=
      if negb (is_empty opponent_deck_matches)
      then dropna_empty (map opponent_deck_type opponent_deck_matches) else [] in
    let types := unique string_dec (types1 ++ types2) in
    let valid_types := sorted String.leb (filter analyzable types) in
    ALL_TYPES_PLACEHOLDER :: valid_types.

(** ** Row selection *)

Definition seq_str (a b : string) : bool := (a =? b)%string.

(** [df[df[col] == v]] *)
Definition where_eq (col : MatchRecord -> string) (v : string) (df : DataFrame)
  : DataFrame :=
  filter (fun r => seq_str (col r) v) df.

(** [(w / n * 100) if n > 0 else None] *)
Definition rate_or_none (w n : Z) : exc (option Q) :=
  if 0 <? n then (q <- percent w n ;; ret (Some q)) else ret None.

(** [(w / n * 100) if n > 0 else 0.0] *)
Definition rate_or_zero (w n : Z) : exc Q :=
  if 0 <? n then percent w n else ret 0%Q.

(** [pd.Series(l).mean() if l else None] *)
Definition mean_or_none (l : list Q) : option Q :=
  if is_empty l then None else series_mean l.

(** ** Overview of all archetypes: [display_general_deck_performance] *)

Record GeneralRow : Type := mkGeneralRow {
  g_deck : string;                    (* デッキアーキタイプ *)
  g_total_appearances : Z;            (* 総登場回数, the total *)
  g_total_games_first : Z;            (* 総登場回数, the (先攻: n) part *)
  g_total_wins : Z;                   (* 総勝利数 *)
  g_total_losses : Z;                 (* 総敗北数 *)
  g_simple_overall_win_rate : Q;      (* 勝率 (%) [総合] *)
  g_avg_matchup_wr : option Q;        (* 平均マッチアップ勝率 (%) *)
  g_win_rate_first : option Q;        (* 先攻時勝率 (%) *)
  g_win_rate_second : option Q        (* 後攻時勝率 (%) *)
}.

Section Overview.
Variable df_to_analyze : DataFrame.
Variable deck_a_name : string.

Definition games_as_my_deck_df : DataFrame :=
  where_eq my_deck deck_a_name df_to_analyze.
Definition wins_as_my_deck : Z := len (where_eq result WIN games_as_my_deck_df).
Definition count_as_my_deck : Z := len games_as_my_deck_df.
Definition games_as_opponent_deck_df : DataFrame :=
  where_eq opponent_deck deck_a_name df_to_analyze.
Definition wins_as_opponent_deck : Z :=
  len (where_eq result LOSS games_as_opponent_deck_df).
Definition count_as_opponent_deck : Z := len games_as_opponent_deck_df.
Definition total_appearances_deck_a : Z :=
  count_as_my_deck + count_as_opponent_deck.
Definition total_wins_deck_a : Z := wins_as_my_deck + wins_as_opponent_deck.
Definition total_losses_deck_a : Z :=
  total_appearances_deck_a - total_wins_deck_a.

Definition deck_a_first_as_my : DataFrame :=
  where_eq first_second FIRST games_as_my_deck_df.
Definition deck_a_first_as_opp : DataFrame :=
  where_eq first_second SECOND games_as_opponent_deck_df.
Definition total_games_deck_a_first : Z :=
  len deck_a_first_as_my + len deck_a_first_as_opp.
Definition wins_deck_a_first : Z :=
  len (where_eq result WIN deck_a_first_as_my)
  + len (where_eq result LOSS deck_a_first_as_opp).

Definition deck_a_second_as_my : DataFrame :=
  where_eq first_second SECOND games_as_my_deck_df.
Definition deck_a_second_as_opp : DataFrame :=
  where_eq first_second FIRST games_as_opponent_deck_df.
Definition total_games_deck_a_second : Z :=
  len deck_a_second_as_my + len deck_a_second_as_opp.
Definition wins_deck_a_second : Z :=
  len (where_eq result WIN deck_a_second_as_my)
  + len (where_eq result LOSS deck_a_second_as_opp).

Definition games_involving_deck_a : DataFrame :=
  filter (fun r => seq_str (my_deck r) deck_a_name
                   || seq_str (opponent_deck r) deck_a_name) df_to_analyze.

(** The archetype on the other side of a row, as the loop reads it. *)
Definition opponent_for_this_game (row : MatchRecord) : option string :=
  if seq_str (my_deck row) deck_a_name then Some (opponent_deck row)
  else if seq_str (opponent_deck row) deck_a_name then Some (my_deck row)
  else None.

(** The condition under which the loop adds the opponent to the set. *)
Definition counted_opponent (o : string) : bool :=
  PyStr.truthy o && negb (seq_str o deck_a_name)
  && PyStr.truthy (PyStr.strip o)
  && negb (seq_str (PyStr.lower (PyStr.strip o)) "nan").

Definition opponents_added : list string :=
  flat_map (fun row =>
              match opponent_for_this_game row with
              | Some o => if counted_opponent o then [o] else []
              | None => []
              end) games_involving_deck_a.

Definition unique_opponents_faced_by_deck_a : list string :=
  unique string_dec opponents_added.

Definition a_vs_opp_my_games (opp : string) : DataFrame :=
  filter (fun r => seq_str (my_deck r) deck_a_name
                   && seq_str (opponent_deck r) opp) games_involving_deck_a.
Definition a_vs_opp_opponent_games (opp : string) : DataFrame :=
  filter (fun r => seq_str (opponent_deck r) deck_a_name
                   && seq_str (my_deck r) opp) games_involving_deck_a.
Definition total_games_vs_specific_opponent (opp : string) : Z :=
  len (a_vs_opp_my_games opp) + len (a_vs_opp_opponent_games opp).
Definition total_wins_for_a_vs_specific_opponent (opp : string) : Z :=
  len (where_eq result WIN (a_vs_opp_my_games opp))
  + len (where_eq result LOSS (a_vs_opp_opponent_games opp)).

(** The loop filling [matchup_win_rates_for_deck_a]. *)
Fixpoint matchup_win_rates_over (opps : list string) : exc (list Q) :=
  match opps with
  | [] => ret []
  | opp :: rest =>
      if 0 <? total_games_vs_specific_opponent opp then
        wr <- percent (total_wins_for_a_vs_specific_opponent opp)
                      (total_games_vs_specific_opponent opp) ;;
        wrs <- matchup_win_rates_over rest ;;
        ret (wr :: wrs)
      else matchup_win_rates_over rest
  end.

Definition matchup_win_rates_for_deck_a : exc (list Q) :=
  matchup_win_rates_over unique_opponents_faced_by_deck_a.

Definition avg_matchup_wr_deck_a : exc (option Q) :=
  wrs <- matchup_win_rates_for_deck_a ;; ret (mean_or_none wrs).

(** One turn of the loop over the archetypes: the row appended to
    [general_performance_data], if any. *)
Definition deck_a_row : exc (option GeneralRow) :=
  if negb (PyStr.truthy deck_a_name) then ret None
  else
    simple_overall_win_rate_deck_a <-
      rate_or_zero total_wins_deck_a total_appearances_deck_a ;;
    win_rate_deck_a_first <-
      rate_or_none wins_deck_a_first total_games_deck_a_first ;;
    win_rate_deck_a_second <-
      rate_or_none wins_deck_a_second total_games_deck_a_second ;;
    avg <- avg_matchup_wr_deck_a ;;
    if 0 <? total_appearances_deck_a then
      ret (Some {| g_deck := deck_a_name;
                   g_total_appearances := total_appearances_deck_a;
                   g_total_games_first := total_games_deck_a_first;
                   g_total_wins := total_wins_deck_a;
                   g_total_losses := total_losses_deck_a;
                   g_simple_overall_win_rate := simple_overall_win_rate_deck_a;
                   g_avg_matchup_wr := avg;
                   g_win_rate_first := win_rate_deck_a_first;
                   g_win_rate_second := win_rate_deck_a_second |})
    else ret None.

End Overview.

Fixpoint somes {A} (l : list (option A)) : list A :=
  match l with
  | [] => []
  | Some a :: t => a :: somes t
  | None :: t => somes t
  end.

(** The list [general_performance_data] the function builds, in discovery
    order.  It is empty when the function shows a notice instead of a
    table. *)
Definition general_performance_data (df_to_analyze : DataFrame)
  : exc (list GeneralRow) :=
  let all_deck_archetypes := get_all_analyzable_deck_names df_to_analyze in
  if is_empty all_deck_archetypes then ret []
  else
    rows <- mapM (deck_a_row df_to_analyze) all_deck_archetypes ;;
    ret (somes rows).

(** ** [DataFrame.sort_values(by=col, ascending=False)]

    With one sort column pandas calls [nargsort] with the default
    [kind='quicksort'] and [na_position='last']: the positions of the
    non-missing keys are reversed, argsorted, and reversed again, and the
    positions of the missing keys follow in row order.  The default kind
    promises an ascending argsort and nothing about the order of equal keys,
    so the argsort is a relation: any permutation of the positions along
    which the keys do not decrease. *)

Section SortValues.
Context {K : Type} (leb : K -> K -> bool).

Definition is_arange (n : nat) (p : list nat) : bool :=
  (List.length p =? n)%nat
  && forallb (fun i => existsb (Nat.eqb i) p) (seq 0 n).

Fixpoint nondecreasing_along (xs : list K) (p : list nat) : bool :=
  match p with
  | [] => true
  | i :: t =>
      match t with
      | [] => true
      | j :: _ =>
          match nth_error xs i, nth_error xs j with
          | Some a, Some b => leb a b
          | _, _ => false
          end
      end && nondecreasing_along xs t
  end.

Definition argsort_ok (xs : list K) (p : list nat) : bool :=
  is_arange (List.length xs) p && nondecreasing_along xs p.

(** Positions and values of the non-missing items, from position [i]. *)
Fixpoint non_nan_from (i : nat) (items : list (option K)) : list (nat * K) :=
  match items with
  | [] => []
  | Some k :: t => (i, k) :: non_nan_from (S i) t
  | None :: t => non_nan_from (S i) t
  end.

Fixpoint nan_idx_from (i : nat) (items : list (option K)) : list nat :=
  match items with
  | [] => []
  | Some _ :: t => nan_idx_from (S i) t
  | None :: t => i :: nan_idx_from (S i) t
  end.

(** [a[p]] on an array of positions. *)
Definition take_idx (a : list nat) (p : list nat) : list nat :=
  map (fun i => nth i a 0%nat) p.

Definition nargsort_desc_na_last (items : list (option K)) (indexer : list nat)
  : Prop :=
  let non_nans := rev (map snd (non_nan_from 0 items)) in
  let non_nan_idx := rev (map fst (non_nan_from 0 items)) in
  exists p, argsort_ok non_nans p = true
            /\ indexer = rev (take_idx non_nan_idx p) ++ nan_idx_from 0 items.

(** The rows of a frame at the positions of an indexer. *)
Definition take_rows {A} (rows : list A) (indexer : list nat) : list A :=
  flat_map (fun i => match nth_error rows i with
                     | Some r => [r]
                     | None => []
                     end) indexer.

Definition sort_values_desc {A} (key : A -> option K) (rows out : list A)
  : Prop :=
  exists indexer, nargsort_desc_na_last (map key rows) indexer
                  /\ out = take_rows rows indexer.

(** A stable argsort, one admissible behaviour. *)
Definition stable_argsort (xs : list K) : list nat :=
  sorted (fun i j => match nth_error xs i, nth_error xs j with
                     | Some a, Some b => leb a b
                     | _, _ => true
                     end) (seq 0 (List.length xs)).

End SortValues.

(** The order of the overview table, [gen_perf_df_sorted]. *)
Definition gen_perf_df_sorted (data out : list GeneralRow) : Prop :=
  sort_values_desc Qle_bool g_avg_matchup_wr data out.

(** ** Focus deck analysis: [show_analysis_section] *)

Record MatchupRow : Type := mkMatchupRow {
  m_opp_deck : string;              (* 対戦相手デッキ *)
  m_opp_type : string;              (* 対戦相手デッキの型 *)
  m_games_played : Z;               (* 対戦数, the total *)
  m_first_games : Z;                (* 対戦数, the (先攻: n) part *)
  m_wins : Z;                       (* (注目デッキの)勝利数 *)
  m_win_rate : Q;                   (* (注目デッキの)勝率(%) *)
  m_avg_win_turn : option Q;        (* 勝利時平均ターン *)
  m_avg_loss_turn : option Q;       (* 敗北時平均ターン *)
  m_win_rate_first : option Q;      (* (注目デッキの)先攻時勝率(%) *)
  m_win_rate_second : option Q      (* (注目デッキの)後攻時勝率(%) *)
}.

(** A row of [df_memo_display]: the record with its date rendered. *)
Record MemoRow : Type := mkMemoRow {
  memo_date : option string;
  memo_record : MatchRecord
}.

Definition digit (d : nat) : ascii := ascii_of_nat (48 + d mod 10).

Definition pad2 (n : nat) : string :=
  String (digit (n / 10)) (String (digit n) EmptyString).

Definition pad4 (n : nat) : string :=
  String (digit (n / 1000)) (String (digit (n / 100)) (pad2 n)).

(** [strftime('%Y-%m-%d')] *)
Definition strftime_Ymd (t : Timestamp) : string :=
  (pad4 (year t) ++ "-" ++ pad2 (month t) ++ "-" ++ pad2 (day t))%string.

Record FocusReport : Type := mkFocusReport {
  f_total_appearances : Z;             (* 総登場回数 *)
  f_total_wins : Z;                    (* 総勝利数 *)
  f_total_losses : Z;
  f_win_rate : Q;                      (* 総合勝率 *)
  f_avg_win_finish_turn : option Q;    (* 勝利時平均ターン *)
  f_total_games_first : Z;
  f_wins_first : Z;
  f_win_rate_first : option Q;         (* 先攻時勝率 *)
  f_total_games_second : Z;
  f_wins_second : Z;
  f_win_rate_second : option Q;        (* 後攻時勝率 *)
  f_matchup_specific_types : list MatchupRow;
  f_matchup_all_types : list MatchupRow;
  f_memo_display : list MemoRow
}.

Section Focus.
Variable df_for_analysis : DataFrame.
Variable selected_focus_deck : string.
(** The value of the type selector in the session state, if any. *)
Variable selected_focus_type : option string.

(** [selected_focus_type and selected_focus_type != ALL_TYPES_PLACEHOLDER] *)
Definition type_filter : option string :=
  match selected_focus_type with
  | Some t =>
      if PyStr.truthy t && negb (seq_str t ALL_TYPES_PLACEHOLDER)
      then Some t else None
  | None => None
  end.

Definition cond_my_deck_focus (r : MatchRecord) : bool :=
  let c := seq_str (my_deck r) selected_focus_deck in
  match type_filter with
  | Some t => c && seq_str (my_deck_type r) t
  | None => c
  end.

Definition cond_opponent_deck_focus (r : MatchRecord) : bool :=
  let c := seq_str (opponent_deck r) selected_focus_deck in
  match type_filter with
  | Some t => c && seq_str (opponent_deck_type r) t
  | None => c
  end.

Definition focus_as_my_deck_games : DataFrame :=
  filter cond_my_deck_focus df_for_analysis.
Definition focus_as_opponent_deck_games : DataFrame :=
  filter cond_opponent_deck_focus df_for_analysis.
Definition total_appearances : Z :=
  len focus_as_my_deck_games + len focus_as_opponent_deck_games.

Definition wins_when_focus_is_my_deck_df : DataFrame :=
  where_eq result WIN focus_as_my_deck_games.
Definition wins_when_focus_is_opponent_deck_df : DataFrame :=
  where_eq result LOSS focus_as_opponent_deck_games.
Definition total_wins_for_focus_deck : Z :=
  len wins_when_focus_is_my_deck_df + len wins_when_focus_is_opponent_deck_df.
Definition total_losses_for_focus_deck : Z :=
  total_appearances - total_wins_for_focus_deck.

Definition win_finish_turns : list Q :=
  (if negb (is_empty wins_when_focus_is_my_deck_df)
   then finish_turns wins_when_focus_is_my_deck_df else [])
  ++ (if negb (is_empty wins_when_focus_is_opponent_deck_df)
      then finish_turns wins_when_focus_is_opponent_deck_df else []).
Definition avg_win_finish_turn_val : option Q := mean_or_none win_finish_turns.

Definition focus_first_my : DataFrame :=
  where_eq first_second FIRST focus_as_my_deck_games.
Definition focus_first_opp : DataFrame :=
  where_eq first_second SECOND focus_as_opponent_deck_games.
Definition total_games_focus_first : Z := len focus_first_my + len focus_first_opp.
Definition wins_focus_first : Z :=
  len (where_eq result WIN focus_first_my)
  + len (where_eq result LOSS focus_first_opp).

Definition focus_second_my : DataFrame :=
  where_eq first_second SECOND focus_as_my_deck_games.
Definition focus_second_opp : DataFrame :=
  where_eq first_second FIRST focus_as_opponent_deck_games.
Definition total_games_focus_second : Z :=
  len focus_second_my + len focus_second_opp.
Definition wins_focus_second : Z :=
  len (where_eq result WIN focus_second_my)
  + len (where_eq result LOSS focus_second_opp).

(** *** The matchup table, one row per opponent deck and type *)

Definition opponents_set : list (string * string) :=
  unique tuple_eq_dec
    ((if negb (is_empty focus_as_my_deck_games)
      then unique tuple_eq_dec
             (map (fun r => (opponent_deck r, opponent_deck_type r))
                  focus_as_my_deck_games)
      else [])
     ++ (if negb (is_empty focus_as_opponent_deck_games)
         then unique tuple_eq_dec
                (map (fun r => (my_deck r, my_deck_type r))
                     focus_as_opponent_deck_games)
         else [])).

Definition all_faced_opponents_tuples : list (string * string) :=
  sorted tuple_leb (filter (fun t => analyzable (fst t)) opponents_set).

Definition case1_games (opp_deck_name opp_deck_type : string) : DataFrame :=
  filter (fun r => seq_str (opponent_deck r) opp_deck_name
                   && seq_str (opponent_deck_type r) opp_deck_type)
         focus_as_my_deck_games.

Definition case2_games (opp_deck_name opp_deck_type : string) : DataFrame :=
  filter (fun r => seq_str (my_deck r) opp_deck_name
                   && seq_str (my_deck_type r) opp_deck_type)
         focus_as_opponent_deck_games.

(** The statistics of the focus deck over the games [case1] it played as
    [my_deck] and the games [case2] it played as [opponent_deck]. *)
Definition games_played_count (case1 case2 : DataFrame) : Z :=
  len case1 + len case2.
Definition focus_deck_wins_count (case1 case2 : DataFrame) : Z :=
  len (where_eq result WIN case1) + len (where_eq result LOSS case2).
Definition focus_deck_win_turns (case1 case2 : DataFrame) : list Q :=
  finish_turns (where_eq result WIN case1)
  ++ finish_turns (where_eq result LOSS case2).
Definition focus_deck_loss_turns (case1 case2 : DataFrame) : list Q :=
  finish_turns (where_eq result LOSS case1)
  ++ finish_turns (where_eq result WIN case2).
Definition fd_first_games_count (case1 case2 : DataFrame) : Z :=
  len (where_eq first_second FIRST case1)
  + len (where_eq first_second SECOND case2).
Definition fd_first_wins_count (case1 case2 : DataFrame) : Z :=
  len (where_eq result WIN (where_eq first_second FIRST case1))
  + len (where_eq result LOSS (where_eq first_second SECOND case2)).
Definition fd_second_games_count (case1 case2 : DataFrame) : Z :=
  len (where_eq first_second SECOND case1)
  + len (where_eq first_second FIRST case2).
Definition fd_second_wins_count (case1 case2 : DataFrame) : Z :=
  len (where_eq result WIN (where_eq first_second SECOND case1))
  + len (where_eq result LOSS (where_eq first_second FIRST case2)).

(** One turn of the loop over [all_faced_opponents_tuples]. *)
Definition matchup_row (opp : string * string) : exc (option MatchupRow) :=
  let '(opp_deck_name, opp_deck_type) := opp in
  let c1 := case1_games opp_deck_name opp_deck_type in
  let c2 := case2_games opp_deck_name opp_deck_type in
  if 0 <? games_played_count c1 c2 then
    win_rate_vs_opp <-
      percent (focus_deck_wins_count c1 c2) (games_played_count c1 c2) ;;
    win_rate_fd_first_vs_opp <-
      rate_or_none (fd_first_wins_count c1 c2) (fd_first_games_count c1 c2) ;;
    win_rate_fd_second_vs_opp <-
      rate_or_none (fd_second_wins_count c1 c2) (fd_second_games_count c1 c2) ;;
    ret (Some {| m_opp_deck := opp_deck_name;
                 m_opp_type := opp_deck_type;
                 m_games_played := games_played_count c1 c2;
                 m_first_games := fd_first_games_count c1 c2;
                 m_wins := focus_deck_wins_count c1 c2;
                 m_win_rate := win_rate_vs_opp;
                 m_avg_win_turn := mean_or_none (focus_deck_win_turns c1 c2);
                 m_avg_loss_turn := mean_or_none (focus_deck_loss_turns c1 c2);
                 m_win_rate_first := win_rate_fd_first_vs_opp;
                 m_win_rate_second := win_rate_fd_second_vs_opp |})
  else ret None.

Definition matchup_data : exc (list MatchupRow) :=
  rows <- mapM matchup_row all_faced_opponents_tuples ;; ret (somes rows).

(** *** The pooled rows, one per opponent deck *)

Definition case1_agg_games_total (opp_deck_name_agg : string) : DataFrame :=
  where_eq opponent_deck opp_deck_name_agg focus_as_my_deck_games.
Definition case2_agg_games_total (opp_deck_name_agg : string) : DataFrame :=
  where_eq my_deck opp_deck_name_agg focus_as_opponent_deck_games.

Definition agg_matchup_row (opp_deck_name_agg : string)
  : exc (option MatchupRow) :=
  let c1 := case1_agg_games_total opp_deck_name_agg in
  let c2 := case2_agg_games_total opp_deck_name_agg in
  win_rate_vs_opp_deck_agg <-
    rate_or_zero (focus_deck_wins_count c1 c2) (games_played_count c1 c2) ;;
  win_rate_fd_first_agg_total <-
    rate_or_none (fd_first_wins_count c1 c2) (fd_first_games_count c1 c2) ;;
  win_rate_fd_second_agg_total <-
    rate_or_none (fd_second_wins_count c1 c2) (fd_second_games_count c1 c2) ;;
  if 0 <? games_played_count c1 c2 then
    ret (Some {| m_opp_deck := opp_deck_name_agg;
                 m_opp_type := ALL_TYPES_PLACEHOLDER;
                 m_games_played := games_played_count c1 c2;
                 m_first_games := fd_first_games_count c1 c2;
                 m_wins := focus_deck_wins_count c1 c2;
                 m_win_rate := win_rate_vs_opp_deck_agg;
                 m_avg_win_turn := mean_or_none (focus_deck_win_turns c1 c2);
                 m_avg_loss_turn := mean_or_none (focus_deck_loss_turns c1 c2);
                 m_win_rate_first := win_rate_fd_first_agg_total;
                 m_win_rate_second := win_rate_fd_second_agg_total |})
  else ret None.

Definition agg_matchup_data (specific : list MatchupRow)
  : exc (list MatchupRow) :=
  if is_empty specific then ret []
  else
    rows <- mapM agg_matchup_row (unique string_dec (map m_opp_deck specific)) ;;
    ret (somes rows).

(** *** Records with a memo *)

Definition memo_filter (r : MatchRecord) : bool :=
  negb (seq_str (PyStr.strip (memo r)) "")
  && negb (seq_str (PyStr.lower (memo r)) "nan").

Definition memos_when_my_deck : DataFrame :=
  filter memo_filter focus_as_my_deck_games.
Definition memos_when_opponent_deck : DataFrame :=
  filter memo_filter focus_as_opponent_deck_games.

(** [pd.concat([...]).drop_duplicates()]: rows are compared by the values
    of their columns. *)
Definition all_memo_games : DataFrame :=
  unique MatchRecord_eq_dec (memos_when_my_deck ++ memos_when_opponent_deck).

Definition df_memo_display : list MemoRow :=
  map (fun r => {| memo_date := option_map strftime_Ymd (date r);
                   memo_record := r |}) all_memo_games.

(** The analysis of the selected deck; [None] when the function warns that
    the deck has no record and returns. *)
Definition focus_report : exc (option FocusReport) :=
  if total_appearances =? 0 then ret None
  else
    win_rate_for_focus_deck <-
      rate_or_zero total_wins_for_focus_deck total_appearances ;;
    win_rate_focus_first <-
      rate_or_none wins_focus_first total_games_focus_first ;;
    win_rate_focus_second <-
      rate_or_none wins_focus_second total_games_focus_second ;;
    specific <- matchup_data ;;
    pooled <- agg_matchup_data specific ;;
    ret (Some {| f_total_appearances := total_appearances;
                 f_total_wins := total_wins_for_focus_deck;
                 f_total_losses := total_losses_for_focus_deck;
                 f_win_rate := win_rate_for_focus_deck;
                 f_avg_win_finish_turn := avg_win_finish_turn_val;
                 f_total_games_first := total_games_focus_first;
                 f_wins_first := wins_focus_first;
                 f_win_rate_first := win_rate_focus_first;
                 f_total_games_second := total_games_focus_second;
                 f_wins_second := wins_focus_second;
                 f_win_rate_second := win_rate_focus_second;
                 f_matchup_specific_types := specific;
                 f_matchup_all_types := pooled;
                 f_memo_display := df_memo_display |}).

End Focus.

(** The filters of the page: one season, or none when the placeholder is
    selected, and a set of environments, or none when the list is empty. *)
Definition df_for_analysis (original_df : DataFrame)
  (selected_season_for_analysis : string) (selected_environments : list string)
  : DataFrame :=
  let df1 :=
    if PyStr.truthy selected_season_for_analysis
       && negb (seq_str selected_season_for_analysis SELECT_PLACEHOLDER)
    then where_eq season selected_season_for_analysis original_df
    else original_df in
  if negb (is_empty selected_environments)
  then filter (fun r => mem string_dec (environment r) selected_environments) df1
  else df1.

(** The options of the season selector and of the environment selector. *)
Definition all_seasons (original_df : DataFrame) : list string :=
  SELECT_PLACEHOLDER
  :: sorted String.leb
       (filter analyzable
          (unique string_dec (dropna_empty (map season original_df)))).

Definition all_environments (original_df : DataFrame) : list string :=
  SELECT_PLACEHOLDER
  :: sorted String.leb
       (filter analyzable
          (unique string_dec (dropna_empty (map environment original_df)))).

(** What the analysis section shows: a notice when there is nothing to
    analyse, the analysis of the selected deck, or the overview. *)
Inductive AnalysisOutput : Type :=
| NothingToAnalyse
| FocusAnalysis (report : option FocusReport)
| Overview (general_performance_data : list GeneralRow).

Definition show_analysis_section (original_df : DataFrame)
  (selected_season_for_analysis : string) (selected_environments : list string)
  (selected_focus_deck : string) (selected_focus_type : option string)
  : exc AnalysisOutput :=
  if is_empty original_df then ret NothingToAnalyse
  else
    let df := df_for_analysis original_df selected_season_for_analysis
                              selected_environments in
    if is_empty df then ret NothingToAnalyse
    else if PyStr.truthy selected_focus_deck
            && negb (seq_str selected_focus_deck SELECT_PLACEHOLDER)
    then report <- focus_report df selected_focus_deck selected_focus_type ;;
         ret (FocusAnalysis report)
    else rows <- general_performance_data df ;; ret (Overview rows).

(** The memo table as displayed: [df_memo_display.sort_values(by='date',
    ascending=False)]. *)
Definition memo_display_sorted (rows out : list MemoRow) : Prop :=
  sort_values_desc String.leb memo_date rows out.

(** *** The matchup table as displayed *)

(** The helper column [__sort_type]:
    ['0_AllTypes' if x == ALL_TYPES_PLACEHOLDER else '1_' + str(x)]. *)
Definition sort_type (x : string) : string :=
  if seq_str x ALL_TYPES_PLACEHOLDER then "0_AllTypes" else ("1_" ++ x)%string.

Definition matchup_sort_key (m : MatchupRow) : string * string :=
  (m_opp_deck m, sort_type (m_opp_type m)).

(** [pd.concat([matchup_df_specific_types, matchup_df_all_types])] *)
Definition matchup_df_combined (fr : FocusReport) : list MatchupRow :=
  f_matchup_specific_types fr ++ f_matchup_all_types fr.

(** [sort_values(by=["対戦相手デッキ", "__sort_type"])].  With several sort
    columns pandas orders the rows by a lexicographic sort of the ordered
    codes of the columns, which is stable.  [None] when the page shows the
    notice that there is no matchup record instead of a table. *)
Definition matchup_df_final (fr : FocusReport) : option (list MatchupRow) :=
  if is_empty (f_matchup_specific_types fr) then None
  else if is_empty (matchup_df_combined fr) then None
  else Some (sorted (fun x y => tuple_leb (matchup_sort_key x)
                                          (matchup_sort_key y))
                    (matchup_df_combined fr)).

(** ** The list of all records: [main] *)

(** Order of two timestamps: by calendar date, then by time of day. *)
Definition ts_compare (a b : Timestamp) : comparison :=
  match Nat.compare (year a) (year b) with
  | Eq => match Nat.compare (month a) (month b) with
          | Eq => match Nat.compare (day a) (day b) with
                  | Eq => Z.compare (time_ns a) (time_ns b)
                  | c => c
                  end
          | c => c
          end
  | c => c
  end.

Definition ts_leb (a b : Timestamp) : bool :=
  match ts_compare a b with Gt => false | _ => true end.

Definition notna_date (r : MatchRecord) : bool :=
  match date r with Some _ => true | None => false end.

(** [df_display.dropna(subset=['date'])] and
    [df_display[df_display['date'].isna()]]. *)
Definition not_nat_dates (df : DataFrame) : DataFrame := filter notna_date df.
Definition nat_dates (df : DataFrame) : DataFrame :=
  filter (fun r => negb (notna_date r)) df.

(** [pd.concat([not_nat_dates.sort_values(by='date', ascending=False),
    nat_dates])]: the dated records sorted by timestamp, then the undated
    ones. *)
Definition df_display_sorted (df out : DataFrame) : Prop :=
  exists dated,
    sort_values_desc ts_leb date (not_nat_dates df) dated
    /\ out = dated ++ nat_dates df.

(** The displayed rows: the date rendered by [strftime('%Y-%m-%d')], or
    [None] for an undated record. *)
Definition record_list_rows (out : DataFrame) : list MemoRow :=
  map (fun r => {| memo_date := option_map strftime_Ymd (date r);
                   memo_record := r |}) out.

(** ** The specification's vocabulary

    Definitions that follow the words of the specification rather than the
    code; the theorems compare the code with them. *)

(** The effective result and seat of a record seen from its opponent side:
    WIN and LOSS, FIRST and SECOND are exchanged. *)
Definition negate_result (s : string) : string :=
  if seq_str s WIN then LOSS else if seq_str s LOSS then WIN else s.


Definition b2z (b : bool) : Z := if b then 1 else 0.





(** What a record with the focus key on both of its sides adds. *)
Definition mirror_contribution
  (R : MatchRecord) (deck : string) (ty : option string) (df1 df2 : DataFrame)
  : Prop :=
  let df := df1 ++ R :: df2 in
  let df' := df1 ++ df2 in
  In R (focus_as_my_deck_games df deck ty)
  /\ In R (focus_as_opponent_deck_games df deck ty)
  /\ total_appearances df deck ty = total_appearances df' deck ty + 2
  /\ total_wins_for_focus_deck df deck ty
     = total_wins_for_focus_deck df' deck ty
       + b2z (seq_str (result R) WIN) + b2z (seq_str (result R) LOSS)
  /\ total_appearances_deck_a df deck = total_appearances_deck_a df' deck + 2.

(** ** Sample frames *)

(** The two records of the specification's scenario. *)
Definition scenario_record_1 : MatchRecord :=
  mkRecord "" None "" "Alpha" "Red" "Beta" "Blue" FIRST WIN (Some 5) "".
Definition scenario_record_2 : MatchRecord :=
  mkRecord "" None "" "Beta" "Blue" "Alpha" "Red" SECOND LOSS (Some 7) "".
Definition scenario_df : DataFrame := [scenario_record_1; scenario_record_2].

(** A game of Alpha (Red) against Alpha (Red). *)
Definition mirror_record : MatchRecord :=
  mkRecord "" None "" "Alpha" "Red" "Alpha" "Red" FIRST WIN (Some 4) "".

(** ** Closed forms

    The values the monadic computations return when no exception is raised;
    the lemmas of the next part show that they always do. *)

Definition pct (w n : Z) : Q := (inject_Z w / inject_Z n * 100)%Q.

(** A rate over [n] games: the percentage, or the missing value when there
    is no game. *)
Definition rate_opt (w n : Z) : option Q :=
  if 0 <? n then Some (pct w n) else None.

Definition matchup_win_rates_value (df : DataFrame) (a : string) : list Q :=
  map (fun opp => pct (total_wins_for_a_vs_specific_opponent df a opp)
                      (total_games_vs_specific_opponent df a opp))
      (filter (fun opp => 0 <? total_games_vs_specific_opponent df a opp)
              (unique_opponents_faced_by_deck_a df a)).

Definition deck_a_row_value (df : DataFrame) (a : string) : GeneralRow :=
  {| g_deck := a;
     g_total_appearances := total_appearances_deck_a df a;
     g_total_games_first := total_games_deck_a_first df a;
     g_total_wins := total_wins_deck_a df a;
     g_total_losses := total_losses_deck_a df a;
     g_simple_overall_win_rate :=
       pct (total_wins_deck_a df a) (total_appearances_deck_a df a);
     g_avg_matchup_wr := mean_or_none (matchup_win_rates_value df a);
     g_win_rate_first :=
       rate_opt (wins_deck_a_first df a) (total_games_deck_a_first df a);
     g_win_rate_second :=
       rate_opt (wins_deck_a_second df a) (total_games_deck_a_second df a) |}.

Definition matchup_row_value (name type : string) (c1 c2 : DataFrame)
  : MatchupRow :=
  {| m_opp_deck := name;
     m_opp_type := type;
     m_games_played := games_played_count c1 c2;
     m_first_games := fd_first_games_count c1 c2;
     m_wins := focus_deck_wins_count c1 c2;
     m_win_rate := pct (focus_deck_wins_count c1 c2) (games_played_count c1 c2);
     m_avg_win_turn := mean_or_none (focus_deck_win_turns c1 c2);
     m_avg_loss_turn := mean_or_none (focus_deck_loss_turns c1 c2);
     m_win_rate_first :=
       rate_opt (fd_first_wins_count c1 c2) (fd_first_games_count c1 c2);
     m_win_rate_second :=
       rate_opt (fd_second_wins_count c1 c2) (fd_second_games_count c1 c2) |}.

Definition matchup_row_opt (name type : string) (c1 c2 : DataFrame)
  : option MatchupRow :=
  if 0 <? games_played_count c1 c2
  then Some (matchup_row_value name type c1 c2) else None.

Section FocusValues.
Variable df : DataFrame.
Variable deck : string.
Variable ty : option string.

Definition specific_row_opt (opp : string * string) : option MatchupRow :=
  matchup_row_opt (fst opp) (snd opp)
    (case1_games df deck ty (fst opp) (snd opp))
    (case2_games df deck ty (fst opp) (snd opp)).

Definition matchup_data_value : list MatchupRow :=
  somes (map specific_row_opt (all_faced_opponents_tuples df deck ty)).

Definition pooled_row_opt (name : string) : option MatchupRow :=
  matchup_row_opt name ALL_TYPES_PLACEHOLDER
    (case1_agg_games_total df deck ty name)
    (case2_agg_games_total df deck ty name).

Definition agg_matchup_data_value : list MatchupRow :=
  somes (map pooled_row_opt (unique string_dec (map m_opp_deck matchup_data_value))).

Definition focus_report_value : FocusReport :=
  {| f_total_appearances := total_appearances df deck ty;
     f_total_wins := total_wins_for_focus_deck df deck ty;
     f_total_losses := total_losses_for_focus_deck df deck ty;
     f_win_rate :=
       pct (total_wins_for_focus_deck df deck ty) (total_appearances df deck ty);
     f_avg_win_finish_turn := avg_win_finish_turn_val df deck ty;
     f_total_games_first := total_games_focus_first df deck ty;
     f_wins_first := wins_focus_first df deck ty;
     f_win_rate_first :=
       rate_opt (wins_focus_first df deck ty) (total_games_focus_first df deck ty);
     f_total_games_second := total_games_focus_second df deck ty;
     f_wins_second := wins_focus_second df deck ty;
     f_win_rate_second :=
       rate_opt (wins_focus_second df deck ty)
                (total_games_focus_second df deck ty);
     f_matchup_specific_types := matchup_data_value;
     f_matchup_all_types := agg_matchup_data_value;
     f_memo_display := df_memo_display df deck ty |}.

End FocusValues.

(** ** Reported rates

    What the specification asks of every rate: a percentage over a positive
    number of games, or else the missing value, which is not 0%. *)

Definition overview_row_rates (df : DataFrame) (row : GeneralRow) : Prop :=
  let a := g_deck row in
  0 < total_appearances_deck_a df a
  /\ g_total_appearances row = total_appearances_deck_a df a
  /\ g_simple_overall_win_rate row
     = pct (total_wins_deck_a df a) (total_appearances_deck_a df a)
  /\ g_win_rate_first row
     = rate_opt (wins_deck_a_first df a) (total_games_deck_a_first df a)
  /\ g_win_rate_second row
     = rate_opt (wins_deck_a_second df a) (total_games_deck_a_second df a)
  /\ g_avg_matchup_wr row = mean_or_none (matchup_win_rates_value df a).

Definition matchup_row_rates (m : MatchupRow) : Prop :=
  exists c1 c2 : DataFrame,
    0 < games_played_count c1 c2
    /\ m_games_played m = games_played_count c1 c2
    /\ m_win_rate m = pct (focus_deck_wins_count c1 c2) (games_played_count c1 c2)
    /\ m_win_rate_first m
       = rate_opt (fd_first_wins_count c1 c2) (fd_first_games_count c1 c2)
    /\ m_win_rate_second m
       = rate_opt (fd_second_wins_count c1 c2) (fd_second_games_count c1 c2).

Definition focus_report_rates (df : DataFrame) (deck : string)
  (ty : option string) (fr : FocusReport) : Prop :=
  0 < total_appearances df deck ty
  /\ f_total_appearances fr = total_appearances df deck ty
  /\ f_win_rate fr
     = pct (total_wins_for_focus_deck df deck ty) (total_appearances df deck ty)
  /\ f_win_rate_first fr
     = rate_opt (wins_focus_first df deck ty) (total_games_focus_first df deck ty)
  /\ f_win_rate_second fr
     = rate_opt (wins_focus_second df deck ty)
                (total_games_focus_second df deck ty)
  /\ (forall m, In m (f_matchup_specific_types fr) -> matchup_row_rates m)
  /\ (forall m, In m (f_matchup_all_types fr) -> matchup_row_rates m).

(** A usable name: not empty and not ['nan'] in any letter case. *)
Definition valid_name (s : string) : Prop :=
  s <> "" /\ PyStr.lower s <> "nan".

Definition nan_spellings : list string :=
  ["nan"; "naN"; "nAn"; "nAN"; "Nan"; "NaN"; "NAn"; "NAN"].

(** A record names deck [n] on one of its sides. *)
Definition names_deck (r : MatchRecord) (n : string) : Prop :=
  my_deck r = n \/ opponent_deck r = n.

(** Alpha beat an opponent whose deck cell was empty in the sheet and reads
    ['nan'] after loading. *)
Definition nan_opponent_df : DataFrame :=
  [mkRecord "" None "" "Alpha" "Red" "nan" "nan" FIRST WIN (Some 5) ""].

(** Decks [a] and [o] sit on the two sides of record [r]. *)
Definition pairs (r : MatchRecord) (a o : string) : Prop :=
  (my_deck r = a /\ opponent_deck r = o)
  \/ (opponent_deck r = a /\ my_deck r = o).

(** ** The average matchup win rate, in the specification's words *)

Definition pairs_b (a b : string) (r : MatchRecord) : bool :=
  (seq_str (my_deck r) a && seq_str (opponent_deck r) b)
  || (seq_str (opponent_deck r) a && seq_str (my_deck r) b).

(** The result of [r] read from the side of [a]: direct when [a] is
    [my_deck], negated when [a] is the opponent. *)
Definition wins_for (a : string) (r : MatchRecord) : bool :=
  if seq_str (my_deck r) a then seq_str (result r) WIN
  else seq_str (negate_result (result r)) WIN.

(** Games of the pairing of [a] with [b], and those of them [a] won. *)
Definition pairing_games (df : DataFrame) (a b : string) : Z :=
  len (filter (pairs_b a b) df).
Definition pairing_wins (df : DataFrame) (a b : string) : Z :=
  len (filter (fun r => pairs_b a b r && wins_for a r) df).
Definition pairing_wr (df : DataFrame) (a b : string) : Q :=
  pct (pairing_wins df a b) (pairing_games df a b).

(** The archetypes on the other side of the records of [a]. *)
Definition other_sides (df : DataFrame) (a : string) : list string :=
  flat_map (fun r => (if seq_str (my_deck r) a then [opponent_deck r] else [])
                     ++ (if seq_str (opponent_deck r) a then [my_deck r] else []))
           df.

(** "Every distinct opposing archetype B with B <> A that A has faced at
    least once", with no condition on the name of B. *)
Definition spec_distinct_opponents (df : DataFrame) (a : string) : list string :=
  unique string_dec (filter (fun b => negb (seq_str b a)) (other_sides df a)).

Definition spec_avg_matchup_wr (df : DataFrame) (a : string) : option Q :=
  mean_or_none (map (pairing_wr df a) (spec_distinct_opponents df a)).

(** The guard on names of the overview's opponent loop. *)
Definition counted_name (b : string) : Prop :=
  PyStr.strip b <> "" /\ PyStr.lower (PyStr.strip b) <> "nan".

(** Alpha beat a deck whose name is a single space. *)
Definition blank_opponent_df : DataFrame :=
  [mkRecord "" None "" "Alpha" "" " " "" FIRST WIN None ""].

(** Alpha beat a deck whose name is a single ideographic space (U+3000). *)
Definition wide_blank_opponent_df : DataFrame :=
  [mkRecord "" None "" "Alpha" "" (PyStr.of_bytes [227; 128; 128]%nat) ""
            FIRST WIN None ""].

(** The unweighted arithmetic mean of [f] over the members of [l], missing
    when [l] is empty. *)
Definition unweighted_mean (f : string -> Q) (l : list string) : option Q :=
  match l with
  | [] => None
  | _ => Some (Qsum (map f l) / inject_Z (len l))%Q
  end.

(** Equality of optional rates as numbers. *)
Definition Qopt_eq (a b : option Q) : Prop :=
  match a, b with
  | Some x, Some y => (x == y)%Q
  | None, None => True
  | _, _ => False
  end.

(** The type selection of a key (A, ALL). *)
Definition ALL_KEY : option string := Some ALL_TYPES_PLACEHOLDER.

(** The results of the games between [a] and [b] are WIN or LOSS. *)
Definition results_well_formed (df : DataFrame) (a b : string) : Prop :=
  forall r, In r df -> pairs r a b -> result r = WIN \/ result r = LOSS.

(** The pooled row of opponent [b] in the analysis of (a, ALL) exists and
    shows [w] wins in [n] games. *)
Definition pooled_row_shows (df : DataFrame) (a b : string) (w n : Z) : Prop :=
  exists fr row,
    focus_report df a ALL_KEY = Ok (Some fr)
    /\ In row (f_matchup_all_types fr)
    /\ m_opp_deck row = b
    /\ m_opp_type row = ALL_TYPES_PLACEHOLDER
    /\ m_wins row = w
    /\ m_games_played row = n
    /\ forall row', In row' (f_matchup_all_types fr) ->
                    m_opp_deck row' = b -> row' = row.

Definition Zsum (l : list Z) : Z := fold_right Z.add 0 l.

(** The rows of a matchup table for opponent deck [b]. *)
Definition rows_of (b : string) (rows : list MatchupRow) : list MatchupRow :=
  filter (fun m => seq_str (m_opp_deck m) b) rows.

(** The row of the loop over the tuples, and the types under which
    opponent deck [b] appears in that loop. *)
Definition specific_row_value (df : DataFrame) (deck : string)
  (ty : option string) (t : string * string) : MatchupRow :=
  matchup_row_value (fst t) (snd t)
    (case1_games df deck ty (fst t) (snd t))
    (case2_games df deck ty (fst t) (snd t)).

Definition faced_types (df : DataFrame) (deck : string) (ty : option string)
  (b : string) : list string :=
  map snd (filter (fun t => seq_str (fst t) b)
                  (all_faced_opponents_tuples df deck ty)).

(** A's wins against B as the pooled aggregation of the analysis of
    (A, ALL) counts them. *)
Definition pooled_wins (df : DataFrame) (a b : string) : Z :=
  focus_deck_wins_count (case1_agg_games_total df a ALL_KEY b)
                        (case2_agg_games_total df a ALL_KEY b).

Definition pooled_games (df : DataFrame) (a b : string) : Z :=
  games_played_count (case1_agg_games_total df a ALL_KEY b)
                     (case2_agg_games_total df a ALL_KEY b).

(** ** Sorted tables, in the specification's words *)

(** The rows with a key, each with its key, in row order; and the rows
    without a key. *)
Definition keyed {A K} (key : A -> option K) (rows : list A) : list (A * K) :=
  flat_map (fun r => match key r with
                     | Some k => [(r, k)]
                     | None => []
                     end) rows.

Definition unkeyed {A K} (key : A -> option K) (rows : list A) : list A :=
  filter (fun r => match key r with Some _ => false | None => true end) rows.

(** [x] may stand before [y] in a descending order of the keys. *)
Definition key_ge {A K} (leb : K -> K -> bool) (key : A -> option K) (x y : A)
  : Prop :=
  match key x, key y with
  | Some kx, Some ky => leb ky kx = true
  | _, _ => False
  end.

(** Descending by key with the rows lacking a key last, these in their
    original order. *)
Definition sorted_desc_na_last {A K} (leb : K -> K -> bool)
  (key : A -> option K) (rows out : list A) : Prop :=
  exists with_key,
    out = with_key ++ unkeyed key rows
    /\ Permutation with_key (map fst (keyed key rows))
    /\ Sorted (key_ge leb key) with_key.

(** The order the specification describes for the overview: descending by
    average matchup win rate, rows without one last, rows of equal value in
    discovery order. *)
Definition spec_stable_desc_na_last {A K} (leb : K -> K -> bool)
  (key : A -> option K) (rows : list A) : list A :=
  map fst (sorted (fun x y => leb (snd y) (snd x)) (keyed key rows))
  ++ unkeyed key rows.

Definition spec_overview_order (data : list GeneralRow) : list GeneralRow :=
  spec_stable_desc_na_last Qle_bool g_avg_matchup_wr data.

(** Seventeen decks that each beat Zed once: seventeen archetypes with the
    same average matchup win rate, more than the sixteen elements below
    which the usual quicksort falls back to an insertion sort. *)
Definition tied_decks : list string :=
  ["D01"; "D02"; "D03"; "D04"; "D05"; "D06"; "D07"; "D08"; "D09"; "D10";
   "D11"; "D12"; "D13"; "D14"; "D15"; "D16"; "D17"].

Definition tie_df : DataFrame :=
  map (fun d => mkRecord "" None "" d "" "Zed" "" FIRST WIN None "") tied_decks.

(** The table of [tie_df] with its first two rows exchanged. *)
Definition tie_swapped_decks : list string :=
  ["D02"; "D01"; "D03"; "D04"; "D05"; "D06"; "D07"; "D08"; "D09"; "D10";
   "D11"; "D12"; "D13"; "D14"; "D15"; "D16"; "D17"; "Zed"].

(** ** Memo records, in the specification's words *)

(** Order of two timestamps by calendar date. *)
Definition ymd_compare (a b : Timestamp) : comparison :=
  match Nat.compare (year a) (year b) with
  | Eq => match Nat.compare (month a) (month b) with
          | Eq => Nat.compare (day a) (day b)
          | c => c
          end
  | c => c
  end.

(** A calendar date within the range of a pandas timestamp. *)
Definition valid_date (t : Timestamp) : Prop :=
  (1677 <= year t <= 2262)%nat
  /\ (1 <= month t <= 12)%nat
  /\ (1 <= day t <= 31)%nat.

Definition dates_valid (df : DataFrame) : Prop :=
  forall r t, In r df -> date r = Some t -> valid_date t.

(** The memo passes the filter of the memo table. *)
Definition has_memo (r : MatchRecord) : Prop :=
  PyStr.strip (memo r) <> "" /\ PyStr.lower (memo r) <> "nan".

(** Row [x] may stand before row [y]: both are dated and the date of [y] is
    not after the date of [x]. *)
Definition not_later (x y : MemoRow) : Prop :=
  match date (memo_record x), date (memo_record y) with
  | Some a, Some b => ymd_compare b a <> Gt
  | _, _ => False
  end.

(** The records of the two subsets with a non-blank memo, each record of
    the frame (each row position) once. *)
Definition spec_memo_by_identity (df : DataFrame) (deck : string)
  (ty : option string) : DataFrame :=
  filter (fun r => (cond_my_deck_focus deck ty r
                    || cond_opponent_deck_focus deck ty r)
                   && negb (seq_str (PyStr.strip (memo r)) "")) df.

(** What holds of the memo table of a focus key and of every result [out]
    of its sort. *)
Definition memo_table_sorted (df : DataFrame) (deck : string)
  (ty : option string) (out : list MemoRow) : Prop :=
  Permutation out (df_memo_display df deck ty)
  /\ exists dated undated,
       out = dated ++ undated
       /\ (forall x, In x dated ->
             exists t, date (memo_record x) = Some t
                       /\ memo_date x = Some (strftime_Ymd t))
       /\ (forall x, In x undated ->
             date (memo_record x) = None /\ memo_date x = None)
       /\ Sorted not_later dated.

Definition memo_extraction_holds (df : DataFrame) (deck : string)
  (ty : option string) : Prop :=
  NoDup (all_memo_games df deck ty)
  /\ (forall r, In r (all_memo_games df deck ty)
                <-> In r df
                    /\ (cond_my_deck_focus deck ty r = true
                        \/ cond_opponent_deck_focus deck ty r = true)
                    /\ has_memo r)
  /\ df_memo_display df deck ty
     = map (fun r => {| memo_date := option_map strftime_Ymd (date r);
                        memo_record := r |})
           (all_memo_games df deck ty)
  /\ (exists out, memo_display_sorted (df_memo_display df deck ty) out)
  /\ (forall out, memo_display_sorted (df_memo_display df deck ty) out ->
                  memo_table_sorted df deck ty out).

(** Two games with the same values in every column, both with a memo, and
    frames with dated and undated memo records. *)
Definition noted_record : MatchRecord :=
  mkRecord "S1" (Some (mkTimestamp 2024 5 3 0)) "" "Alpha" "Red" "Beta" "Blue"
           FIRST WIN (Some 5) "close game".
Definition twice_noted_df : DataFrame := [noted_record; noted_record].

(** A game whose memo is the text NaN, and one whose memo is a single
    ideographic space (U+3000). *)
Definition nan_noted_record : MatchRecord :=
  mkRecord "S1" None "" "Alpha" "Red" "Beta" "Blue" FIRST WIN (Some 5) "NaN".
Definition wide_blank_memo_record : MatchRecord :=
  mkRecord "S1" None "" "Alpha" "Red" "Beta" "Blue" FIRST WIN (Some 5)
           (PyStr.of_bytes [227; 128; 128]%nat).

Definition memo_df : DataFrame :=
  [mkRecord "S1" (Some (mkTimestamp 2024 5 3 0)) "" "Alpha" "Red" "Beta" "Blue"
            FIRST WIN (Some 5) "close game";
   mkRecord "S1" None "" "Beta" "Blue" "Alpha" "Red" FIRST WIN None "no date";
   mkRecord "S1" (Some (mkTimestamp 2024 11 20 0)) "" "Beta" "Blue" "Alpha" "Red"
            SECOND LOSS (Some 7) "rematch";
   mkRecord "S1" (Some (mkTimestamp 2024 6 1 0)) "" "Alpha" "Red" "Beta" "Blue"
            FIRST LOSS (Some 6) ""].

(** ** Ranges and totals *)

(** A percentage. *)
Definition in_percent_range (q : Q) : Prop := (0 <= q <= 100)%Q.

(** A reported rate: missing, or a percentage. *)
Definition rate_in_range (o : option Q) : Prop :=
  match o with
  | Some q => in_percent_range q
  | None => True
  end.

(** The sides of the records that carry a usable deck name. *)
Definition usable_sides (df : DataFrame) : Z :=
  len (filter (fun r => analyzable (my_deck r)) df)
  + len (filter (fun r => analyzable (opponent_deck r)) df).

(** Every deck name of the frame is usable. *)
Definition names_usable (df : DataFrame) : Prop :=
  forall r, In r df -> valid_name (my_deck r) /\ valid_name (opponent_deck r).

(** Every result of the frame is WIN or LOSS; every seat FIRST or SECOND. *)
Definition all_results_well_formed (df : DataFrame) : Prop :=
  forall r, In r df -> result r = WIN \/ result r = LOSS.

Definition all_seats_well_formed (df : DataFrame) : Prop :=
  forall r, In r df -> first_second r = FIRST \/ first_second r = SECOND.

(** The counts of an overview row are those of the records that name its
    deck, and they are consistent with each other. *)
Definition overview_row_counts (df : DataFrame) (row : GeneralRow) : Prop :=
  let a := g_deck row in
  g_total_appearances row
  = len (where_eq my_deck a df) + len (where_eq opponent_deck a df)
  /\ 0 <= g_total_wins row <= g_total_appearances row
  /\ 0 <= g_total_losses row <= g_total_appearances row
  /\ g_total_wins row + g_total_losses row = g_total_appearances row
  /\ 0 <= g_total_games_first row <= g_total_appearances row.

Definition overview_row_rates_in_range (row : GeneralRow) : Prop :=
  in_percent_range (g_simple_overall_win_rate row)
  /\ rate_in_range (g_avg_matchup_wr row)
  /\ rate_in_range (g_win_rate_first row)
  /\ rate_in_range (g_win_rate_second row).

(** The own metrics of a focus report and an overview row show the same
    figures. *)
Definition focus_matches_overview_row (fr : FocusReport) (row : GeneralRow)
  : Prop :=
  f_total_appearances fr = g_total_appearances row
  /\ f_total_wins fr = g_total_wins row
  /\ f_total_losses fr = g_total_losses row
  /\ f_win_rate fr = g_simple_overall_win_rate row
  /\ f_total_games_first fr = g_total_games_first row
  /\ f_win_rate_first fr = g_win_rate_first row
  /\ f_win_rate_second fr = g_win_rate_second row.

(** Deck [d] is recorded with type [t] on one of the sides of [r]. *)
Definition has_type (r : MatchRecord) (d t : string) : Prop :=
  (my_deck r = d /\ my_deck_type r = t)
  \/ (opponent_deck r = d /\ opponent_deck_type r = t).

(** Ascending by code point. *)
Definition ascending (l : list string) : Prop :=
  Sorted (fun a b => String.leb a b = true) l.

(** The games of the focus key against an opponent with a usable name, and
    those of them the focus deck won. *)
Definition games_vs_usable_opponents (df : DataFrame) (deck : string)
  (ty : option string) : Z :=
  len (filter (fun r => analyzable (opponent_deck r))
              (focus_as_my_deck_games df deck ty))
  + len (filter (fun r => analyzable (my_deck r))
                (focus_as_opponent_deck_games df deck ty)).

Definition wins_vs_usable_opponents (df : DataFrame) (deck : string)
  (ty : option string) : Z :=
  len (filter (fun r => analyzable (opponent_deck r) && seq_str (result r) WIN)
              (focus_as_my_deck_games df deck ty))
  + len (filter (fun r => analyzable (my_deck r) && seq_str (result r) LOSS)
                (focus_as_opponent_deck_games df deck ty)).

Definition matchup_row_in_range (m : MatchupRow) : Prop :=
  0 <= m_wins m <= m_games_played m
  /\ 0 <= m_first_games m <= m_games_played m
  /\ in_percent_range (m_win_rate m)
  /\ rate_in_range (m_win_rate_first m)
  /\ rate_in_range (m_win_rate_second m).

Definition focus_report_in_range (fr : FocusReport) : Prop :=
  0 <= f_total_wins fr <= f_total_appearances fr
  /\ 0 <= f_total_losses fr <= f_total_appearances fr
  /\ f_total_wins fr + f_total_losses fr = f_total_appearances fr
  /\ 0 <= f_wins_first fr <= f_total_games_first fr
  /\ 0 <= f_wins_second fr <= f_total_games_second fr
  /\ f_total_games_first fr + f_total_games_second fr <= f_total_appearances fr
  /\ in_percent_range (f_win_rate fr)
  /\ rate_in_range (f_win_rate_first fr)
  /\ rate_in_range (f_win_rate_second fr)
  /\ (forall m, In m (f_matchup_specific_types fr) -> matchup_row_in_range m)
  /\ (forall m, In m (f_matchup_all_types fr) -> matchup_row_in_range m).

(** The finish turns of the frame lie between [lo] and [hi]. *)
Definition turns_between (lo hi : Z) (df : DataFrame) : Prop :=
  forall r t, In r df -> finish_turn r = Some t -> lo <= t <= hi.

(** A reported mean turn: missing, or between [lo] and [hi]. *)
Definition mean_turn_between (lo hi : Z) (o : option Q) : Prop :=
  match o with
  | Some m => (inject_Z lo <= m <= inject_Z hi)%Q
  | None => True
  end.

Definition mean_turns_between (lo hi : Z) (fr : FocusReport) : Prop :=
  mean_turn_between lo hi (f_avg_win_finish_turn fr)
  /\ (forall m, In m (f_matchup_specific_types fr ++ f_matchup_all_types fr) ->
        mean_turn_between lo hi (m_avg_win_turn m)
        /\ mean_turn_between lo hi (m_avg_loss_turn m)).

(** A game of Alpha against Beta whose finish turn was not recorded. *)
Definition no_turn_record : MatchRecord :=
  mkRecord "" None "" "Alpha" "Red" "Beta" "Blue" SECOND WIN None "".

(** With every seat recorded, the games of a report or row split into
    first-seat and second-seat games, so a seat rate is missing exactly when
    all games were played from the other seat. *)
Definition matchup_row_seats_split (m : MatchupRow) : Prop :=
  (m_win_rate_first m = None <-> m_first_games m = 0)
  /\ (m_win_rate_second m = None <-> m_first_games m = m_games_played m).

Definition focus_report_seats_split (fr : FocusReport) : Prop :=
  f_total_games_first fr + f_total_games_second fr = f_total_appearances fr
  /\ (forall m, In m (f_matchup_specific_types fr ++ f_matchup_all_types fr) ->
        matchup_row_seats_split m).

Definition overview_row_seats_split (row : GeneralRow) : Prop :=
  (g_win_rate_first row = None <-> g_total_games_first row = 0)
  /\ (g_win_rate_second row = None
      <-> g_total_games_first row = g_total_appearances row).

(** ** Figures of the tables *)








(** Row [x] stands before row [y] in table [l]. *)
Definition stands_before {A} (x y : A) (l : list A) : Prop :=
  exists l1 l2 l3, l = l1 ++ x :: l2 ++ y :: l3.

(** What holds of the displayed matchup table of a report. *)
Definition matchup_table_ordered (fr : FocusReport) (final : list MatchupRow)
  : Prop :=
  Permutation final (f_matchup_specific_types fr ++ f_matchup_all_types fr)
  /\ StronglySorted (fun x y => tuple_leb (matchup_sort_key x)
                                          (matchup_sort_key y) = true) final
  /\ (forall pooled specific,
        In pooled (f_matchup_all_types fr) ->
        In specific (f_matchup_specific_types fr) ->
        m_opp_deck specific = m_opp_deck pooled ->
        m_opp_type specific <> ALL_TYPES_PLACEHOLDER ->
        stands_before pooled specific final)
  /\ (forall pooled specific,
        In pooled (f_matchup_all_types fr) ->
        In specific (f_matchup_specific_types fr) ->
        m_opp_deck specific = m_opp_deck pooled ->
        m_opp_type specific = ALL_TYPES_PLACEHOLDER ->
        stands_before specific pooled final)
  /\ (forall x y,
        stands_before x y final ->
        String.leb (m_opp_deck x) (m_opp_deck y) = true).

(** Record [x] may stand before record [y] in the list of records: both are
    dated and [y] is not later than [x]. *)
Definition not_later_ts (x y : MatchRecord) : Prop :=
  match date x, date y with
  | Some a, Some b => ts_compare b a <> Gt
  | _, _ => False
  end.

Definition record_list_ordered (df out : DataFrame) : Prop :=
  Permutation out df
  /\ exists dated,
       out = dated ++ nat_dates df
       /\ Permutation dated (not_nat_dates df)
       /\ (forall r, In r dated -> date r <> None)
       /\ (forall r, In r (nat_dates df) -> date r = None)
       /\ Sorted not_later_ts dated
       /\ (forall x, In x (record_list_rows out) ->
             memo_date x = None <-> date (memo_record x) = None).

(** A record passes the filters of the page. *)
Definition passes_filters (selected_season : string)
  (selected_environments : list string) (r : MatchRecord) : bool :=
  (if PyStr.truthy selected_season
      && negb (seq_str selected_season SELECT_PLACEHOLDER)
   then seq_str (season r) selected_season else true)
  && (if is_empty selected_environments then true
      else mem string_dec (environment r) selected_environments).

(** A deck is selected in the focus selector. *)
Definition deck_selected (deck : string) : bool :=
  PyStr.truthy deck && negb (seq_str deck SELECT_PLACEHOLDER).

(** Every type recorded with deck [a] is usable and is not the ALL entry. *)
Definition types_usable (df : DataFrame) (a : string) : Prop :=
  forall r, In r df ->
    (my_deck r = a ->
     valid_name (my_deck_type r) /\ my_deck_type r <> ALL_TYPES_PLACEHOLDER)
    /\ (opponent_deck r = a ->
        valid_name (opponent_deck_type r)
        /\ opponent_deck_type r <> ALL_TYPES_PLACEHOLDER).

(** * Properties *)

(** ** Lists and counts *)

Lemma len_app {A} (l1 l2 : list A) : len (l1 ++ l2) = len l1 + len l2.
Proof. unfold len. rewrite length_app. lia. Qed.

Lemma len_nonneg {A} (l : list A) : 0 <= len l.
Proof. unfold len. lia. Qed.

Lemma len_cons {A} (x : A) (l : list A) : len (x :: l) = len l + 1.
Proof. unfold len. simpl List.length. lia. Qed.

Lemma len_nil {A} : len (@nil A) = 0.
Proof. reflexivity. Qed.

Lemma len_pos_iff {A} (l : list A) : 0 < len l <-> l <> [].
Proof.
  destruct l as [|x l].
  - unfold len; simpl. split; [lia | congruence].
  - rewrite len_cons. pose proof (len_nonneg l). split; [discriminate | lia].
Qed.

Lemma filter_filter {A} (p q : A -> bool) (l : list A) :
  filter q (filter p l) = filter (fun x => p x && q x) l.
Proof.
  induction l as [|x l IH]; simpl; [reflexivity|].
  destruct (p x); simpl; [destruct (q x)|]; now rewrite IH.
Qed.

Lemma where_eq_filter col v (p : MatchRecord -> bool) (df : DataFrame) :
  where_eq col v (filter p df) = filter (fun r => p r && seq_str (col r) v) df.
Proof. apply filter_filter. Qed.

Lemma len_filter_insert {A} (p : A -> bool) (l1 l2 : list A) (x : A) :
  len (filter p (l1 ++ x :: l2)) = len (filter p (l1 ++ l2)) + b2z (p x).
Proof.
  rewrite !filter_app, !len_app. simpl.
  destruct (p x); simpl; rewrite ?len_cons; lia.
Qed.

Lemma seq_str_true (a b : string) : seq_str a b = true <-> a = b.
Proof. apply String.eqb_eq. Qed.

Lemma seq_str_false (a b : string) : seq_str a b = false <-> a <> b.
Proof. apply String.eqb_neq. Qed.

Lemma seq_str_refl (a : string) : seq_str a a = true.
Proof. apply String.eqb_refl. Qed.

Lemma negate_result_win (s : string) :
  seq_str (negate_result s) WIN = seq_str s LOSS.
Proof.
  unfold negate_result.
  destruct (seq_str s WIN) eqn:Hw.
  - apply String.eqb_eq in Hw. subst s. reflexivity.
  - destruct (seq_str s LOSS) eqn:Hl; [reflexivity | exact Hw].
Qed.



(** ** Subsets of a frame with one more record, and mirror records (C2) *)

Ltac one_filter :=
  unfold wins_when_focus_is_opponent_deck_df, wins_when_focus_is_my_deck_df,
    focus_first_opp, focus_second_opp, focus_first_my, focus_second_my,
    focus_as_opponent_deck_games, focus_as_my_deck_games,
    count_as_opponent_deck, count_as_my_deck,
    wins_as_opponent_deck, wins_as_my_deck,
    deck_a_first_as_opp, deck_a_second_as_opp,
    deck_a_first_as_my, deck_a_second_as_my,
    games_as_opponent_deck_df, games_as_my_deck_df, where_eq;
  rewrite ?filter_filter.

Lemma cond_opponent_deck_focus_true R deck ty :
  opponent_deck R = deck ->
  (type_filter ty = None \/ type_filter ty = Some (opponent_deck_type R)) ->
  cond_opponent_deck_focus deck ty R = true.
Proof.
  intros Hd Ht. unfold cond_opponent_deck_focus. subst deck.
  rewrite seq_str_refl.
  destruct Ht as [-> | ->]; [reflexivity|]. now rewrite seq_str_refl.
Qed.

Lemma cond_my_deck_focus_true R deck ty :
  my_deck R = deck ->
  (type_filter ty = None \/ type_filter ty = Some (my_deck_type R)) ->
  cond_my_deck_focus deck ty R = true.
Proof.
  intros Hd Ht. unfold cond_my_deck_focus. subst deck.
  rewrite seq_str_refl.
  destruct Ht as [-> | ->]; [reflexivity|]. now rewrite seq_str_refl.
Qed.

(** The claim of C2 fails on the code: for the key (Alpha, ALL) the single
    mirror record is counted in both subsets, so the appearance total of the
    one-record frame is 2 and not 1. *)
Lemma mirror_counted_twice :
  In mirror_record (focus_as_my_deck_games [mirror_record] "Alpha" None)
  /\ In mirror_record (focus_as_opponent_deck_games [mirror_record] "Alpha" None)
  /\ total_appearances [mirror_record] "Alpha" None <> 1
  /\ total_appearances [mirror_record] "Alpha" (Some "Red") <> 1.
Proof.
  repeat split; try (left; reflexivity); vm_compute; discriminate.
Qed.

(** C2, as the code has it. A record with the focus key on both sides (same
    archetype as [my_deck] and as [opponent_deck], types passing the key's
    type filter) lies in the my-deck subset and in the opponent subset, and
    adds two to the key's appearance total: one appearance on each side.
    Its result is read directly on the one side and negated on the other.
    The overview counts it the same way. *)
Theorem mirror_record_counted_on_both_sides :
  forall (R : MatchRecord) (deck : string) (ty : option string)
         (df1 df2 : DataFrame),
    my_deck R = deck -> opponent_deck R = deck ->
    (type_filter ty = None
     \/ (type_filter ty = Some (my_deck_type R)
         /\ type_filter ty = Some (opponent_deck_type R))) ->
    mirror_contribution R deck ty df1 df2.
Proof.
  intros R deck ty df1 df2 Hm Ho Ht.
  assert (Hcm : cond_my_deck_focus deck ty R = true).
  { apply cond_my_deck_focus_true; [assumption | tauto]. }
  assert (Hco : cond_opponent_deck_focus deck ty R = true).
  { apply cond_opponent_deck_focus_true; [assumption | tauto]. }
  assert (Hnm : seq_str (my_deck R) deck = true)
    by (rewrite Hm; apply seq_str_refl).
  assert (Hno : seq_str (opponent_deck R) deck = true)
    by (rewrite Ho; apply seq_str_refl).
  unfold mirror_contribution; cbv zeta. repeat split.
  - apply filter_In. split; [apply in_or_app; right; now left | exact Hcm].
  - apply filter_In. split; [apply in_or_app; right; now left | exact Hco].
  - unfold total_appearances. one_filter.
    rewrite !len_filter_insert, Hcm, Hco. simpl. lia.
  - unfold total_wins_for_focus_deck. one_filter.
    rewrite !len_filter_insert, Hcm, Hco. simpl. lia.
  - unfold total_appearances_deck_a. one_filter.
    rewrite !len_filter_insert, Hnm, Hno. simpl. lia.
Qed.

Lemma mirror_record_counted_on_both_sides_witness :
  my_deck mirror_record = "Alpha"
  /\ opponent_deck mirror_record = "Alpha"
  /\ (type_filter (Some "Red") = Some (my_deck_type mirror_record)
      /\ type_filter (Some "Red") = Some (opponent_deck_type mirror_record))
  /\ mirror_contribution mirror_record "Alpha" (Some "Red")
       [scenario_record_1] [scenario_record_2].
Proof.
  split; [reflexivity|]. split; [reflexivity|].
  split; [split; reflexivity|].
  apply (mirror_record_counted_on_both_sides mirror_record "Alpha" (Some "Red")
           [scenario_record_1] [scenario_record_2]).
  - reflexivity.
  - reflexivity.
  - right. split; reflexivity.
Defined.

(** ** The computations never divide by zero *)

Lemma percent_ok (w n : Z) : n <> 0 -> percent w n = Ok (pct w n).
Proof.
  intros Hn. unfold percent, truediv.
  destruct (n =? 0) eqn:E; [apply Z.eqb_eq in E; contradiction | reflexivity].
Qed.

Lemma rate_or_none_ok (w n : Z) : rate_or_none w n = Ok (rate_opt w n).
Proof.
  unfold rate_or_none, rate_opt.
  destruct (0 <? n) eqn:E; [|reflexivity].
  apply Z.ltb_lt in E. rewrite percent_ok by lia. reflexivity.
Qed.

Lemma rate_or_zero_ok (w n : Z) :
  rate_or_zero w n = Ok (if 0 <? n then pct w n else 0%Q).
Proof.
  unfold rate_or_zero.
  destruct (0 <? n) eqn:E; [|reflexivity].
  apply Z.ltb_lt in E. now rewrite percent_ok by lia.
Qed.

Lemma mapM_ok {A B} (f : A -> exc B) (g : A -> B) (l : list A) :
  (forall x, In x l -> f x = Ok (g x)) -> mapM f l = Ok (map g l).
Proof.
  induction l as [|x l IH]; intros H; simpl; [reflexivity|].
  rewrite (H x) by now left. simpl.
  rewrite IH by (intros y Hy; apply H; now right). reflexivity.
Qed.

Lemma matchup_win_rates_over_ok (df : DataFrame) (a : string) (opps : list string) :
  matchup_win_rates_over df a opps
  = Ok (map (fun opp => pct (total_wins_for_a_vs_specific_opponent df a opp)
                            (total_games_vs_specific_opponent df a opp))
            (filter (fun opp => 0 <? total_games_vs_specific_opponent df a opp)
                    opps)).
Proof.
  induction opps as [|opp rest IH]; simpl; [reflexivity|].
  destruct (0 <? total_games_vs_specific_opponent df a opp) eqn:E.
  - apply Z.ltb_lt in E. rewrite percent_ok by lia. simpl.
    rewrite IH. reflexivity.
  - exact IH.
Qed.

Lemma avg_matchup_wr_deck_a_ok (df : DataFrame) (a : string) :
  avg_matchup_wr_deck_a df a = Ok (mean_or_none (matchup_win_rates_value df a)).
Proof.
  unfold avg_matchup_wr_deck_a, matchup_win_rates_for_deck_a.
  rewrite matchup_win_rates_over_ok. reflexivity.
Qed.

Lemma deck_a_row_ok (df : DataFrame) (a : string) :
  deck_a_row df a
  = Ok (if PyStr.truthy a && (0 <? total_appearances_deck_a df a)
        then Some (deck_a_row_value df a) else None).
Proof.
  unfold deck_a_row.
  destruct (PyStr.truthy a); simpl; [|reflexivity].
  rewrite rate_or_zero_ok, !rate_or_none_ok, avg_matchup_wr_deck_a_ok. simpl.
  destruct (0 <? total_appearances_deck_a df a); reflexivity.
Qed.

Lemma general_performance_data_ok (df : DataFrame) :
  general_performance_data df
  = Ok (somes (map (fun a => if PyStr.truthy a
                                && (0 <? total_appearances_deck_a df a)
                             then Some (deck_a_row_value df a) else None)
                   (get_all_analyzable_deck_names df))).
Proof.
  unfold general_performance_data.
  destruct (get_all_analyzable_deck_names df) as [|a l] eqn:E; [reflexivity|].
  cbn [is_empty].
  rewrite (mapM_ok _ _ _ (fun x _ => deck_a_row_ok df x)). reflexivity.
Qed.

Lemma matchup_row_ok df deck ty (opp : string * string) :
  matchup_row df deck ty opp = Ok (specific_row_opt df deck ty opp).
Proof.
  destruct opp as [n t]. unfold matchup_row, specific_row_opt, matchup_row_opt.
  cbn [fst snd].
  destruct (0 <? games_played_count _ _) eqn:E; [|reflexivity].
  apply Z.ltb_lt in E. rewrite percent_ok by lia. simpl.
  rewrite !rate_or_none_ok. reflexivity.
Qed.

Lemma matchup_data_ok df deck ty :
  matchup_data df deck ty = Ok (matchup_data_value df deck ty).
Proof.
  unfold matchup_data.
  rewrite (mapM_ok _ _ _ (fun x _ => matchup_row_ok df deck ty x)). reflexivity.
Qed.

Lemma agg_matchup_row_ok df deck ty (name : string) :
  agg_matchup_row df deck ty name = Ok (pooled_row_opt df deck ty name).
Proof.
  unfold agg_matchup_row, pooled_row_opt, matchup_row_opt.
  rewrite rate_or_zero_ok, !rate_or_none_ok. simpl.
  destruct (0 <? games_played_count _ _); reflexivity.
Qed.

Lemma agg_matchup_data_ok df deck ty :
  agg_matchup_data df deck ty (matchup_data_value df deck ty)
  = Ok (agg_matchup_data_value df deck ty).
Proof.
  unfold agg_matchup_data, agg_matchup_data_value.
  destruct (matchup_data_value df deck ty) as [|m l]; [reflexivity|].
  cbn [is_empty].
  rewrite (mapM_ok _ _ _ (fun x _ => agg_matchup_row_ok df deck ty x)).
  reflexivity.
Qed.

Lemma focus_report_ok df deck ty :
  focus_report df deck ty
  = Ok (if total_appearances df deck ty =? 0 then None
        else Some (focus_report_value df deck ty)).
Proof.
  unfold focus_report.
  destruct (total_appearances df deck ty =? 0) eqn:E; [reflexivity|].
  apply Z.eqb_neq in E.
  assert (Hpos : 0 < total_appearances df deck ty).
  { unfold total_appearances in *.
    pose proof (len_nonneg (focus_as_my_deck_games df deck ty)).
    pose proof (len_nonneg (focus_as_opponent_deck_games df deck ty)). lia. }
  rewrite rate_or_zero_ok, !rate_or_none_ok. simpl.
  rewrite matchup_data_ok. simpl. rewrite agg_matchup_data_ok. simpl.
  apply Z.ltb_lt in Hpos. rewrite Hpos. reflexivity.
Qed.

(** ** Role flip (C1) *)





Lemma in_somes {A} (x : A) (l : list (option A)) :
  In x (somes l) <-> In (Some x) l.
Proof.
  induction l as [|[y|] l IH]; simpl.
  - tauto.
  - rewrite IH. split; intros [H|H]; auto; left; congruence.
  - rewrite IH. split; [auto | intros [H|H]; [discriminate | assumption]].
Qed.

Lemma in_somes_map {A B} (f : A -> option B) (y : B) (l : list A) :
  In y (somes (map f l)) <-> exists x, In x l /\ f x = Some y.
Proof.
  rewrite in_somes, in_map_iff. split; intros [x [H1 H2]]; exists x; tauto.
Qed.

Lemma rate_opt_none (w n : Z) : rate_opt w n = None <-> n <= 0.
Proof.
  unfold rate_opt. destruct (0 <? n) eqn:E.
  - apply Z.ltb_lt in E. split; [discriminate | lia].
  - apply Z.ltb_ge in E. tauto.
Qed.

Lemma rate_opt_some (w n : Z) (q : Q) :
  rate_opt w n = Some q -> 0 < n /\ q = pct w n.
Proof.
  unfold rate_opt. destruct (0 <? n) eqn:E; [|discriminate].
  apply Z.ltb_lt in E. intros H. injection H as <-. tauto.
Qed.

Lemma matchup_row_opt_rates name type c1 c2 m :
  matchup_row_opt name type c1 c2 = Some m -> matchup_row_rates m.
Proof.
  unfold matchup_row_opt. destruct (0 <? games_played_count c1 c2) eqn:E;
    [|discriminate].
  apply Z.ltb_lt in E. intros H. injection H as <-.
  exists c1, c2. repeat split; assumption.
Qed.

Lemma total_appearances_nonneg df deck ty : 0 <= total_appearances df deck ty.
Proof.
  unfold total_appearances.
  pose proof (len_nonneg (focus_as_my_deck_games df deck ty)).
  pose proof (len_nonneg (focus_as_opponent_deck_games df deck ty)). lia.
Qed.

(** C3. No computation of the engine raises a division error, whatever the
    frame and the focus key, and every rate it reports is either a
    percentage over a positive number of games or the missing value:
    - an overview row exists only for an archetype with appearances > 0, its
      overall rate is the percentage over these appearances, and its seat
      rates and its average matchup rate are missing exactly when their
      denominators are zero;
    - the focus analysis reports nothing at all (the no-record notice) when
      the key has no appearance, and otherwise an overall rate over
      appearances > 0 and seat rates as above;
    - every row of both matchup tables has games > 0, and its seat rates are
      missing exactly when the seat had no game.
    The analysis section as a whole returns for every frame, filter and
    selection.  The missing value is not the rate 0%. *)
Theorem no_data_on_empty_denominator :
  (forall df, exists rows,
      general_performance_data df = Ok rows
      /\ forall row, In row rows -> overview_row_rates df row)
  /\ (forall df deck ty, exists r,
         focus_report df deck ty = Ok r
         /\ (r = None <-> total_appearances df deck ty = 0)
         /\ forall fr, r = Some fr -> focus_report_rates df deck ty fr)
  /\ (forall original_df season environments deck ty, exists out,
         show_analysis_section original_df season environments deck ty = Ok out)
  /\ (forall w n, 0 <= n -> (rate_opt w n = None <-> n = 0))
  /\ (forall w n q, rate_opt w n = Some q -> 0 < n /\ q = pct w n)
  /\ (forall l, mean_or_none l = None <-> l = [])
  /\ (forall q : Q, @None Q <> Some q).
Proof.
  split; [|split; [|split; [|split; [|split; [|split]]]]].
  - intros df. eexists. split; [apply general_performance_data_ok|].
    intros row Hin. apply in_somes_map in Hin. destruct Hin as [a [_ Ha]].
    destruct (PyStr.truthy a && (0 <? total_appearances_deck_a df a)) eqn:E;
      [|discriminate].
    injection Ha as <-. apply andb_true_iff in E. destruct E as [_ E].
    apply Z.ltb_lt in E. unfold overview_row_rates. cbn.
    repeat split; try reflexivity; exact E.
  - intros df deck ty. eexists. split; [apply focus_report_ok|].
    pose proof (total_appearances_nonneg df deck ty) as Hnn.
    destruct (total_appearances df deck ty =? 0) eqn:E.
    + apply Z.eqb_eq in E. split; [tauto | discriminate].
    + apply Z.eqb_neq in E. split; [split; [discriminate | contradiction]|].
      intros fr Hfr. injection Hfr as <-.
      unfold focus_report_rates. cbn.
      repeat split; try reflexivity; try lia.
      * intros m Hm. apply in_somes_map in Hm. destruct Hm as [opp [_ Hm]].
        eapply matchup_row_opt_rates; exact Hm.
      * intros m Hm. apply in_somes_map in Hm. destruct Hm as [opp [_ Hm]].
        eapply matchup_row_opt_rates; exact Hm.
  - intros original_df season environments deck ty.
    unfold show_analysis_section.
    destruct (is_empty original_df); [eexists; reflexivity|].
    destruct (is_empty _); [eexists; reflexivity|].
    destruct (PyStr.truthy deck && negb (seq_str deck SELECT_PLACEHOLDER)).
    + rewrite focus_report_ok. eexists; reflexivity.
    + rewrite general_performance_data_ok. eexists; reflexivity.
  - intros w n Hn. rewrite rate_opt_none. lia.
  - apply rate_opt_some.
  - intros l. unfold mean_or_none, series_mean.
    destruct l; simpl; split; congruence.
  - discriminate.
Qed.

(** ** Sets as duplicate-free lists, and [sorted] *)

Section UniqueFacts.
Context {A : Type} (eq_dec : forall x y : A, {x = y} + {x <> y}).

Lemma mem_true_iff (x : A) (l : list A) : mem eq_dec x l = true <-> In x l.
Proof. unfold mem. destruct (in_dec eq_dec x l); split; auto; discriminate. Qed.

Lemma in_unique_from (x : A) (l seen : list A) :
  In x (unique_from eq_dec seen l) <-> In x l /\ ~ In x seen.
Proof.
  revert seen. induction l as [|y l IH]; intros seen; simpl; [tauto|].
  destruct (mem eq_dec y seen) eqn:E.
  - apply mem_true_iff in E. rewrite IH. split.
    + tauto.
    + intros [[->|H] Hn]; [contradiction | tauto].
  - assert (Hy : ~ In y seen) by (rewrite <- mem_true_iff, E; discriminate).
    simpl. rewrite IH. simpl. split.
    + intros [->|[H Hn]]; [tauto|]. split; [tauto|]. intros Hs. apply Hn. tauto.
    + intros [[->|H] Hn]; [tauto|].
      destruct (eq_dec y x) as [->|Hne]; [tauto|]. right. split; [assumption|].
      intros [H'|H']; [contradiction | contradiction].
Qed.

Lemma NoDup_unique_from (l seen : list A) : NoDup (unique_from eq_dec seen l).
Proof.
  revert seen. induction l as [|y l IH]; intros seen; simpl; [constructor|].
  destruct (mem eq_dec y seen); [apply IH|].
  constructor; [|apply IH]. rewrite in_unique_from. simpl. tauto.
Qed.

Lemma in_unique (x : A) (l : list A) : In x (unique eq_dec l) <-> In x l.
Proof. unfold unique. rewrite in_unique_from. simpl. tauto. Qed.

Lemma NoDup_unique (l : list A) : NoDup (unique eq_dec l).
Proof. apply NoDup_unique_from. Qed.

Lemma unique_from_NoDup_id (l seen : list A) :
  NoDup l -> (forall x, In x l -> ~ In x seen) -> unique_from eq_dec seen l = l.
Proof.
  revert seen. induction l as [|y l IH]; intros seen Hnd Hs; simpl; [reflexivity|].
  inversion Hnd as [|? ? Hy Hl]; subst.
  destruct (mem eq_dec y seen) eqn:E.
  - apply mem_true_iff in E. exfalso. apply (Hs y); [now left | exact E].
  - f_equal. apply IH; [assumption|].
    intros x Hx [->|Hin]; [contradiction|]. apply (Hs x); [now right | exact Hin].
Qed.

Lemma unique_NoDup_id (l : list A) : NoDup l -> unique eq_dec l = l.
Proof. intros H. apply unique_from_NoDup_id; [assumption | auto]. Qed.

End UniqueFacts.

Section SortedFacts.
Context {A : Type} (leb : A -> A -> bool).

Lemma insert_sorted_perm (x : A) (l : list A) :
  Permutation (insert_sorted leb x l) (x :: l).
Proof.
  induction l as [|y l IH]; simpl; [reflexivity|].
  destruct (leb x y); [reflexivity|].
  rewrite IH. apply perm_swap.
Qed.

Lemma sorted_perm (l : list A) : Permutation (sorted leb l) l.
Proof.
  induction l as [|x l IH]; simpl; [reflexivity|].
  rewrite insert_sorted_perm. now constructor.
Qed.

Lemma in_sorted (x : A) (l : list A) : In x (sorted leb l) <-> In x l.
Proof.
  split; apply Permutation_in; [apply sorted_perm|].
  apply Permutation_sym, sorted_perm.
Qed.

Lemma NoDup_sorted (l : list A) : NoDup l -> NoDup (sorted leb l).
Proof.
  apply Permutation_NoDup, Permutation_sym, sorted_perm.
Qed.

End SortedFacts.

(** ** Names that are empty or spell ['nan'] *)

Lemma truthy_iff (s : string) : PyStr.truthy s = true <-> s <> "".
Proof. destruct s; simpl; split; congruence. Qed.

Lemma analyzable_iff (s : string) : analyzable s = true <-> valid_name s.
Proof.
  unfold analyzable, valid_name.
  rewrite andb_true_iff, negb_true_iff, truthy_iff. apply and_iff_compat_l.
  apply String.eqb_neq.
Qed.

Lemma lower_ascii_n (c : ascii) :
  PyStr.lower_ascii c = "n"%char -> c = "n"%char \/ c = "N"%char.
Proof.
  destruct c as [[] [] [] [] [] [] [] []]; vm_compute; intros H;
    first [discriminate H | now left | now right].
Qed.

Lemma lower_ascii_a (c : ascii) :
  PyStr.lower_ascii c = "a"%char -> c = "a"%char \/ c = "A"%char.
Proof.
  destruct c as [[] [] [] [] [] [] [] []]; vm_compute; intros H;
    first [discriminate H | now left | now right].
Qed.

(** [s.lower() == 'nan'] holds for the eight spellings of nan and for no
    other string. *)
Lemma lower_nan_iff (s : string) :
  PyStr.lower s = "nan" <-> In s nan_spellings.
Proof.
  split.
  - destruct s as [|c1 [|c2 [|c3 [|c4 s]]]]; simpl; try discriminate.
    intros H. injection H as H1 H2 H3.
    apply lower_ascii_n in H1, H3. apply lower_ascii_a in H2.
    destruct H1 as [-> | ->], H2 as [-> | ->], H3 as [-> | ->]; simpl; tauto.
  - unfold nan_spellings. simpl.
    intros H. repeat (destruct H as [<- | H]; [reflexivity|]). contradiction.
Qed.

Lemma strip_nan_spelling (s : string) :
  PyStr.lower s = "nan" -> PyStr.strip s = s.
Proof.
  rewrite lower_nan_iff. unfold nan_spellings. simpl.
  intros H. repeat (destruct H as [<- | H]; [reflexivity|]). contradiction.
Qed.

Lemma counted_opponent_valid (a o : string) :
  counted_opponent a o = true -> valid_name o /\ o <> a.
Proof.
  unfold counted_opponent. rewrite !andb_true_iff, !negb_true_iff.
  intros [[[Ht Hne] _] Hnan]. apply truthy_iff in Ht.
  apply String.eqb_neq in Hne, Hnan.
  split; [split; [assumption|] | assumption].
  intros Hl. apply Hnan. now rewrite (strip_nan_spelling o Hl).
Qed.

(** ** Discovery and opponent enumeration (C10) *)

Lemma in_dropna_empty (s : string) (l : list string) :
  In s (dropna_empty l) <-> In s l /\ s <> "".
Proof. unfold dropna_empty. rewrite filter_In, truthy_iff. tauto. Qed.

Lemma in_deck_names (df : DataFrame) (n : string) :
  In n (get_all_analyzable_deck_names df)
  <-> valid_name n /\ exists r, In r df /\ names_deck r n.
Proof.
  unfold get_all_analyzable_deck_names.
  rewrite in_sorted, filter_In, in_unique, in_app_iff, !in_unique,
    !in_dropna_empty, !in_map_iff, analyzable_iff.
  unfold names_deck. split.
  - intros [[[[r [E Hr]] _] | [[r [E Hr]] _]] Hv]; (split; [exact Hv|]);
      exists r; tauto.
  - intros [Hv [r [Hr [E|E]]]]; (split; [|exact Hv]); [left | right];
      (split; [exists r; tauto | apply Hv]).
Qed.

Lemma all_types_placeholder_valid : valid_name ALL_TYPES_PLACEHOLDER.
Proof. split; vm_compute; discriminate. Qed.

Lemma in_types_valid (df : DataFrame) (d t : string) :
  In t (get_all_types_for_archetype df d) -> valid_name t.
Proof.
  unfold get_all_types_for_archetype.
  destruct (negb (PyStr.truthy d) || (d =? SELECT_PLACEHOLDER)%string).
  - intros [<-|[]]. apply all_types_placeholder_valid.
  - intros [<-|H]; [apply all_types_placeholder_valid|].
    apply in_sorted, filter_In in H. now apply analyzable_iff.
Qed.

Lemma opponent_for_this_game_some (a o : string) (r : MatchRecord) :
  o <> a -> (opponent_for_this_game a r = Some o <-> pairs r a o).
Proof.
  intros Hne. unfold opponent_for_this_game, pairs.
  destruct (seq_str (my_deck r) a) eqn:E1.
  - apply String.eqb_eq in E1. split.
    + intros H. injection H as H. tauto.
    + intros [[_ ->] | [_ H]]; [reflexivity | congruence].
  - apply String.eqb_neq in E1.
    destruct (seq_str (opponent_deck r) a) eqn:E2.
    + apply String.eqb_eq in E2. split.
      * intros H. injection H as H. tauto.
      * intros [[H _] | [_ ->]]; [contradiction | reflexivity].
    + apply String.eqb_neq in E2. split; [discriminate | tauto].
Qed.

Lemma in_games_involving (df : DataFrame) (a : string) (r : MatchRecord) :
  In r (games_involving_deck_a df a) <-> In r df /\ names_deck r a.
Proof.
  unfold games_involving_deck_a, names_deck.
  rewrite filter_In, orb_true_iff, !seq_str_true. tauto.
Qed.

(** The set of opponents of the overview: the decks other than [a] that
    pass the guard of the loop and sit opposite [a] in some record. *)
Lemma in_unique_opponents (df : DataFrame) (a o : string) :
  In o (unique_opponents_faced_by_deck_a df a)
  <-> counted_opponent a o = true /\ exists r, In r df /\ pairs r a o.
Proof.
  unfold unique_opponents_faced_by_deck_a, opponents_added.
  rewrite in_unique, in_flat_map. split.
  - intros [r [Hr Ho]]. apply in_games_involving in Hr.
    destruct (opponent_for_this_game a r) as [o'|] eqn:E; [|contradiction].
    destruct (counted_opponent a o') eqn:Ec; [|contradiction].
    destruct Ho as [<-|[]]. split; [exact Ec|].
    exists r. split; [tauto|].
    apply opponent_for_this_game_some; [|exact E].
    now apply counted_opponent_valid in Ec.
  - intros [Hc [r [Hr Hp]]].
    pose proof (counted_opponent_valid a o Hc) as [_ Hne].
    exists r. split.
    + apply in_games_involving. split; [exact Hr|].
      unfold names_deck. destruct Hp as [[H _]|[H _]]; tauto.
    + apply (opponent_for_this_game_some a o r Hne) in Hp.
      rewrite Hp, Hc. now left.
Qed.

Lemma in_faced_tuples_valid df deck ty (opp : string * string) :
  In opp (all_faced_opponents_tuples df deck ty) -> valid_name (fst opp).
Proof.
  unfold all_faced_opponents_tuples. rewrite in_sorted, filter_In.
  intros [_ H]. now apply analyzable_iff.
Qed.

Lemma matchup_row_opt_name name type c1 c2 m :
  matchup_row_opt name type c1 c2 = Some m ->
  m_opp_deck m = name /\ m_opp_type m = type.
Proof.
  unfold matchup_row_opt. destruct (0 <? games_played_count c1 c2); [|discriminate].
  intros H. injection H as <-. split; reflexivity.
Qed.

Lemma in_matchup_data_value df deck ty m :
  In m (matchup_data_value df deck ty)
  <-> exists opp, In opp (all_faced_opponents_tuples df deck ty)
                  /\ specific_row_opt df deck ty opp = Some m.
Proof. apply in_somes_map. Qed.

Lemma matchup_data_value_valid df deck ty m :
  In m (matchup_data_value df deck ty) -> valid_name (m_opp_deck m).
Proof.
  rewrite in_matchup_data_value. intros [opp [Hin Hm]].
  apply matchup_row_opt_name in Hm. destruct Hm as [-> _].
  eapply in_faced_tuples_valid; exact Hin.
Qed.

Lemma agg_matchup_data_value_valid df deck ty m :
  In m (agg_matchup_data_value df deck ty) -> valid_name (m_opp_deck m).
Proof.
  unfold agg_matchup_data_value. rewrite in_somes_map.
  intros [name [Hin Hm]]. apply matchup_row_opt_name in Hm. destruct Hm as [-> _].
  apply in_unique, in_map_iff in Hin. destruct Hin as [m' [<- Hm']].
  eapply matchup_data_value_valid; exact Hm'.
Qed.

(** C10. Names that are empty or spell nan in any letter case never come
    out of the enumerations: archetype discovery returns exactly the usable
    names that some record carries on one of its sides; every type returned
    by type discovery, the archetype of every overview row, every opponent
    of the overview's opponent sets and every opponent of the focus matchup
    tables is usable.  Such names are only left out: the overview is
    computed, without an error, for every frame, and a record whose opponent
    deck reads nan still counts for the deck on its other side. *)
Theorem blank_and_nan_names_excluded :
  (forall s, valid_name s <-> s <> "" /\ ~ In s nan_spellings)
  /\ (forall df n,
         In n (get_all_analyzable_deck_names df)
         <-> valid_name n /\ exists r, In r df /\ names_deck r n)
  /\ (forall df d t, In t (get_all_types_for_archetype df d) -> valid_name t)
  /\ (forall df, exists rows,
         general_performance_data df = Ok rows
         /\ forall row, In row rows ->
              valid_name (g_deck row)
              /\ In (g_deck row) (get_all_analyzable_deck_names df))
  /\ (forall df a o,
         In o (unique_opponents_faced_by_deck_a df a) -> valid_name o)
  /\ (forall df deck ty opp,
         In opp (all_faced_opponents_tuples df deck ty) -> valid_name (fst opp))
  /\ (forall df deck ty, exists r,
         focus_report df deck ty = Ok r
         /\ forall fr m, r = Some fr ->
              In m (f_matchup_specific_types fr ++ f_matchup_all_types fr) ->
              valid_name (m_opp_deck m))
  /\ (get_all_analyzable_deck_names nan_opponent_df = ["Alpha"]
      /\ unique_opponents_faced_by_deck_a nan_opponent_df "Alpha" = []
      /\ exists row,
           general_performance_data nan_opponent_df = Ok [row]
           /\ g_deck row = "Alpha"
           /\ g_total_appearances row = 1
           /\ g_total_wins row = 1).
Proof.
  split; [|split; [|split; [|split; [|split; [|split; [|split]]]]]].
  - intros s. unfold valid_name. rewrite lower_nan_iff. tauto.
  - apply in_deck_names.
  - apply in_types_valid.
  - intros df. eexists. split; [apply general_performance_data_ok|].
    intros row Hin. apply in_somes_map in Hin. destruct Hin as [a [Ha Hr]].
    destruct (PyStr.truthy a && (0 <? total_appearances_deck_a df a));
      [|discriminate].
    injection Hr as <-. cbn. split; [|exact Ha].
    apply in_deck_names in Ha. apply Ha.
  - intros df a o H. apply in_unique_opponents in H. destruct H as [H _].
    now apply counted_opponent_valid in H.
  - intros df deck ty opp. apply in_faced_tuples_valid.
  - intros df deck ty. eexists. split; [apply focus_report_ok|].
    intros fr m Hfr Hm.
    destruct (total_appearances df deck ty =? 0); [discriminate|].
    injection Hfr as <-. cbn in Hm. apply in_app_iff in Hm.
    destruct Hm as [Hm|Hm];
      [eapply matchup_data_value_valid | eapply agg_matchup_data_value_valid];
      exact Hm.
  - split; [reflexivity|]. split; [reflexivity|].
    eexists. split; [vm_compute; reflexivity|]. repeat split.
Qed.

(** ** Average matchup win rate (C4) *)

Lemma filter_all {A} (p : A -> bool) (l : list A) :
  (forall x, In x l -> p x = true) -> filter p l = l.
Proof.
  induction l as [|x l IH]; intros H; simpl; [reflexivity|].
  rewrite (H x) by now left. f_equal. apply IH. intros y Hy. apply H. now right.
Qed.

Lemma len_filter_disjoint {A} (p q : A -> bool) (l : list A) :
  (forall x, In x l -> p x && q x = false) ->
  len (filter (fun x => p x || q x) l) = len (filter p l) + len (filter q l).
Proof.
  induction l as [|x l IH]; intros H; [reflexivity|].
  assert (Hx := H x (or_introl eq_refl)).
  assert (IH' := IH (fun y Hy => H y (or_intror Hy))).
  cbn [filter].
  destruct (p x), (q x); cbn [orb andb] in *; try discriminate;
    rewrite ?len_cons; lia.
Qed.

Lemma len_filter_pos {A} (p : A -> bool) (l : list A) (x : A) :
  In x l -> p x = true -> 0 < len (filter p l).
Proof.
  intros Hin Hp. apply len_pos_iff. intros E.
  assert (H : In x (filter p l)) by (apply filter_In; tauto).
  rewrite E in H. exact H.
Qed.

Lemma pairs_b_iff (a b : string) (r : MatchRecord) :
  pairs_b a b r = true <-> pairs r a b.
Proof.
  unfold pairs_b, pairs. rewrite orb_true_iff, !andb_true_iff, !seq_str_true.
  tauto.
Qed.

Lemma a_vs_opp_my_games_eq df a b :
  a_vs_opp_my_games df a b
  = filter (fun r => seq_str (my_deck r) a && seq_str (opponent_deck r) b) df.
Proof.
  unfold a_vs_opp_my_games, games_involving_deck_a. rewrite filter_filter.
  apply filter_ext. intros r.
  destruct (seq_str (my_deck r) a), (seq_str (opponent_deck r) a),
    (seq_str (opponent_deck r) b); reflexivity.
Qed.

Lemma a_vs_opp_opponent_games_eq df a b :
  a_vs_opp_opponent_games df a b
  = filter (fun r => seq_str (opponent_deck r) a && seq_str (my_deck r) b) df.
Proof.
  unfold a_vs_opp_opponent_games, games_involving_deck_a. rewrite filter_filter.
  apply filter_ext. intros r.
  destruct (seq_str (my_deck r) a), (seq_str (opponent_deck r) a),
    (seq_str (my_deck r) b); reflexivity.
Qed.

Lemma sides_disjoint (a b : string) (r : MatchRecord) :
  a <> b ->
  (seq_str (my_deck r) a && seq_str (opponent_deck r) b)
  && (seq_str (opponent_deck r) a && seq_str (my_deck r) b) = false.
Proof.
  intros Hne.
  destruct (seq_str (my_deck r) a) eqn:E1; [|reflexivity].
  destruct (seq_str (my_deck r) b) eqn:E2; [|now rewrite !andb_false_r].
  apply String.eqb_eq in E1, E2. congruence.
Qed.

Lemma total_games_vs_specific_opponent_eq df a b :
  a <> b -> total_games_vs_specific_opponent df a b = pairing_games df a b.
Proof.
  intros Hne. unfold total_games_vs_specific_opponent, pairing_games, pairs_b.
  rewrite a_vs_opp_my_games_eq, a_vs_opp_opponent_games_eq.
  symmetry. apply len_filter_disjoint. intros r _. now apply sides_disjoint.
Qed.

Lemma total_wins_for_a_vs_specific_opponent_eq df a b :
  a <> b -> total_wins_for_a_vs_specific_opponent df a b = pairing_wins df a b.
Proof.
  intros Hne. unfold total_wins_for_a_vs_specific_opponent, pairing_wins.
  rewrite a_vs_opp_my_games_eq, a_vs_opp_opponent_games_eq.
  unfold where_eq. rewrite !filter_filter.
  rewrite <- len_filter_disjoint.
  - f_equal. apply filter_ext. intros r. unfold pairs_b, wins_for.
    rewrite negate_result_win.
    destruct (seq_str (my_deck r) a) eqn:E1, (seq_str (my_deck r) b) eqn:E3;
      [apply String.eqb_eq in E1, E3; congruence | | |];
      destruct (seq_str (opponent_deck r) a), (seq_str (opponent_deck r) b),
        (seq_str (result r) WIN), (seq_str (result r) LOSS); reflexivity.
  - intros r _.
    pose proof (sides_disjoint a b r Hne) as H.
    destruct (seq_str (my_deck r) a && seq_str (opponent_deck r) b);
      [|reflexivity].
    simpl in H. rewrite H. simpl. now rewrite andb_false_r.
Qed.

Lemma strip_empty_truthy (b : string) : PyStr.strip b <> "" -> b <> "".
Proof. intros H E. subst b. now apply H. Qed.

Lemma counted_opponent_iff (a b : string) :
  counted_opponent a b = true <-> b <> a /\ counted_name b.
Proof.
  unfold counted_opponent, counted_name.
  rewrite !andb_true_iff, !negb_true_iff, !truthy_iff.
  split.
  - intros [[[_ H1] H2] H3]. apply String.eqb_neq in H1, H3. tauto.
  - intros [H1 [H2 H3]]. apply String.eqb_neq in H1, H3.
    pose proof (strip_empty_truthy b H2). tauto.
Qed.

Lemma unique_opponents_faced df a b :
  In b (unique_opponents_faced_by_deck_a df a) ->
  b <> a /\ 0 < pairing_games df a b.
Proof.
  intros H. apply in_unique_opponents in H. destruct H as [Hc [r [Hr Hp]]].
  apply counted_opponent_iff in Hc. split; [tauto|].
  unfold pairing_games. apply (len_filter_pos _ _ r Hr). now apply pairs_b_iff.
Qed.

Lemma matchup_win_rates_value_eq df a :
  matchup_win_rates_value df a
  = map (pairing_wr df a) (unique_opponents_faced_by_deck_a df a).
Proof.
  unfold matchup_win_rates_value. rewrite filter_all.
  - apply map_ext_in. intros b Hb. apply unique_opponents_faced in Hb.
    destruct Hb as [Hne _]. unfold pairing_wr.
    rewrite total_wins_for_a_vs_specific_opponent_eq,
      total_games_vs_specific_opponent_eq by congruence. reflexivity.
  - intros b Hb. apply unique_opponents_faced in Hb. destruct Hb as [Hne Hpos].
    rewrite total_games_vs_specific_opponent_eq by congruence.
    now apply Z.ltb_lt.
Qed.

Lemma Qsum_perm (l l' : list Q) : Permutation l l' -> (Qsum l == Qsum l')%Q.
Proof.
  induction 1; simpl.
  - reflexivity.
  - now rewrite IHPermutation.
  - ring.
  - now rewrite IHPermutation1.
Qed.

Lemma mean_or_none_map (f : string -> Q) (l : list string) :
  mean_or_none (map f l) = unweighted_mean f l.
Proof.
  destruct l as [|x l]; [reflexivity|].
  unfold mean_or_none, series_mean, unweighted_mean, len. cbn [map is_empty].
  rewrite <- (length_map f (x :: l)). reflexivity.
Qed.

Lemma in_other_sides df a b :
  In b (other_sides df a) <-> exists r, In r df /\ pairs r a b.
Proof.
  unfold other_sides, pairs. rewrite in_flat_map.
  split; intros [r [Hr H]]; exists r; (split; [exact Hr|]).
  - apply in_app_iff in H.
    destruct (seq_str (my_deck r) a) eqn:E1,
      (seq_str (opponent_deck r) a) eqn:E2;
      try apply String.eqb_eq in E1; try apply String.eqb_eq in E2;
      simpl in H; intuition.
  - apply in_app_iff.
    destruct H as [[H1 H2]|[H1 H2]]; rewrite <- H1, seq_str_refl;
      [left | right]; left; assumption.
Qed.

Lemma in_spec_distinct_opponents df a b :
  In b (spec_distinct_opponents df a)
  <-> b <> a /\ exists r, In r df /\ pairs r a b.
Proof.
  unfold spec_distinct_opponents.
  rewrite in_unique, filter_In, in_other_sides, negb_true_iff.
  split; intros [H1 H2]; [apply String.eqb_neq in H2 | apply String.eqb_neq in H1];
    tauto.
Qed.

(** A name that is one white-space code point strips to the empty string,
    so the opponent loop counts it for no deck. *)
Lemma strip_wide_space (s : string) :
  In s PyStr.wide_spaces -> PyStr.strip s = "".
Proof.
  unfold PyStr.wide_spaces. simpl.
  intros H. repeat (destruct H as [<- | H]; [reflexivity|]). contradiction.
Qed.

Lemma wide_space_names_not_counted (a s : string) :
  In s PyStr.wide_spaces -> counted_opponent a s = false.
Proof.
  intros H. unfold counted_opponent. rewrite (strip_wide_space s H).
  cbn [PyStr.truthy]. now rewrite andb_false_r.
Qed.

Lemma average_matchup_skips_wide_space_opponent :
  unique_opponents_faced_by_deck_a wide_blank_opponent_df "Alpha" = []
  /\ avg_matchup_wr_deck_a wide_blank_opponent_df "Alpha" = Ok None.
Proof. split; reflexivity. Qed.

(** The claim of C4 fails on the code for an opponent whose name is blank:
    the deck named by a single space is a discovered archetype with its own
    overview row, Alpha faced it and won, so the mean over Alpha's distinct
    opponents is 100%; the code leaves that opponent out and reports no
    average for Alpha. *)
Lemma average_matchup_skips_blank_named_opponent :
  In " " (get_all_analyzable_deck_names blank_opponent_df)
  /\ spec_distinct_opponents blank_opponent_df "Alpha" = [" "]
  /\ spec_avg_matchup_wr blank_opponent_df "Alpha" = Some 100%Q
  /\ avg_matchup_wr_deck_a blank_opponent_df "Alpha" = Ok None
  /\ (exists r1 r2,
         general_performance_data blank_opponent_df = Ok [r1; r2]
         /\ g_deck r1 = " " /\ g_deck r2 = "Alpha"
         /\ g_avg_matchup_wr r2 = None).
Proof.
  split; [left; reflexivity|].
  split; [reflexivity|].
  split; [reflexivity|].
  split; [reflexivity|].
  eexists. eexists. split; [vm_compute; reflexivity|].
  repeat split.
Qed.

(** C4, as the code has it. The average matchup win rate of an archetype A is
    the unweighted arithmetic mean, over the distinct opposing archetypes
    B <> A that A has faced at least once and whose name, stripped of
    surrounding white space, is neither empty nor nan in any letter case, of
    A's win rate in the games of the A-B pairing; it is the missing value
    when there is no such opponent.  Each pairing has at least one game, the
    order in which the opponents are visited does not change the mean, and
    the value is the one of A's overview row. *)
Theorem average_matchup_win_rate :
  forall (df : DataFrame) (a : string),
    let opps := unique_opponents_faced_by_deck_a df a in
    NoDup opps
    /\ (forall b, In b opps
                  <-> In b (spec_distinct_opponents df a) /\ counted_name b)
    /\ (forall b, In b (spec_distinct_opponents df a)
                  <-> b <> a /\ exists r, In r df /\ pairs r a b)
    /\ (forall b, In b opps -> 0 < pairing_games df a b)
    /\ avg_matchup_wr_deck_a df a = Ok (unweighted_mean (pairing_wr df a) opps)
    /\ (forall opps', Permutation opps opps' ->
          len opps' = len opps
          /\ (Qsum (map (pairing_wr df a) opps')
              == Qsum (map (pairing_wr df a) opps))%Q)
    /\ (exists rows,
           general_performance_data df = Ok rows
           /\ forall row, In row rows ->
                g_avg_matchup_wr row
                = unweighted_mean (pairing_wr df (g_deck row))
                    (unique_opponents_faced_by_deck_a df (g_deck row))).
Proof.
  intros df a opps. subst opps.
  split; [apply NoDup_unique|].
  split.
  { intros b. rewrite in_unique_opponents, counted_opponent_iff,
      in_spec_distinct_opponents. tauto. }
  split; [apply in_spec_distinct_opponents|].
  split; [intros b Hb; now apply unique_opponents_faced in Hb|].
  split.
  { rewrite avg_matchup_wr_deck_a_ok, matchup_win_rates_value_eq.
    now rewrite mean_or_none_map. }
  split.
  { intros opps' Hp. split.
    - unfold len. now rewrite (Permutation_length Hp).
    - apply Qsum_perm, Permutation_map, Permutation_sym, Hp. }
  eexists. split; [apply general_performance_data_ok|].
  intros row Hin. apply in_somes_map in Hin. destruct Hin as [a' [_ Hr]].
  destruct (PyStr.truthy a' && (0 <? total_appearances_deck_a df a'));
    [|discriminate].
  injection Hr as <-. cbn.
  now rewrite matchup_win_rates_value_eq, mean_or_none_map.
Qed.

(** ** The two-record scenario (C5) *)

(** The claim of C5 fails on the code in one figure: Alpha had the first
    seat in both games of the scenario (it is recorded as FIRST in record 1,
    and its opponent is recorded as SECOND in record 2), so the first-seat
    rate is computed over 2 games and 2 wins, not over 1 game. *)
Lemma scenario_first_seat_games_are_two :
  exists fr,
    focus_report scenario_df "Alpha" (Some ALL_TYPES_PLACEHOLDER) = Ok (Some fr)
    /\ f_total_games_first fr = 2
    /\ f_total_games_first fr <> 1
    /\ f_wins_first fr <> 1.
Proof.
  eexists. split; [vm_compute; reflexivity|].
  cbn. repeat split; discriminate.
Qed.

(** C5, as the code has it. On the two records of the scenario the analysis
    of (Alpha, ALL) reports 2 appearances, 2 wins, 0 losses, a first-seat
    win rate of 100% over 2 first-seat games out of 2, a mean finish turn of
    the wins of 6, and a table of specific types with the single row of Beta
    (Blue): 2 games, 2 wins. *)
Theorem scenario_focus_report :
  exists fr m,
    focus_report scenario_df "Alpha" (Some ALL_TYPES_PLACEHOLDER) = Ok (Some fr)
    /\ f_total_appearances fr = 2
    /\ f_total_wins fr = 2
    /\ f_total_losses fr = 0
    /\ Qopt_eq (f_win_rate_first fr) (Some 100%Q)
    /\ f_total_games_first fr = 2
    /\ f_wins_first fr = 2
    /\ Qopt_eq (f_avg_win_finish_turn fr) (Some 6%Q)
    /\ f_matchup_specific_types fr = [m]
    /\ m_opp_deck m = "Beta"
    /\ m_opp_type m = "Blue"
    /\ m_games_played m = 2
    /\ m_wins m = 2.
Proof.
  eexists. eexists. split; [vm_compute; reflexivity|].
  cbn. repeat split.
Qed.

(** ** Symmetry of a pairing (C6) *)

Lemma pairs_b_sym (a b : string) (r : MatchRecord) :
  pairs_b b a r = pairs_b a b r.
Proof.
  unfold pairs_b.
  destruct (seq_str (my_deck r) a), (seq_str (opponent_deck r) b),
    (seq_str (opponent_deck r) a), (seq_str (my_deck r) b); reflexivity.
Qed.

Lemma pairing_games_sym df a b : pairing_games df b a = pairing_games df a b.
Proof.
  unfold pairing_games. f_equal. apply filter_ext. intros r. apply pairs_b_sym.
Qed.

Lemma one_side_wins (a b : string) (r : MatchRecord) :
  a <> b -> pairs r a b -> result r = WIN \/ result r = LOSS ->
  b2z (wins_for a r) + b2z (wins_for b r) = 1.
Proof.
  intros Hne Hp Hr. unfold wins_for. rewrite negate_result_win.
  destruct Hp as [[Hm Ho]|[Ho Hm]].
  - rewrite Hm, seq_str_refl.
    assert (E : seq_str a b = false) by now apply String.eqb_neq.
    rewrite E. destruct Hr as [-> | ->]; reflexivity.
  - rewrite Hm, seq_str_refl.
    assert (E : seq_str b a = false) by (apply String.eqb_neq; congruence).
    rewrite E. destruct Hr as [-> | ->]; reflexivity.
Qed.

Lemma pairing_wins_sum df a b :
  a <> b -> results_well_formed df a b ->
  pairing_wins df a b + pairing_wins df b a = pairing_games df a b.
Proof.
  intros Hne. unfold results_well_formed, pairing_wins, pairing_games.
  induction df as [|r df IH]; intros Hwf; [reflexivity|].
  assert (IH' := IH (fun x Hx => Hwf x (or_intror Hx))).
  cbn [filter]. rewrite (pairs_b_sym a b r).
  destruct (pairs_b a b r) eqn:E; cbn [andb].
  - apply pairs_b_iff in E.
    pose proof (one_side_wins a b r Hne E (Hwf r (or_introl eq_refl) E)) as H1.
    destruct (wins_for a r), (wins_for b r); cbn [b2z] in H1;
      rewrite ?len_cons; lia.
  - exact IH'.
Qed.

Section PooledRows.
Variables (df : DataFrame) (a b : string) (ty : option string).
Hypothesis Hty : type_filter ty = None.

Lemma focus_as_my_deck_games_all :
  focus_as_my_deck_games df a ty = where_eq my_deck a df.
Proof.
  unfold focus_as_my_deck_games, where_eq. apply filter_ext. intros r.
  unfold cond_my_deck_focus. now rewrite Hty.
Qed.

Lemma focus_as_opponent_deck_games_all :
  focus_as_opponent_deck_games df a ty = where_eq opponent_deck a df.
Proof.
  unfold focus_as_opponent_deck_games, where_eq. apply filter_ext. intros r.
  unfold cond_opponent_deck_focus. now rewrite Hty.
Qed.

Lemma pooled_games_eq :
  a <> b ->
  games_played_count (case1_agg_games_total df a ty b)
                     (case2_agg_games_total df a ty b)
  = pairing_games df a b.
Proof.
  intros Hne. unfold games_played_count, case1_agg_games_total,
    case2_agg_games_total, pairing_games, pairs_b.
  rewrite focus_as_my_deck_games_all, focus_as_opponent_deck_games_all.
  unfold where_eq. rewrite !filter_filter.
  symmetry. apply len_filter_disjoint. intros r _. now apply sides_disjoint.
Qed.

Lemma pooled_wins_eq :
  a <> b ->
  focus_deck_wins_count (case1_agg_games_total df a ty b)
                        (case2_agg_games_total df a ty b)
  = pairing_wins df a b.
Proof.
  intros Hne. rewrite <- total_wins_for_a_vs_specific_opponent_eq by assumption.
  unfold focus_deck_wins_count, total_wins_for_a_vs_specific_opponent,
    case1_agg_games_total, case2_agg_games_total.
  rewrite a_vs_opp_my_games_eq, a_vs_opp_opponent_games_eq.
  rewrite focus_as_my_deck_games_all, focus_as_opponent_deck_games_all.
  unfold where_eq. rewrite !filter_filter.
  f_equal; f_equal; apply filter_ext; intros r; now rewrite andb_assoc.
Qed.

End PooledRows.

(** ** The matchup tables *)

Lemma Zsum_app (l1 l2 : list Z) : Zsum (l1 ++ l2) = Zsum l1 + Zsum l2.
Proof. induction l1 as [|x l1 IH]; simpl; [reflexivity | rewrite IH; lia]. Qed.

Lemma Zsum_map_add {A} (f g : A -> Z) (l : list A) :
  Zsum (map (fun x => f x + g x) l) = Zsum (map f l) + Zsum (map g l).
Proof. induction l as [|x l IH]; simpl; [reflexivity | rewrite IH; lia]. Qed.

Lemma Zsum_map_zero {A} (f : A -> Z) (l : list A) :
  (forall x, In x l -> f x = 0) -> Zsum (map f l) = 0.
Proof.
  induction l as [|x l IH]; intros H; simpl; [reflexivity|].
  rewrite (H x) by now left. rewrite IH; [reflexivity|].
  intros y Hy. apply H. now right.
Qed.

(** A key of a duplicate-free list matches exactly one of its members. *)
Lemma Zsum_indicator (y : string) (ks : list string) :
  NoDup ks -> In y ks -> Zsum (map (fun k => b2z (seq_str y k)) ks) = 1.
Proof.
  induction 1 as [|k ks Hk Hnd IH]; intros Hin; [contradiction|].
  simpl. destruct Hin as [-> | Hin].
  - rewrite seq_str_refl. rewrite Zsum_map_zero; [reflexivity|].
    intros x Hx. destruct (seq_str y x) eqn:E; [|reflexivity].
    apply String.eqb_eq in E. subst x. contradiction.
  - rewrite IH by assumption.
    destruct (seq_str y k) eqn:E; [|reflexivity].
    apply String.eqb_eq in E. subst k. contradiction.
Qed.

(** Splitting the rows that satisfy [p] by the value of a column: when the
    keys [ks] are distinct and cover the column, the parts add up. *)
Lemma len_filter_partition {A} (key : A -> string) (p : A -> bool)
      (ks : list string) (l : list A) :
  NoDup ks ->
  (forall x, In x l -> p x = true -> In (key x) ks) ->
  Zsum (map (fun k => len (filter (fun x => p x && seq_str (key x) k) l)) ks)
  = len (filter p l).
Proof.
  intros Hnd. induction l as [|x l IH]; intros Hcov.
  - cbn [filter]. apply Zsum_map_zero. reflexivity.
  - assert (IH' := IH (fun y Hy => Hcov y (or_intror Hy))).
    cbn [filter]. destruct (p x) eqn:E.
    + rewrite len_cons, <- IH'.
      rewrite <- (Zsum_indicator (key x) ks Hnd (Hcov x (or_introl eq_refl) E)).
      rewrite <- Zsum_map_add. f_equal. apply map_ext. intros k.
      cbn [andb]. destruct (seq_str (key x) k); cbn [b2z];
        rewrite ?len_cons; lia.
    + rewrite <- IH'. f_equal.
Qed.

Lemma filter_map_comm {A B} (f : A -> B) (p : B -> bool) (l : list A) :
  filter p (map f l) = map f (filter (fun x => p (f x)) l).
Proof.
  induction l as [|x l IH]; simpl; [reflexivity|].
  destruct (p (f x)); simpl; now rewrite IH.
Qed.

Lemma NoDup_filter {A} (p : A -> bool) (l : list A) : NoDup l -> NoDup (filter p l).
Proof.
  induction 1 as [|x l Hx Hnd IH]; simpl; [constructor|].
  destruct (p x); [|assumption].
  constructor; [|assumption]. rewrite filter_In. tauto.
Qed.

Lemma NoDup_map_snd_same_fst (b : string) (l : list (string * string)) :
  NoDup l -> (forall t, In t l -> fst t = b) -> NoDup (map snd l).
Proof.
  induction 1 as [|t l Ht Hnd IH]; intros Hb; simpl; [constructor|].
  constructor.
  - rewrite in_map_iff. intros [t' [E Hin]]. apply Ht.
    assert (H1 := Hb t (or_introl eq_refl)).
    assert (H2 := Hb t' (or_intror Hin)).
    destruct t as [x y], t' as [x' y']. simpl in E, H1, H2.
    subst. exact Hin.
  - apply IH. intros t' Hin. apply Hb. now right.
Qed.

Lemma somes_map_some {A B} (f : A -> option B) (g : A -> B) (l : list A) :
  (forall x, In x l -> f x = Some (g x)) -> somes (map f l) = map g l.
Proof.
  induction l as [|x l IH]; intros H; simpl; [reflexivity|].
  rewrite (H x) by now left. f_equal. apply IH. intros y Hy. apply H. now right.
Qed.

Section FocusTableFacts.
Variables (df : DataFrame) (deck : string) (ty : option string).

Let as_my := focus_as_my_deck_games df deck ty.
Let as_opp := focus_as_opponent_deck_games df deck ty.

Lemma in_opponents_set (t : string * string) :
  In t (opponents_set df deck ty)
  <-> (exists r, In r as_my /\ (opponent_deck r, opponent_deck_type r) = t)
      \/ (exists r, In r as_opp /\ (my_deck r, my_deck_type r) = t).
Proof.
  unfold opponents_set. fold as_my as_opp. rewrite in_unique, in_app_iff.
  assert (H : forall (l : DataFrame) (f : MatchRecord -> string * string),
             In t (if negb (is_empty l) then unique tuple_eq_dec (map f l) else [])
             <-> exists r, In r l /\ f r = t).
  { intros l f. destruct l as [|x l]; cbn [is_empty negb].
    - split; [contradiction | intros [r [[] _]]].
    - rewrite in_unique, in_map_iff. split; intros [r [H1 H2]]; exists r; tauto. }
  rewrite !H. tauto.
Qed.

Lemma NoDup_all_faced_opponents_tuples :
  NoDup (all_faced_opponents_tuples df deck ty).
Proof.
  unfold all_faced_opponents_tuples.
  apply NoDup_sorted, NoDup_filter, NoDup_unique.
Qed.

Lemma in_all_faced_opponents_tuples (t : string * string) :
  In t (all_faced_opponents_tuples df deck ty)
  <-> valid_name (fst t) /\ In t (opponents_set df deck ty).
Proof.
  unfold all_faced_opponents_tuples.
  rewrite in_sorted, filter_In, analyzable_iff. tauto.
Qed.

(** Every tuple of the loop has at least one game, so it yields a row. *)
Lemma tuple_has_games (t : string * string) :
  In t (opponents_set df deck ty) ->
  0 < games_played_count (case1_games df deck ty (fst t) (snd t))
                         (case2_games df deck ty (fst t) (snd t)).
Proof.
  intros H. apply in_opponents_set in H. unfold games_played_count.
  pose proof (len_nonneg (case1_games df deck ty (fst t) (snd t))).
  pose proof (len_nonneg (case2_games df deck ty (fst t) (snd t))).
  destruct H as [[r [Hr E]] | [r [Hr E]]]; subst t; cbn [fst snd] in *.
  - assert (0 < len (case1_games df deck ty (opponent_deck r)
                                 (opponent_deck_type r))); [|lia].
    unfold case1_games. apply (len_filter_pos _ _ r Hr).
    now rewrite !seq_str_refl.
  - assert (0 < len (case2_games df deck ty (my_deck r) (my_deck_type r)));
      [|lia].
    unfold case2_games. apply (len_filter_pos _ _ r Hr).
    now rewrite !seq_str_refl.
Qed.

Lemma matchup_data_value_eq :
  matchup_data_value df deck ty
  = map (specific_row_value df deck ty) (all_faced_opponents_tuples df deck ty).
Proof.
  unfold matchup_data_value. apply somes_map_some. intros t Ht.
  apply in_all_faced_opponents_tuples in Ht. destruct Ht as [_ Ht].
  apply tuple_has_games, Z.ltb_lt in Ht.
  unfold specific_row_opt, matchup_row_opt. now rewrite Ht.
Qed.

Lemma NoDup_faced_types (b : string) : NoDup (faced_types df deck ty b).
Proof.
  unfold faced_types. apply (NoDup_map_snd_same_fst b).
  - apply NoDup_filter, NoDup_all_faced_opponents_tuples.
  - intros t Ht. apply filter_In in Ht. now apply String.eqb_eq.
Qed.

Lemma rows_of_specific (b : string) :
  map m_games_played (rows_of b (matchup_data_value df deck ty))
  = map (fun k => len (filter (fun r => seq_str (opponent_deck r) b
                                        && seq_str (opponent_deck_type r) k)
                              as_my)
                  + len (filter (fun r => seq_str (my_deck r) b
                                          && seq_str (my_deck_type r) k)
                                as_opp))
        (faced_types df deck ty b).
Proof.
  unfold rows_of, faced_types. rewrite matchup_data_value_eq, filter_map_comm.
  rewrite !map_map. cbn [specific_row_value matchup_row_value m_opp_deck].
  apply map_ext_in. intros t Ht. apply filter_In in Ht. destruct Ht as [_ Ht].
  apply String.eqb_eq in Ht. cbn. rewrite Ht. reflexivity.
Qed.

Lemma faced_types_cover_my (b : string) (r : MatchRecord) :
  valid_name b -> In r as_my -> seq_str (opponent_deck r) b = true ->
  In (opponent_deck_type r) (faced_types df deck ty b).
Proof.
  intros Hb Hr E. unfold faced_types. apply in_map_iff.
  exists (opponent_deck r, opponent_deck_type r). split; [reflexivity|].
  apply filter_In. split; [|exact E].
  apply in_all_faced_opponents_tuples. cbn [fst].
  apply String.eqb_eq in E. split; [now rewrite E|].
  apply in_opponents_set. left. exists r. tauto.
Qed.

Lemma faced_types_cover_opp (b : string) (r : MatchRecord) :
  valid_name b -> In r as_opp -> seq_str (my_deck r) b = true ->
  In (my_deck_type r) (faced_types df deck ty b).
Proof.
  intros Hb Hr E. unfold faced_types. apply in_map_iff.
  exists (my_deck r, my_deck_type r). split; [reflexivity|].
  apply filter_In. split; [|exact E].
  apply in_all_faced_opponents_tuples. cbn [fst].
  apply String.eqb_eq in E. split; [now rewrite E|].
  apply in_opponents_set. right. exists r. tauto.
Qed.

(** The games of the pooled row of [b] are those of its specific rows. *)
Lemma pooled_games_sum (b : string) :
  valid_name b ->
  games_played_count (case1_agg_games_total df deck ty b)
                     (case2_agg_games_total df deck ty b)
  = Zsum (map m_games_played (rows_of b (matchup_data_value df deck ty))).
Proof.
  intros Hb. rewrite rows_of_specific, Zsum_map_add.
  rewrite (len_filter_partition opponent_deck_type
             (fun r => seq_str (opponent_deck r) b) (faced_types df deck ty b) as_my
             (NoDup_faced_types b)
             (fun r Hr E => faced_types_cover_my b r Hb Hr E)).
  rewrite (len_filter_partition my_deck_type
             (fun r => seq_str (my_deck r) b) (faced_types df deck ty b) as_opp
             (NoDup_faced_types b)
             (fun r Hr E => faced_types_cover_opp b r Hb Hr E)).
  reflexivity.
Qed.

Lemma in_agg_matchup_data_value (m : MatchupRow) :
  In m (agg_matchup_data_value df deck ty)
  <-> exists b, In b (map m_opp_deck (matchup_data_value df deck ty))
                /\ pooled_row_opt df deck ty b = Some m.
Proof.
  unfold agg_matchup_data_value. rewrite in_somes_map.
  split; intros [b [H1 H2]]; exists b; (split; [|exact H2]);
    [now apply in_unique in H1 | now apply in_unique].
Qed.

Lemma pooled_row_opt_some (b : string) (m : MatchupRow) :
  pooled_row_opt df deck ty b = Some m ->
  m = matchup_row_value b ALL_TYPES_PLACEHOLDER
        (case1_agg_games_total df deck ty b)
        (case2_agg_games_total df deck ty b).
Proof.
  unfold pooled_row_opt, matchup_row_opt.
  destruct (0 <? games_played_count _ _); [|discriminate]. congruence.
Qed.

Lemma in_specific_names (b : string) :
  In b (map m_opp_deck (matchup_data_value df deck ty))
  <-> exists k, In (b, k) (all_faced_opponents_tuples df deck ty).
Proof.
  rewrite matchup_data_value_eq, map_map. cbn. rewrite in_map_iff. split.
  - intros [[b' k] [E H]]. cbn in E. subst b'. now exists k.
  - intros [k H]. now exists (b, k).
Qed.

End FocusTableFacts.

Lemma type_filter_all_key : type_filter ALL_KEY = None.
Proof. reflexivity. Qed.

Lemma pooled_has_games df deck ty (b k : string) :
  In (b, k) (all_faced_opponents_tuples df deck ty) ->
  0 < games_played_count (case1_agg_games_total df deck ty b)
                         (case2_agg_games_total df deck ty b).
Proof.
  intros H. apply in_all_faced_opponents_tuples in H. destruct H as [_ H].
  apply in_opponents_set in H. unfold games_played_count.
  pose proof (len_nonneg (case1_agg_games_total df deck ty b)).
  pose proof (len_nonneg (case2_agg_games_total df deck ty b)).
  destruct H as [[r [Hr E]] | [r [Hr E]]]; injection E as E1 E2.
  - assert (0 < len (case1_agg_games_total df deck ty b)); [|lia].
    apply (len_filter_pos _ _ r Hr). now apply String.eqb_eq.
  - assert (0 < len (case2_agg_games_total df deck ty b)); [|lia].
    apply (len_filter_pos _ _ r Hr). now apply String.eqb_eq.
Qed.

Lemma focus_report_some df deck ty fr :
  focus_report df deck ty = Ok (Some fr) -> fr = focus_report_value df deck ty.
Proof.
  rewrite focus_report_ok.
  destruct (total_appearances df deck ty =? 0); congruence.
Qed.

(** ** Pooled rows and specific rows (C7) *)

(** C7. In the matchup tables of any focus key, every opponent deck with a
    specific-type row has a pooled (ALL-types) row, and the number of games
    of a pooled row is the sum of the numbers of games of the specific-type
    rows of the same opponent deck, of which there is at least one. *)
Theorem pooled_row_sums_specific_rows :
  forall (df : DataFrame) (deck : string) (ty : option string) (fr : FocusReport),
    focus_report df deck ty = Ok (Some fr) ->
    (forall m, In m (f_matchup_specific_types fr) ->
               exists pooled, In pooled (f_matchup_all_types fr)
                              /\ m_opp_deck pooled = m_opp_deck m)
    /\ (forall pooled, In pooled (f_matchup_all_types fr) ->
          m_opp_type pooled = ALL_TYPES_PLACEHOLDER
          /\ rows_of (m_opp_deck pooled) (f_matchup_specific_types fr) <> []
          /\ m_games_played pooled
             = Zsum (map m_games_played
                         (rows_of (m_opp_deck pooled)
                                  (f_matchup_specific_types fr)))).
Proof.
  intros df deck ty fr Hfr. apply focus_report_some in Hfr. subst fr.
  cbn [f_matchup_specific_types f_matchup_all_types focus_report_value].
  split.
  - intros m Hm.
    assert (Hn : In (m_opp_deck m) (map m_opp_deck (matchup_data_value df deck ty)))
      by now apply in_map.
    pose proof Hn as Hk. apply in_specific_names in Hk. destruct Hk as [k Hk].
    apply pooled_has_games, Z.ltb_lt in Hk.
    eexists. split.
    + apply in_agg_matchup_data_value. exists (m_opp_deck m). split; [exact Hn|].
      unfold pooled_row_opt, matchup_row_opt. rewrite Hk. reflexivity.
    + reflexivity.
  - intros pooled Hp. apply in_agg_matchup_data_value in Hp.
    destruct Hp as [b [Hb Hp]]. apply pooled_row_opt_some in Hp. subst pooled.
    cbn [m_opp_type m_opp_deck m_games_played matchup_row_value].
    split; [reflexivity|]. split.
    + apply in_map_iff in Hb. destruct Hb as [m [E Hm]].
      intros Hnil.
      assert (Hin : In m (rows_of b (matchup_data_value df deck ty))).
      { apply filter_In. split; [exact Hm|]. now apply String.eqb_eq. }
      rewrite Hnil in Hin. exact Hin.
    + apply pooled_games_sum.
      apply in_map_iff in Hb. destruct Hb as [m [<- Hm]].
      now apply matchup_data_value_valid in Hm.
Qed.

Lemma pooled_row_sums_specific_rows_witness :
  exists fr,
    focus_report scenario_df "Alpha" ALL_KEY = Ok (Some fr)
    /\ (forall m, In m (f_matchup_specific_types fr) ->
                  exists pooled, In pooled (f_matchup_all_types fr)
                                 /\ m_opp_deck pooled = m_opp_deck m)
    /\ (forall pooled, In pooled (f_matchup_all_types fr) ->
          m_opp_type pooled = ALL_TYPES_PLACEHOLDER
          /\ rows_of (m_opp_deck pooled) (f_matchup_specific_types fr) <> []
          /\ m_games_played pooled
             = Zsum (map m_games_played
                         (rows_of (m_opp_deck pooled)
                                  (f_matchup_specific_types fr)))).
Proof.
  exists (focus_report_value scenario_df "Alpha" ALL_KEY).
  split; [reflexivity|].
  apply (pooled_row_sums_specific_rows scenario_df "Alpha" ALL_KEY).
  reflexivity.
Defined.

(** ** Symmetry of the pooled rows *)

Lemma pairing_games_pos df a b :
  0 < pairing_games df a b -> exists r, In r df /\ pairs r a b.
Proof.
  unfold pairing_games. intros H. apply len_pos_iff in H.
  destruct (filter (pairs_b a b) df) as [|r l] eqn:E; [congruence|].
  assert (Hin : In r (filter (pairs_b a b) df)) by (rewrite E; now left).
  apply filter_In in Hin. exists r. split; [tauto|]. now apply pairs_b_iff.
Qed.

Lemma pooled_row_exists df a b :
  a <> b -> valid_name b -> 0 < pairing_games df a b ->
  pooled_row_shows df a b (pooled_wins df a b) (pairing_games df a b).
Proof.
  intros Hne Hb Hpos.
  destruct (pairing_games_pos df a b Hpos) as [r [Hr Hp]].
  pose proof (pooled_games_eq df a b ALL_KEY type_filter_all_key Hne) as Hg.
  assert (Hin : exists k, In (b, k) (all_faced_opponents_tuples df a ALL_KEY)).
  { destruct Hp as [[Hm Ho]|[Ho Hm]].
    - exists (opponent_deck_type r). apply in_all_faced_opponents_tuples.
      split; [exact Hb|]. apply in_opponents_set. left. exists r. split.
      + apply filter_In. split; [exact Hr|].
        apply cond_my_deck_focus_true; [exact Hm | now left].
      + now rewrite Ho.
    - exists (my_deck_type r). apply in_all_faced_opponents_tuples.
      split; [exact Hb|]. apply in_opponents_set. right. exists r. split.
      + apply filter_In. split; [exact Hr|].
        apply cond_opponent_deck_focus_true; [exact Ho | now left].
      + now rewrite Hm. }
  assert (Happ : (total_appearances df a ALL_KEY =? 0) = false).
  { apply Z.eqb_neq. unfold total_appearances.
    unfold games_played_count, case1_agg_games_total, case2_agg_games_total,
      where_eq in Hg.
    pose proof (len_nonneg (focus_as_my_deck_games df a ALL_KEY)).
    pose proof (len_nonneg (focus_as_opponent_deck_games df a ALL_KEY)).
    destruct (focus_as_my_deck_games df a ALL_KEY) eqn:E1,
      (focus_as_opponent_deck_games df a ALL_KEY) eqn:E2;
      rewrite ?len_cons in *; cbn [filter] in Hg; unfold len in *;
      simpl List.length in *; lia. }
  exists (focus_report_value df a ALL_KEY),
    (matchup_row_value b ALL_TYPES_PLACEHOLDER
       (case1_agg_games_total df a ALL_KEY b)
       (case2_agg_games_total df a ALL_KEY b)).
  split; [rewrite focus_report_ok, Happ; reflexivity|].
  cbn [f_matchup_all_types focus_report_value m_opp_deck m_opp_type m_wins
         m_games_played matchup_row_value].
  split.
  { apply in_agg_matchup_data_value. exists b. split.
    - now apply in_specific_names.
    - unfold pooled_row_opt, matchup_row_opt.
      rewrite Hg. apply Z.ltb_lt in Hpos. now rewrite Hpos. }
  repeat split; try assumption.
  intros row' Hrow' Hname. apply in_agg_matchup_data_value in Hrow'.
  destruct Hrow' as [b' [_ Hrow']]. apply pooled_row_opt_some in Hrow'.
  subst row'. cbn in Hname. now subst b'.
Qed.

(** C6. For two distinct archetypes A and B whose games against each other
    all have a WIN or LOSS result, the wins of A against B and the wins of B
    against A, each counted by the pooled (ALL-types) aggregation of that
    archetype's own analysis, add up to the number N of records in which A
    and B sit on the two sides; both aggregations count N games.  The
    overview's per-opponent counts satisfy the same identity.  When N > 0
    and the two names are usable, the two pooled rows are present in the two
    reports and carry these counts. *)
Theorem pairing_symmetry :
  forall (df : DataFrame) (a b : string),
    a <> b ->
    results_well_formed df a b ->
    let n := pairing_games df a b in
    pooled_wins df a b + pooled_wins df b a = n
    /\ pooled_games df a b = n
    /\ pooled_games df b a = n
    /\ total_wins_for_a_vs_specific_opponent df a b
       + total_wins_for_a_vs_specific_opponent df b a = n
    /\ total_games_vs_specific_opponent df a b = n
    /\ total_games_vs_specific_opponent df b a = n
    /\ (0 < n -> valid_name a -> valid_name b ->
        pooled_row_shows df a b (pooled_wins df a b) n
        /\ pooled_row_shows df b a (pooled_wins df b a) n).
Proof.
  intros df a b Hne Hwf n. subst n.
  assert (Hne' : b <> a) by congruence.
  pose proof (pairing_wins_sum df a b Hne Hwf) as Hsum.
  unfold pooled_wins, pooled_games.
  rewrite !pooled_wins_eq, !pooled_games_eq by (assumption || reflexivity).
  rewrite !total_wins_for_a_vs_specific_opponent_eq,
    !total_games_vs_specific_opponent_eq by assumption.
  rewrite (pairing_games_sym df a b).
  do 6 (split; [first [assumption | reflexivity]|]).
  intros Hpos Ha Hb. split.
  - rewrite <- (pooled_wins_eq df a b ALL_KEY type_filter_all_key Hne).
    now apply pooled_row_exists.
  - rewrite <- (pooled_wins_eq df b a ALL_KEY type_filter_all_key Hne').
    rewrite <- (pairing_games_sym df a b).
    apply pooled_row_exists; [assumption | assumption |].
    now rewrite pairing_games_sym.
Qed.

Lemma pairing_symmetry_witness :
  "Alpha" <> "Beta"
  /\ results_well_formed scenario_df "Alpha" "Beta"
  /\ pooled_wins scenario_df "Alpha" "Beta"
     + pooled_wins scenario_df "Beta" "Alpha" = 2
  /\ pairing_games scenario_df "Alpha" "Beta" = 2.
Proof.
  assert (Hne : "Alpha" <> "Beta") by discriminate.
  assert (Hwf : results_well_formed scenario_df "Alpha" "Beta").
  { intros r [<-|[<-|[]]] _; [left | right]; reflexivity. }
  split; [exact Hne|]. split; [exact Hwf|].
  split; [|reflexivity].
  exact (proj1 (pairing_symmetry scenario_df "Alpha" "Beta" Hne Hwf)).
Defined.

(** ** [sort_values]: what every admissible result satisfies *)

Lemma Forall2_rev {A B} (R : A -> B -> Prop) (l : list A) (l' : list B) :
  Forall2 R l l' -> Forall2 R (rev l) (rev l').
Proof.
  induction 1; simpl; [constructor|].
  apply Forall2_app; [assumption | now repeat constructor].
Qed.

Lemma Forall2_nth_error {A B} (R : A -> B -> Prop) (l : list A) (l' : list B)
      (i : nat) (y : B) :
  Forall2 R l l' -> nth_error l' i = Some y ->
  exists x, nth_error l i = Some x /\ R x y.
Proof.
  intros H. revert i. induction H as [|a b l l' Hab H IH]; intros i Hi.
  - destruct i; discriminate.
  - destruct i as [|i]; simpl in *.
    + injection Hi as <-. now exists a.
    + now apply IH.
Qed.

Lemma flat_map_rev_short {A B} (f : A -> list B) (l : list A) :
  (forall x, (List.length (f x) <= 1)%nat) ->
  flat_map f (rev l) = rev (flat_map f l).
Proof.
  intros Hf. induction l as [|x l IH]; simpl; [reflexivity|].
  rewrite flat_map_app, rev_app_distr, IH. simpl. rewrite app_nil_r.
  f_equal. specialize (Hf x). destruct (f x) as [|y [|z t]]; simpl in *;
    [reflexivity | reflexivity | lia].
Qed.

Lemma adjacent_of_Sorted {A} (R : A -> A -> Prop) (l l1 l2 : list A) (x y : A) :
  Sorted R l -> l = l1 ++ x :: y :: l2 -> R x y.
Proof.
  revert l. induction l1 as [|a l1 IH]; intros l Hs E; subst l; simpl in Hs.
  - apply Sorted_inv in Hs. destruct Hs as [_ Hh]. now inversion Hh.
  - apply Sorted_inv in Hs. destruct Hs as [Hs _]. now apply (IH _ Hs).
Qed.

Lemma Sorted_of_adjacent {A} (R : A -> A -> Prop) (l : list A) :
  (forall l1 l2 x y, l = l1 ++ x :: y :: l2 -> R x y) -> Sorted R l.
Proof.
  induction l as [|a l IH]; intros H; [constructor|].
  constructor.
  - apply IH. intros l1 l2 x y E. apply (H (a :: l1) l2). simpl. now rewrite E.
  - destruct l as [|b l]; constructor. now apply (H [] l).
Qed.

Lemma Sorted_rev {A} (R : A -> A -> Prop) (l : list A) :
  Sorted R l -> Sorted (fun x y => R y x) (rev l).
Proof.
  intros Hs. apply Sorted_of_adjacent. intros l1 l2 x y E.
  apply (adjacent_of_Sorted R l (rev l2) (rev l1) y x Hs).
  rewrite <- (rev_involutive l), E, rev_app_distr. simpl.
  now rewrite <- !app_assoc.
Qed.

Lemma Sorted_map {A B} (R : B -> B -> Prop) (f : A -> B) (l : list A) :
  Sorted (fun x y => R (f x) (f y)) l -> Sorted R (map f l).
Proof.
  induction 1 as [|a l Hs IH Hh]; simpl; constructor; [assumption|].
  destruct Hh; simpl; now constructor.
Qed.

Lemma Sorted_impl_in {A} (R S : A -> A -> Prop) (l : list A) :
  (forall x y, In x l -> In y l -> R x y -> S x y) -> Sorted R l -> Sorted S l.
Proof.
  intros H Hs. induction Hs as [|a l Hs IH Hh]; constructor.
  - apply IH. intros x y Hx Hy. apply H; now right.
  - destruct Hh as [|b l' Hab]; constructor.
    apply H; [now left | right; now left | assumption].
Qed.

Lemma take_rows_seq {A} (pre l : list A) :
  take_rows (pre ++ l) (seq (List.length pre) (List.length l)) = l.
Proof.
  revert pre. induction l as [|x l IH]; intros pre; simpl; [reflexivity|].
  rewrite nth_error_app2, Nat.sub_diag by lia. simpl. f_equal.
  specialize (IH (pre ++ [x])).
  rewrite length_app, <- app_assoc in IH. simpl in IH.
  now rewrite Nat.add_1_r in IH.
Qed.

Lemma take_rows_perm {A} (l : list A) (p : list nat) :
  Permutation (seq 0 (List.length l)) p -> Permutation (take_rows l p) l.
Proof.
  intros Hp. rewrite <- (take_rows_seq [] l) at 2. simpl.
  unfold take_rows. apply Permutation_flat_map, Permutation_sym, Hp.
Qed.

Lemma is_arange_perm (n : nat) (p : list nat) :
  is_arange n p = true -> Permutation (seq 0 n) p.
Proof.
  unfold is_arange. rewrite andb_true_iff, Nat.eqb_eq, forallb_forall.
  intros [Hlen Hall]. apply NoDup_Permutation_bis.
  - apply seq_NoDup.
  - rewrite length_seq. lia.
  - intros i Hi. specialize (Hall i Hi). apply existsb_exists in Hall.
    destruct Hall as [j [Hj E]]. apply Nat.eqb_eq in E. now subst j.
Qed.

Lemma flat_map_ext_on {A B} (f g : A -> list B) (l : list A) :
  (forall x, In x l -> f x = g x) -> flat_map f l = flat_map g l.
Proof.
  induction l as [|x l IH]; intros H; simpl; [reflexivity|].
  rewrite (H x) by now left. f_equal. apply IH. intros y Hy. apply H. now right.
Qed.

Lemma keyed_key {A K} (key : A -> option K) (rows : list A) (x : A * K) :
  In x (keyed key rows) -> key (fst x) = Some (snd x) /\ In (fst x) rows.
Proof.
  unfold keyed. rewrite in_flat_map. intros [r [Hr H]].
  destruct (key r) as [k|] eqn:E; [|contradiction].
  destruct H as [<-|[]]. simpl. tauto.
Qed.

Lemma keyed_unkeyed_perm {A K} (key : A -> option K) (rows : list A) :
  Permutation (map fst (keyed key rows) ++ unkeyed key rows) rows.
Proof.
  induction rows as [|r rows IH]; [constructor|].
  unfold keyed, unkeyed in *. cbn [flat_map filter].
  destruct (key r); simpl.
  - now constructor.
  - apply Permutation_sym, Permutation_cons_app, Permutation_sym, IH.
Qed.

Lemma unkeyed_none {A K} (key : A -> option K) (rows : list A) (r : A) :
  In r (unkeyed key rows) <-> In r rows /\ key r = None.
Proof.
  unfold unkeyed. rewrite filter_In. destruct (key r); split; intros [H1 H2];
    (split; [assumption | congruence]).
Qed.

Section SortValuesFacts.
Context {A K : Type} (leb : K -> K -> bool) (key : A -> option K).

(** The positions of [non_nan_from] point at the rows of [keyed], with
    the same keys. *)
Lemma non_nan_aligned (pre rows : list A) :
  Forall2 (fun jk rk => nth_error (pre ++ rows) (fst jk) = Some (fst rk)
                        /\ snd jk = snd rk)
          (non_nan_from (List.length pre) (map key rows)) (keyed key rows).
Proof.
  revert pre. induction rows as [|r rows IH]; intros pre; simpl; [constructor|].
  specialize (IH (pre ++ [r])).
  rewrite length_app, <- app_assoc in IH. simpl in IH.
  rewrite Nat.add_1_r in IH.
  destruct (key r) as [k|]; simpl; [|exact IH].
  constructor; [|exact IH]. simpl. split; [|reflexivity].
  now rewrite nth_error_app2, Nat.sub_diag by lia.
Qed.

Lemma non_nan_aligned_rev (rows : list A) :
  Forall2 (fun j rk => nth_error rows j = Some (fst rk))
          (rev (map fst (non_nan_from 0 (map key rows))))
          (rev (keyed key rows)).
Proof.
  apply Forall2_rev.
  pose proof (non_nan_aligned [] rows) as H. simpl in H.
  induction H as [|x y l l' [E _] H IH]; simpl; constructor; assumption.
Qed.

Lemma nan_idx_rows (pre rows : list A) :
  take_rows (pre ++ rows) (nan_idx_from (List.length pre) (map key rows))
  = unkeyed key rows.
Proof.
  revert pre. induction rows as [|r rows IH]; intros pre; simpl; [reflexivity|].
  specialize (IH (pre ++ [r])).
  rewrite length_app, <- app_assoc in IH. simpl in IH.
  rewrite Nat.add_1_r in IH.
  destruct (key r) as [k|]; simpl; [exact IH|].
  rewrite nth_error_app2, Nat.sub_diag by lia. simpl. now f_equal.
Qed.

Lemma non_nans_keys (rows : list A) :
  map snd (non_nan_from 0 (map key rows)) = map snd (keyed key rows).
Proof.
  pose proof (non_nan_aligned [] rows) as H. simpl in H.
  induction H as [|x y l l' [_ E] H IH]; simpl; [reflexivity|].
  now rewrite E, IH.
Qed.

Lemma take_rows_fst {B} (l : list (A * B)) (p : list nat) :
  flat_map (fun i => match nth_error l i with
                     | Some x => [fst x]
                     | None => []
                     end) p
  = map fst (take_rows l p).
Proof.
  induction p as [|i p IH]; simpl; [reflexivity|].
  rewrite map_app, IH. now destruct (nth_error l i).
Qed.

Lemma nondecreasing_sorted (l : list (A * K)) (p : list nat) :
  nondecreasing_along leb (map snd l) p = true ->
  Sorted (fun x y => leb (snd x) (snd y) = true) (take_rows l p).
Proof.
  induction p as [|i p IH]; simpl; [constructor|].
  rewrite andb_true_iff. intros [Hh Ht]. specialize (IH Ht).
  destruct (nth_error l i) as [x|] eqn:Ei; simpl; [|exact IH].
  constructor; [exact IH|].
  destruct p as [|j p]; simpl; [constructor|].
  rewrite !nth_error_map, Ei in Hh.
  destruct (nth_error l j) as [y|] eqn:Ej; simpl in *; [|discriminate].
  now constructor.
Qed.

(** Every result of the descending sort is a permutation of the rows:
    first the rows that have a key, in descending order of the keys, then
    the rows that lack one, in their original order. *)
Lemma sort_values_desc_sorted (rows out : list A) :
  sort_values_desc leb key rows out -> sorted_desc_na_last leb key rows out.
Proof.
  intros [indexer [[p [Hp ->]] ->]].
  unfold argsort_ok in Hp. apply andb_true_iff in Hp. destruct Hp as [Har Hnd].
  apply is_arange_perm in Har.
  rewrite non_nans_keys in Hnd, Har. rewrite <- map_rev in Hnd, Har.
  rewrite length_map in Har.
  set (KR := rev (keyed key rows)) in *.
  set (IR := rev (map fst (non_nan_from 0 (map key rows)))).
  assert (Hal : Forall2 (fun j rk => nth_error rows j = Some (fst rk)) IR KR)
    by apply non_nan_aligned_rev.
  assert (Hpick : take_rows rows (take_idx IR p) = map fst (take_rows KR p)).
  { rewrite <- take_rows_fst. unfold take_rows, take_idx.
    rewrite flat_map_concat_map, map_map, <- flat_map_concat_map.
    apply flat_map_ext_on. intros i Hi.
    assert (Hlt : (i < List.length KR)%nat).
    { apply (Permutation_in _ (Permutation_sym Har)) in Hi.
      apply in_seq in Hi. lia. }
    destruct (nth_error KR i) as [x|] eqn:Ex;
      [|apply nth_error_None in Ex; lia].
    destruct (Forall2_nth_error _ _ _ _ _ Hal Ex) as [j [Hj Hr]].
    rewrite (nth_error_nth _ _ _ Hj), Hr. reflexivity. }
  exists (rev (map fst (take_rows KR p))).
  split; [|split].
  - unfold take_rows at 1. rewrite flat_map_app. f_equal.
    + rewrite flat_map_rev_short.
      * f_equal. exact Hpick.
      * intros i. destruct (nth_error rows i); simpl; lia.
    + apply (nan_idx_rows [] rows).
  - rewrite <- Permutation_rev.
    apply Permutation_map.
    rewrite (take_rows_perm KR p Har). unfold KR.
    apply Permutation_sym, Permutation_rev.
  - rewrite <- map_rev. apply Sorted_map.
    apply (Sorted_impl_in (fun x y => leb (snd y) (snd x) = true)).
    + intros x y Hx Hy Hxy. unfold key_ge.
      assert (Hk : forall z, In z (rev (take_rows KR p)) ->
                             key (fst z) = Some (snd z)).
      { intros z Hz. apply in_rev in Hz.
        apply (Permutation_in _ (take_rows_perm KR p Har)) in Hz.
        unfold KR in Hz. apply in_rev in Hz. now apply keyed_key in Hz. }
      now rewrite (Hk x Hx), (Hk y Hy).
    + apply Sorted_rev. now apply nondecreasing_sorted.
Qed.

End SortValuesFacts.

(** ** [sort_values]: a result exists *)

Section SortTotal.
Context {A : Type} (cmp : A -> A -> bool).
Hypothesis cmp_total : forall x y, cmp x y = true \/ cmp y x = true.

Lemma insert_sorted_Sorted (x : A) (l : list A) :
  Sorted (fun a b => cmp a b = true) l ->
  Sorted (fun a b => cmp a b = true) (insert_sorted cmp x l).
Proof.
  induction l as [|y l IH]; intros Hs; simpl.
  - repeat constructor.
  - destruct (cmp x y) eqn:E.
    + constructor; [assumption | now constructor].
    + apply Sorted_inv in Hs. destruct Hs as [Hs Hh].
      constructor; [now apply IH|].
      assert (Hyx : cmp y x = true)
        by (destruct (cmp_total x y); congruence).
      destruct l as [|z l]; simpl; [now constructor|].
      destruct (cmp x z); constructor; [assumption|].
      now inversion Hh.
Qed.

Lemma sorted_Sorted (l : list A) :
  Sorted (fun a b => cmp a b = true) (sorted cmp l).
Proof.
  induction l as [|x l IH]; simpl; [constructor|].
  now apply insert_sorted_Sorted.
Qed.

End SortTotal.

Section SortValuesTotal.
Context {K : Type} (leb : K -> K -> bool).
Hypothesis leb_total : forall a b, leb a b = true \/ leb b a = true.

Lemma nondecreasing_of_Sorted (xs : list K) (p : list nat) :
  (forall i, In i p -> (i < List.length xs)%nat) ->
  Sorted (fun i j => match nth_error xs i, nth_error xs j with
                     | Some a, Some b => leb a b
                     | _, _ => true
                     end = true) p ->
  nondecreasing_along leb xs p = true.
Proof.
  intros Hlt Hs. induction Hs as [|i p Hs IH Hh]; [reflexivity|].
  cbn [nondecreasing_along]. rewrite IH by (intros j Hj; apply Hlt; now right).
  rewrite andb_true_r. destruct Hh as [|j p' Hij]; [reflexivity|].
  assert (Hi : (i < List.length xs)%nat) by (apply Hlt; now left).
  assert (Hj : (j < List.length xs)%nat) by (apply Hlt; right; now left).
  apply nth_error_Some in Hi, Hj.
  destruct (nth_error xs i), (nth_error xs j); congruence.
Qed.

Lemma stable_argsort_ok (xs : list K) :
  argsort_ok leb xs (stable_argsort leb xs) = true.
Proof.
  unfold argsort_ok, stable_argsort.
  set (cmp := fun i j => match nth_error xs i, nth_error xs j with
                         | Some a, Some b => leb a b
                         | _, _ => true
                         end).
  pose proof (sorted_perm cmp (seq 0 (List.length xs))) as Hp.
  apply andb_true_iff. split.
  - unfold is_arange. apply andb_true_iff. split.
    + apply Nat.eqb_eq. rewrite (Permutation_length Hp). apply length_seq.
    + apply forallb_forall. intros i Hi. apply existsb_exists. exists i.
      split; [|apply Nat.eqb_refl]. now apply in_sorted.
  - apply nondecreasing_of_Sorted.
    + intros i Hi. apply in_sorted, in_seq in Hi. lia.
    + apply sorted_Sorted. intros i j. unfold cmp.
      destruct (nth_error xs i), (nth_error xs j); auto.
Qed.

Lemma sort_values_desc_total {A} (key : A -> option K) (rows : list A) :
  exists out, sort_values_desc leb key rows out.
Proof.
  eexists. eexists. split; [|reflexivity].
  eexists. split; [apply stable_argsort_ok | reflexivity].
Qed.

End SortValuesTotal.

Lemma Qle_bool_total (a b : Q) : Qle_bool a b = true \/ Qle_bool b a = true.
Proof.
  rewrite !Qle_bool_iff. destruct (Qlt_le_dec a b) as [H|H]; [left | right].
  - now apply Qlt_le_weak.
  - assumption.
Qed.

(** ** Order of the overview table (C8) *)

(** The claim of C8 fails on the code in its last part.  The seventeen
    decks of [tie_df] have the same average matchup win rate and are
    discovered in the order D01, D02, ...; the table with D02 before D01 is
    a result of the sort as the code calls it, with the default sort kind
    (quicksort), which makes no promise on the order of equal keys.  It is
    not the stable order. *)
Lemma overview_ties_not_in_discovery_order :
  exists data out,
    general_performance_data tie_df = Ok data
    /\ gen_perf_df_sorted data out
    /\ map g_deck data = tied_decks ++ ["Zed"]
    /\ map g_deck out = tie_swapped_decks
    /\ map g_deck (spec_overview_order data) = tied_decks ++ ["Zed"]
    /\ out <> spec_overview_order data.
Proof.
  eexists. eexists. split; [vm_compute; reflexivity|].
  split.
  { exists ([1; 0] ++ seq 2 16)%nat. split; [|reflexivity].
    exists (seq 0 16 ++ [17; 16])%nat. split; vm_compute; reflexivity. }
  split; [reflexivity|]. split; [vm_compute; reflexivity|].
  split; [vm_compute; reflexivity|].
  vm_compute. discriminate.
Qed.

Lemma key_ge_Qle_trans {A} (key : A -> option Q) (x y z : A) :
  key_ge Qle_bool key x y -> key_ge Qle_bool key y z -> key_ge Qle_bool key x z.
Proof.
  unfold key_ge.
  destruct (key x), (key y), (key z); try contradiction.
  rewrite !Qle_bool_iff. intros H1 H2. eapply Qle_trans; eassumption.
Qed.

(** C8, as the code has it. The overview rows are computed for every frame
    and the sort has a result; in every result the rows that have an
    average matchup win rate come first, in descending order of it (each
    such row has a rate at least that of every later one), and the rows
    that lack it follow, in discovery order.  Nothing fixes the order of
    rows with equal rates. *)
Theorem overview_sort_order :
  forall df : DataFrame,
  exists data,
    general_performance_data df = Ok data
    /\ (exists out, gen_perf_df_sorted data out)
    /\ forall out,
         gen_perf_df_sorted data out ->
         Permutation out data
         /\ exists with_rate,
              out = with_rate ++ unkeyed g_avg_matchup_wr data
              /\ Permutation with_rate (map fst (keyed g_avg_matchup_wr data))
              /\ (forall row, In row with_rate -> g_avg_matchup_wr row <> None)
              /\ (forall row, In row (unkeyed g_avg_matchup_wr data) ->
                              g_avg_matchup_wr row = None)
              /\ StronglySorted (key_ge Qle_bool g_avg_matchup_wr) with_rate.
Proof.
  intros df. eexists. split; [apply general_performance_data_ok|].
  split; [apply (sort_values_desc_total Qle_bool Qle_bool_total)|].
  intros out Hout. apply sort_values_desc_sorted in Hout.
  destruct Hout as [with_rate [-> [Hperm Hs]]].
  assert (Hkeyed : forall row, In row with_rate -> g_avg_matchup_wr row <> None).
  { intros row Hrow. apply (Permutation_in _ Hperm) in Hrow.
    apply in_map_iff in Hrow. destruct Hrow as [x [<- Hx]].
    apply keyed_key in Hx. destruct Hx as [Hx _].
    rewrite Hx. discriminate. }
  split.
  - rewrite Hperm. apply keyed_unkeyed_perm.
  - exists with_rate. split; [reflexivity|]. split; [exact Hperm|].
    split; [exact Hkeyed|]. split.
    + intros row Hrow. now apply unkeyed_none in Hrow.
    + apply Sorted_StronglySorted; [|exact Hs].
      intros x y z. apply key_ge_Qle_trans.
Qed.

(** ** Rendered dates compare as the dates do *)

Ltac dlia := zify; Z.to_euclidean_division_equations; lia.

Lemma digit_compare (a b : nat) :
  Ascii.compare (digit a) (digit b) = Nat.compare (a mod 10) (b mod 10).
Proof.
  unfold digit.
  assert (Ha : (a mod 10 < 10)%nat) by (apply Nat.mod_upper_bound; discriminate).
  assert (Hb : (b mod 10 < 10)%nat) by (apply Nat.mod_upper_bound; discriminate).
  generalize dependent (a mod 10)%nat. generalize dependent (b mod 10)%nat.
  intros y Hy x Hx.
  do 10 (destruct x as [|x];
         [do 10 (destruct y as [|y]; [reflexivity|]); exfalso; lia|]).
  exfalso; lia.
Qed.

Lemma string_compare_cons (c1 c2 : ascii) (s1 s2 : string) :
  String.compare (String c1 s1) (String c2 s2)
  = match Ascii.compare c1 c2 with
    | Eq => String.compare s1 s2
    | c => c
    end.
Proof. reflexivity. Qed.

Lemma ascii_compare_refl (c : ascii) : Ascii.compare c c = Eq.
Proof. unfold Ascii.compare. apply N.compare_refl. Qed.

Lemma pad2_compare (a b : nat) (s t : string) :
  (a < 100)%nat -> (b < 100)%nat ->
  String.compare (pad2 a ++ s) (pad2 b ++ t)
  = match Nat.compare a b with
    | Eq => String.compare s t
    | c => c
    end.
Proof.
  intros Ha Hb. unfold pad2. cbn [String.append].
  rewrite !string_compare_cons, !digit_compare.
  destruct (Nat.compare_spec ((a / 10) mod 10) ((b / 10) mod 10)) as [E1|E1|E1];
    destruct (Nat.compare_spec (a mod 10) (b mod 10)) as [E2|E2|E2];
    destruct (Nat.compare_spec a b) as [E|E|E];
    try reflexivity; exfalso; dlia.
Qed.

Lemma pad4_compare (a b : nat) (s t : string) :
  (a < 100 * 100)%nat -> (b < 100 * 100)%nat ->
  String.compare (pad4 a ++ s) (pad4 b ++ t)
  = match Nat.compare a b with
    | Eq => String.compare s t
    | c => c
    end.
Proof.
  intros Ha Hb. unfold pad4, pad2. cbn [String.append].
  rewrite !string_compare_cons, !digit_compare.
  destruct (Nat.compare_spec ((a / 1000) mod 10) ((b / 1000) mod 10)) as [E1|E1|E1];
    destruct (Nat.compare_spec ((a / 100) mod 10) ((b / 100) mod 10)) as [E2|E2|E2];
    destruct (Nat.compare_spec ((a / 10) mod 10) ((b / 10) mod 10)) as [E3|E3|E3];
    destruct (Nat.compare_spec (a mod 10) (b mod 10)) as [E4|E4|E4];
    destruct (Nat.compare_spec a b) as [E|E|E];
    try reflexivity; exfalso; dlia.
Qed.

Lemma strftime_compare (a b : Timestamp) :
  valid_date a -> valid_date b ->
  String.compare (strftime_Ymd a) (strftime_Ymd b) = ymd_compare a b.
Proof.
  intros [Hya [Hma Hda]] [Hyb [Hmb Hdb]]. unfold strftime_Ymd, ymd_compare.
  rewrite pad4_compare by lia.
  destruct (Nat.compare (year a) (year b)); try reflexivity.
  cbn [String.append]. rewrite string_compare_cons, ascii_compare_refl.
  rewrite pad2_compare by lia.
  destruct (Nat.compare (month a) (month b)); try reflexivity.
  cbn [String.append]. rewrite string_compare_cons, ascii_compare_refl.
  change (pad2 (day a)) with (pad2 (day a) ++ "")%string.
  change (pad2 (day b)) with (pad2 (day b) ++ "")%string.
  rewrite pad2_compare by lia.
  destruct (Nat.compare (day a) (day b)); reflexivity.
Qed.

(** ** Records with a memo (C9) *)

(** The claim of C9 fails on the code in two ways.  In its deduplication:
    two records of the frame that agree in every column are two records,
    both in the my-deck subset and both with a memo, yet the memo table
    keeps one row, because [drop_duplicates] compares rows by their values.
    In its filter: a record whose memo is the text NaN has a non-blank
    memo, yet the memo table leaves it out, because the filter also drops
    every memo that spells nan. *)
Lemma memo_rows_by_value_and_nan_dropped :
  (List.length (spec_memo_by_identity twice_noted_df "Alpha" ALL_KEY) = 2%nat
   /\ List.length (all_memo_games twice_noted_df "Alpha" ALL_KEY) = 1%nat
   /\ List.length (df_memo_display twice_noted_df "Alpha" ALL_KEY) = 1%nat
   /\ ~ Permutation (all_memo_games twice_noted_df "Alpha" ALL_KEY)
                    (spec_memo_by_identity twice_noted_df "Alpha" ALL_KEY))
  /\ (PyStr.strip (memo nan_noted_record) <> ""
      /\ spec_memo_by_identity [nan_noted_record] "Alpha" ALL_KEY
         = [nan_noted_record]
      /\ all_memo_games [nan_noted_record] "Alpha" ALL_KEY = []
      /\ df_memo_display [nan_noted_record] "Alpha" ALL_KEY = []).
Proof.
  split.
  - split; [reflexivity|]. split; [reflexivity|]. split; [reflexivity|].
    intros H. apply Permutation_length in H. vm_compute in H. discriminate.
  - split; [vm_compute; discriminate|]. repeat split; reflexivity.
Qed.

(** A memo of white space only is blank, whatever the white space: the
    memo table leaves out a record whose memo is an ideographic space. *)
Lemma wide_blank_memo_is_blank :
  PyStr.strip (memo wide_blank_memo_record) = ""
  /\ all_memo_games [wide_blank_memo_record] "Alpha" ALL_KEY = []
  /\ spec_memo_by_identity [wide_blank_memo_record] "Alpha" ALL_KEY = [].
Proof. repeat split; reflexivity. Qed.

Lemma memo_filter_iff (r : MatchRecord) : memo_filter r = true <-> has_memo r.
Proof.
  unfold memo_filter, has_memo.
  rewrite andb_true_iff, !negb_true_iff.
  split; intros [H1 H2]; split;
    first [now apply String.eqb_neq | now apply String.eqb_neq in H1
           | now apply String.eqb_neq in H2].
Qed.

Lemma in_all_memo_games df deck ty (r : MatchRecord) :
  In r (all_memo_games df deck ty)
  <-> In r df
      /\ (cond_my_deck_focus deck ty r = true
          \/ cond_opponent_deck_focus deck ty r = true)
      /\ has_memo r.
Proof.
  unfold all_memo_games, memos_when_my_deck, memos_when_opponent_deck,
    focus_as_my_deck_games, focus_as_opponent_deck_games.
  rewrite in_unique, in_app_iff, !filter_In, memo_filter_iff. tauto.
Qed.

Lemma in_df_memo_display df deck ty (x : MemoRow) :
  In x (df_memo_display df deck ty) ->
  In (memo_record x) df
  /\ memo_date x = option_map strftime_Ymd (date (memo_record x)).
Proof.
  unfold df_memo_display. rewrite in_map_iff. intros [r [<- Hr]].
  apply in_all_memo_games in Hr. cbn. tauto.
Qed.

Lemma string_leb_total (a b : string) :
  String.leb a b = true \/ String.leb b a = true.
Proof. apply String.leb_total. Qed.

(** C9, as the code has it. The records of the memo table are those of the
    my-deck subset and of the opponent subset whose memo, stripped of white
    space, is not empty and which does not spell nan; rows that agree in
    every column are kept once.  Their dates are rendered as calendar
    strings.  The sort by that string, descending, has a result, and in
    every result the dated rows come first, none before a row of a later
    calendar date, and all undated rows come last. *)
Theorem memo_extraction :
  forall (df : DataFrame) (deck : string) (ty : option string),
    dates_valid df -> memo_extraction_holds df deck ty.
Proof.
  intros df deck ty Hvalid. unfold memo_extraction_holds.
  split; [apply NoDup_unique|].
  split; [apply in_all_memo_games|].
  split; [reflexivity|].
  split; [apply (sort_values_desc_total String.leb string_leb_total)|].
  intros out Hout. apply sort_values_desc_sorted in Hout.
  destruct Hout as [dated [-> [Hperm Hs]]].
  set (rows := df_memo_display df deck ty) in *.
  assert (Hdated : forall x, In x dated ->
            In x rows /\ exists s, memo_date x = Some s).
  { intros x Hx. apply (Permutation_in _ Hperm) in Hx.
    apply in_map_iff in Hx. destruct Hx as [[x' s] [E Hx]]. cbn in E. subst x'.
    apply keyed_key in Hx. cbn in Hx. destruct Hx as [Hk Hin].
    split; [exact Hin | now exists s]. }
  assert (Hrender : forall x, In x dated ->
            exists t, date (memo_record x) = Some t
                      /\ memo_date x = Some (strftime_Ymd t)
                      /\ valid_date t).
  { intros x Hx. destruct (Hdated x Hx) as [Hin [s Hsome]].
    apply in_df_memo_display in Hin. destruct Hin as [Hdf Hd].
    destruct (date (memo_record x)) as [t|] eqn:Et.
    - exists t. split; [reflexivity|]. split; [exact Hd|].
      now apply (Hvalid (memo_record x)).
    - rewrite Hd in Hsome. discriminate. }
  split; [rewrite Hperm; apply keyed_unkeyed_perm|].
  exists dated, (unkeyed memo_date rows).
  split; [reflexivity|]. split; [|split].
  - intros x Hx. destruct (Hrender x Hx) as [t [H1 [H2 _]]]. now exists t.
  - intros x Hx. apply unkeyed_none in Hx. destruct Hx as [Hin Hnone].
    apply in_df_memo_display in Hin. destruct Hin as [_ Hd].
    split; [|exact Hnone]. rewrite Hd in Hnone.
    now destruct (date (memo_record x)).
  - apply (Sorted_impl_in (key_ge String.leb memo_date)); [|exact Hs].
    intros x y Hx Hy. unfold key_ge, not_later.
    destruct (Hrender x Hx) as [tx [Ex [Sx Vx]]].
    destruct (Hrender y Hy) as [ty' [Ey [Sy Vy]]].
    rewrite Ex, Ey, Sx, Sy. unfold String.leb.
    rewrite (strftime_compare ty' tx Vy Vx).
    destruct (ymd_compare ty' tx); congruence.
Qed.

Lemma memo_extraction_witness :
  dates_valid memo_df /\ memo_extraction_holds memo_df "Alpha" ALL_KEY.
Proof.
  assert (H : dates_valid memo_df).
  { intros r t [<-|[<-|[<-|[<-|[]]]]] E; try discriminate E;
      injection E as <-; unfold valid_date; cbn; lia. }
  split; [exact H|]. apply (memo_extraction memo_df "Alpha" ALL_KEY H).
Defined.

(** * Further properties of the analysis *)

(** ** Counts and percentages *)

Lemma len_filter_le {A} (p : A -> bool) (l : list A) : len (filter p l) <= len l.
Proof.
  induction l as [|x l IH]; simpl; [reflexivity|].
  destruct (p x); rewrite ?len_cons; lia.
Qed.

Lemma len_where_eq_le col v (df : DataFrame) : len (where_eq col v df) <= len df.
Proof. apply len_filter_le. Qed.

Lemma pct_in_range (w n : Z) :
  0 <= w <= n -> 0 < n -> in_percent_range (pct w n).
Proof.
  intros Hw Hn. unfold in_percent_range, pct.
  destruct n as [|p|p]; try lia.
  unfold Qle, Qdiv, Qmult, Qinv, inject_Z. simpl. split; nia.
Qed.

Lemma rate_opt_in_range (w n : Z) : 0 <= w <= n -> rate_in_range (rate_opt w n).
Proof.
  intros Hw. unfold rate_opt. destruct (0 <? n) eqn:E; [|exact I].
  apply Z.ltb_lt in E. now apply pct_in_range.
Qed.

Lemma Qsum_bounds (lo hi : Q) (l : list Q) :
  (forall x, In x l -> lo <= x <= hi)%Q ->
  (lo * inject_Z (len l) <= Qsum l <= hi * inject_Z (len l))%Q.
Proof.
  induction l as [|x l IH]; intros H.
  - unfold len; simpl. split; rewrite Qmult_0_r; apply Qle_refl.
  - assert (Hx := H x (or_introl eq_refl)).
    assert (IH' := IH (fun y Hy => H y (or_intror Hy))).
    rewrite len_cons, inject_Z_plus. simpl Qsum.
    destruct Hx as [Hx1 Hx2], IH' as [IH1 IH2]. split.
    + setoid_replace (lo * (inject_Z (len l) + inject_Z 1))%Q
        with (lo + lo * inject_Z (len l))%Q by ring.
      now apply Qplus_le_compat.
    + setoid_replace (hi * (inject_Z (len l) + inject_Z 1))%Q
        with (hi + hi * inject_Z (len l))%Q by ring.
      now apply Qplus_le_compat.
Qed.

(** The mean of a series lies between any two bounds of its members. *)
Lemma series_mean_bounds (lo hi : Q) (l : list Q) (m : Q) :
  (forall x, In x l -> lo <= x <= hi)%Q ->
  series_mean l = Some m -> (lo <= m <= hi)%Q.
Proof.
  intros H Hm. destruct l as [|x l]; [discriminate|].
  unfold series_mean in Hm. injection Hm as <-.
  pose proof (Qsum_bounds lo hi (x :: l) H) as [H1 H2].
  assert (Hpos : (0 < inject_Z (len (x :: l)))%Q).
  { rewrite len_cons. pose proof (len_nonneg l).
    unfold Qlt, inject_Z. simpl. lia. }
  split.
  - apply Qle_shift_div_l; assumption.
  - apply Qle_shift_div_r; assumption.
Qed.

Lemma mean_or_none_bounds (lo hi : Q) (l : list Q) (m : Q) :
  (forall x, In x l -> lo <= x <= hi)%Q ->
  mean_or_none l = Some m -> (lo <= m <= hi)%Q.
Proof.
  unfold mean_or_none. destruct (is_empty l); [discriminate|].
  apply series_mean_bounds.
Qed.

(** ** The overview table *)

Lemma discovered_deck_appears (df : DataFrame) (a : string) :
  In a (get_all_analyzable_deck_names df) ->
  PyStr.truthy a = true /\ 0 < total_appearances_deck_a df a.
Proof.
  intros H. apply in_deck_names in H. destruct H as [[Hne _] [r [Hr Hn]]].
  split; [now apply truthy_iff|].
  unfold total_appearances_deck_a, count_as_my_deck, count_as_opponent_deck,
    games_as_my_deck_df, games_as_opponent_deck_df.
  pose proof (len_nonneg (where_eq my_deck a df)).
  pose proof (len_nonneg (where_eq opponent_deck a df)).
  destruct Hn as [Hn|Hn].
  - assert (0 < len (where_eq my_deck a df)); [|lia].
    apply (len_filter_pos _ _ r Hr). now apply String.eqb_eq.
  - assert (0 < len (where_eq opponent_deck a df)); [|lia].
    apply (len_filter_pos _ _ r Hr). now apply String.eqb_eq.
Qed.

Lemma general_performance_data_rows (df : DataFrame) :
  general_performance_data df
  = Ok (map (deck_a_row_value df) (get_all_analyzable_deck_names df)).
Proof.
  rewrite general_performance_data_ok. f_equal.
  apply somes_map_some. intros a Ha.
  apply discovered_deck_appears in Ha. destruct Ha as [Ht Hp].
  apply Z.ltb_lt in Hp. now rewrite Ht, Hp.
Qed.

Lemma overview_wins_bounds (df : DataFrame) (a : string) :
  0 <= total_wins_deck_a df a <= total_appearances_deck_a df a.
Proof.
  unfold total_wins_deck_a, total_appearances_deck_a, wins_as_my_deck,
    wins_as_opponent_deck, count_as_my_deck, count_as_opponent_deck.
  pose proof (len_where_eq_le result WIN (games_as_my_deck_df df a)).
  pose proof (len_where_eq_le result LOSS (games_as_opponent_deck_df df a)).
  pose proof (len_nonneg (where_eq result WIN (games_as_my_deck_df df a))).
  pose proof (len_nonneg (where_eq result LOSS (games_as_opponent_deck_df df a))).
  lia.
Qed.

Lemma overview_first_bounds (df : DataFrame) (a : string) :
  0 <= wins_deck_a_first df a <= total_games_deck_a_first df a
  /\ total_games_deck_a_first df a <= total_appearances_deck_a df a.
Proof.
  unfold wins_deck_a_first, total_games_deck_a_first, total_appearances_deck_a,
    count_as_my_deck, count_as_opponent_deck, deck_a_first_as_my,
    deck_a_first_as_opp.
  pose proof (len_where_eq_le first_second FIRST (games_as_my_deck_df df a)).
  pose proof (len_where_eq_le first_second SECOND (games_as_opponent_deck_df df a)).
  pose proof (len_where_eq_le result WIN
                (where_eq first_second FIRST (games_as_my_deck_df df a))).
  pose proof (len_where_eq_le result LOSS
                (where_eq first_second SECOND (games_as_opponent_deck_df df a))).
  pose proof (len_nonneg (where_eq result WIN
                (where_eq first_second FIRST (games_as_my_deck_df df a)))).
  pose proof (len_nonneg (where_eq result LOSS
                (where_eq first_second SECOND (games_as_opponent_deck_df df a)))).
  lia.
Qed.

Lemma overview_second_bounds (df : DataFrame) (a : string) :
  0 <= wins_deck_a_second df a <= total_games_deck_a_second df a.
Proof.
  unfold wins_deck_a_second, total_games_deck_a_second, deck_a_second_as_my,
    deck_a_second_as_opp.
  pose proof (len_where_eq_le result WIN
                (where_eq first_second SECOND (games_as_my_deck_df df a))).
  pose proof (len_where_eq_le result LOSS
                (where_eq first_second FIRST (games_as_opponent_deck_df df a))).
  pose proof (len_nonneg (where_eq result WIN
                (where_eq first_second SECOND (games_as_my_deck_df df a)))).
  pose proof (len_nonneg (where_eq result LOSS
                (where_eq first_second FIRST (games_as_opponent_deck_df df a)))).
  lia.
Qed.

(** X1. The overview has exactly one row per discovered archetype, in the
    order of discovery (ascending by name): no discovered archetype is
    dropped by the guard on its appearances, and no row is produced for
    anything else. *)
Theorem overview_has_one_row_per_archetype :
  forall df : DataFrame,
  exists rows,
    general_performance_data df = Ok rows
    /\ map g_deck rows = get_all_analyzable_deck_names df
    /\ List.length rows = List.length (get_all_analyzable_deck_names df).
Proof.
  intros df. eexists. split; [apply general_performance_data_rows|].
  rewrite map_map, length_map. cbn. split; [apply map_id | reflexivity].
Qed.

(** X2. In every overview row the appearances are the records that name the
    deck as [my_deck] plus those that name it as [opponent_deck]; wins and
    losses are non-negative, each at most the appearances, and add up to
    them; the first-seat games are at most the appearances. *)
Theorem overview_row_conservation :
  forall df : DataFrame,
  exists rows,
    general_performance_data df = Ok rows
    /\ forall row, In row rows -> overview_row_counts df row.
Proof.
  intros df. eexists. split; [apply general_performance_data_rows|].
  intros row Hrow. apply in_map_iff in Hrow. destruct Hrow as [a [<- _]].
  unfold overview_row_counts. cbn.
  pose proof (overview_wins_bounds df a).
  pose proof (overview_first_bounds df a) as [Hf1 Hf2].
  unfold total_losses_deck_a.
  repeat split; try lia.
Qed.

(** X3. Every rate of every overview row is a percentage between 0 and 100
    or is missing: the overall win rate, the average matchup win rate and
    the two seat rates. *)
Theorem overview_rates_in_range :
  forall df : DataFrame,
  exists rows,
    general_performance_data df = Ok rows
    /\ forall row, In row rows -> overview_row_rates_in_range row.
Proof.
  intros df. eexists. split; [apply general_performance_data_rows|].
  intros row Hrow. apply in_map_iff in Hrow. destruct Hrow as [a [<- Ha]].
  apply discovered_deck_appears in Ha. destruct Ha as [_ Hpos].
  unfold overview_row_rates_in_range. cbn.
  split; [apply pct_in_range; [apply overview_wins_bounds | exact Hpos]|].
  split.
  - destruct (mean_or_none (matchup_win_rates_value df a)) as [m|] eqn:E;
      [|exact I].
    apply (mean_or_none_bounds 0 100 _ m) in E; [exact E|].
    intros x Hx. unfold matchup_win_rates_value in Hx.
    apply in_map_iff in Hx. destruct Hx as [b [<- Hb]].
    apply filter_In in Hb. destruct Hb as [_ Hb]. apply Z.ltb_lt in Hb.
    apply pct_in_range; [|exact Hb].
    unfold total_wins_for_a_vs_specific_opponent,
      total_games_vs_specific_opponent.
    pose proof (len_where_eq_le result WIN (a_vs_opp_my_games df a b)).
    pose proof (len_where_eq_le result LOSS (a_vs_opp_opponent_games df a b)).
    pose proof (len_nonneg (where_eq result WIN (a_vs_opp_my_games df a b))).
    pose proof (len_nonneg (where_eq result LOSS (a_vs_opp_opponent_games df a b))).
    lia.
  - split; apply rate_opt_in_range.
    + apply overview_first_bounds.
    + apply overview_second_bounds.
Qed.

Lemma NoDup_deck_names (df : DataFrame) : NoDup (get_all_analyzable_deck_names df).
Proof.
  unfold get_all_analyzable_deck_names.
  apply NoDup_sorted, NoDup_filter, NoDup_unique.
Qed.

(** Summing, over the discovered archetypes, the records that carry the
    archetype in column [col] and satisfy [q] counts every record with a
    usable name in that column and [q] once. *)
Lemma sum_over_deck_names (col : MatchRecord -> string) (q : MatchRecord -> bool)
      (df : DataFrame) :
  (col = my_deck \/ col = opponent_deck) ->
  Zsum (map (fun a => len (filter q (where_eq col a df)))
            (get_all_analyzable_deck_names df))
  = len (filter (fun r => analyzable (col r) && q r) df).
Proof.
  intros Hcol.
  rewrite <- (len_filter_partition col (fun r => analyzable (col r) && q r)
                (get_all_analyzable_deck_names df) df (NoDup_deck_names df)).
  - f_equal. apply map_ext_in. intros a Ha.
    unfold where_eq. rewrite filter_filter. f_equal. apply filter_ext. intros r.
    destruct (seq_str (col r) a) eqn:E; [|now rewrite andb_false_r].
    apply String.eqb_eq in E. rewrite E.
    apply in_deck_names in Ha. destruct Ha as [Ha _].
    apply analyzable_iff in Ha. rewrite Ha. simpl. now rewrite andb_true_r.
  - intros r Hr Hp. apply andb_true_iff in Hp. destruct Hp as [Hp _].
    apply in_deck_names. split; [now apply analyzable_iff|].
    exists r. split; [exact Hr|]. unfold names_deck.
    destruct Hcol as [-> | ->]; tauto.
Qed.

Lemma filter_true {A} (l : list A) : filter (fun _ => true) l = l.
Proof. induction l as [|x l IH]; simpl; congruence. Qed.

Lemma len_filter_complement {A} (p q : A -> bool) (l : list A) :
  (forall x, In x l -> xorb (p x) (q x) = true) ->
  len (filter p l) + len (filter q l) = len l.
Proof.
  induction l as [|x l IH]; intros H; [reflexivity|].
  assert (Hx := H x (or_introl eq_refl)).
  assert (IH' := IH (fun y Hy => H y (or_intror Hy))).
  cbn [filter]. destruct (p x), (q x); cbn in Hx; try discriminate;
    rewrite ?len_cons; lia.
Qed.

(** X4. The overview counts every side of every game once: the appearances
    of all rows add up to the number of record sides that carry a usable
    deck name, which is twice the number of records when every deck name is
    usable; when, in addition, every result is WIN or LOSS, the wins of all
    rows add up to the number of records and so do the losses (each game
    has one winner and one loser). *)
Theorem overview_totals :
  forall df : DataFrame,
  exists rows,
    general_performance_data df = Ok rows
    /\ Zsum (map g_total_appearances rows) = usable_sides df
    /\ (names_usable df -> Zsum (map g_total_appearances rows) = 2 * len df)
    /\ (names_usable df -> all_results_well_formed df ->
        Zsum (map g_total_wins rows) = len df
        /\ Zsum (map g_total_losses rows) = len df).
Proof.
  intros df. eexists. split; [apply general_performance_data_rows|].
  rewrite !map_map. cbn [g_total_appearances g_total_wins g_total_losses
                           deck_a_row_value].
  assert (Happ : Zsum (map (total_appearances_deck_a df)
                           (get_all_analyzable_deck_names df))
                 = usable_sides df).
  { unfold total_appearances_deck_a, count_as_my_deck, count_as_opponent_deck,
      games_as_my_deck_df, games_as_opponent_deck_df, usable_sides.
    rewrite Zsum_map_add.
    pose proof (sum_over_deck_names my_deck (fun _ => true) df
                  (or_introl eq_refl)) as H1.
    pose proof (sum_over_deck_names opponent_deck (fun _ => true) df
                  (or_intror eq_refl)) as H2.
    rewrite (map_ext _ (fun a => len (where_eq my_deck a df))
               (fun a => f_equal len (filter_true _))) in H1.
    rewrite (map_ext _ (fun a => len (where_eq opponent_deck a df))
               (fun a => f_equal len (filter_true _))) in H2.
    rewrite H1, H2. f_equal; f_equal; apply filter_ext; intros r;
      apply andb_true_r. }
  assert (Hall : names_usable df -> usable_sides df = 2 * len df).
  { intros Hn. unfold usable_sides.
    rewrite !filter_all; [lia | |]; intros r Hr; apply analyzable_iff;
      now apply Hn. }
  assert (Hwins : names_usable df -> all_results_well_formed df ->
                  Zsum (map (total_wins_deck_a df)
                            (get_all_analyzable_deck_names df)) = len df).
  { intros Hn Hw.
    unfold total_wins_deck_a, wins_as_my_deck, wins_as_opponent_deck,
      games_as_my_deck_df, games_as_opponent_deck_df.
    rewrite Zsum_map_add.
    unfold where_eq at 1 3.
    rewrite (sum_over_deck_names my_deck _ df (or_introl eq_refl)).
    rewrite (sum_over_deck_names opponent_deck _ df (or_intror eq_refl)).
    rewrite (filter_ext_in _ (fun r => seq_str (result r) WIN)).
    2:{ intros r Hr. destruct (Hn r Hr) as [H1 _].
        apply analyzable_iff in H1. now rewrite H1. }
    rewrite (filter_ext_in (fun r => analyzable (opponent_deck r) && _)
               (fun r => seq_str (result r) LOSS)).
    2:{ intros r Hr. destruct (Hn r Hr) as [_ H1].
        apply analyzable_iff in H1. now rewrite H1. }
    apply len_filter_complement. intros r Hr.
    destruct (Hw r Hr) as [-> | ->]; reflexivity. }
  split; [exact Happ|]. split.
  - intros Hn. rewrite <- (Hall Hn). exact Happ.
  - intros Hn Hw. split; [exact (Hwins Hn Hw)|].
    unfold total_losses_deck_a.
    assert (E : forall l, Zsum (map (fun a => total_appearances_deck_a df a
                                              - total_wins_deck_a df a) l)
                          = Zsum (map (total_appearances_deck_a df) l)
                            - Zsum (map (total_wins_deck_a df) l)).
    { induction l as [|x l IH]; simpl; [reflexivity | rewrite IH; lia]. }
    etransitivity; [apply E|].
    rewrite Happ, Hall, Hwins by assumption. lia.
Qed.

Lemma overview_totals_witness :
  names_usable scenario_df
  /\ all_results_well_formed scenario_df
  /\ exists rows,
       general_performance_data scenario_df = Ok rows
       /\ Zsum (map g_total_appearances rows) = 2 * len scenario_df
       /\ Zsum (map g_total_wins rows) = len scenario_df
       /\ Zsum (map g_total_losses rows) = len scenario_df.
Proof.
  assert (Hn : names_usable scenario_df).
  { intros r [<-|[<-|[]]]; repeat split; cbv; discriminate. }
  assert (Hr : all_results_well_formed scenario_df).
  { intros r [<-|[<-|[]]]; [left | right]; reflexivity. }
  split; [exact Hn|]. split; [exact Hr|].
  destruct (overview_totals scenario_df) as [rows [E [_ [Ha Hw]]]].
  exists rows. split; [exact E|]. split; [exact (Ha Hn)|].
  exact (Hw Hn Hr).
Defined.

(** ** The focus analysis and the overview *)

Lemma focus_all_counts (df : DataFrame) (a : string) :
  total_appearances df a ALL_KEY = total_appearances_deck_a df a
  /\ total_wins_for_focus_deck df a ALL_KEY = total_wins_deck_a df a
  /\ total_games_focus_first df a ALL_KEY = total_games_deck_a_first df a
  /\ wins_focus_first df a ALL_KEY = wins_deck_a_first df a
  /\ total_games_focus_second df a ALL_KEY = total_games_deck_a_second df a
  /\ wins_focus_second df a ALL_KEY = wins_deck_a_second df a.
Proof.
  unfold total_appearances, total_wins_for_focus_deck, total_games_focus_first,
    wins_focus_first, total_games_focus_second, wins_focus_second,
    wins_when_focus_is_my_deck_df, wins_when_focus_is_opponent_deck_df,
    focus_first_my, focus_first_opp, focus_second_my, focus_second_opp.
  rewrite (focus_as_my_deck_games_all df a ALL_KEY type_filter_all_key).
  rewrite (focus_as_opponent_deck_games_all df a ALL_KEY type_filter_all_key).
  repeat split.
Qed.

(** X5. The two code paths agree: for every discovered archetype, the
    analysis of the key (archetype, ALL) and the archetype's overview row
    both exist and show the same appearances, wins, losses, overall win
    rate, first-seat games and seat win rates. *)
Theorem focus_all_types_agrees_with_overview :
  forall (df : DataFrame) (a : string),
    In a (get_all_analyzable_deck_names df) ->
    exists fr rows row,
      focus_report df a ALL_KEY = Ok (Some fr)
      /\ general_performance_data df = Ok rows
      /\ In row rows
      /\ g_deck row = a
      /\ focus_matches_overview_row fr row.
Proof.
  intros df a Ha.
  pose proof (discovered_deck_appears df a Ha) as [_ Hpos].
  destruct (focus_all_counts df a) as [E1 [E2 [E3 [E4 [E5 E6]]]]].
  exists (focus_report_value df a ALL_KEY).
  exists (map (deck_a_row_value df) (get_all_analyzable_deck_names df)).
  exists (deck_a_row_value df a).
  split.
  { rewrite focus_report_ok.
    destruct (total_appearances df a ALL_KEY =? 0) eqn:E; [|reflexivity].
    apply Z.eqb_eq in E. lia. }
  split; [apply general_performance_data_rows|].
  split; [now apply in_map|]. split; [reflexivity|].
  unfold focus_matches_overview_row. cbn.
  unfold total_losses_for_focus_deck, total_losses_deck_a.
  rewrite E1, E2, E3, E4, E5, E6. repeat split.
Qed.

Lemma focus_all_types_agrees_with_overview_witness :
  In "Alpha" (get_all_analyzable_deck_names scenario_df)
  /\ exists fr rows row,
       focus_report scenario_df "Alpha" ALL_KEY = Ok (Some fr)
       /\ general_performance_data scenario_df = Ok rows
       /\ In row rows
       /\ g_deck row = "Alpha"
       /\ focus_matches_overview_row fr row.
Proof.
  assert (H : In "Alpha" (get_all_analyzable_deck_names scenario_df))
    by (left; reflexivity).
  split; [exact H|].
  exact (focus_all_types_agrees_with_overview scenario_df "Alpha" H).
Defined.

Lemma total_appearances_zero_iff df deck ty :
  total_appearances df deck ty = 0
  <-> forall r, In r df ->
        cond_my_deck_focus deck ty r = false
        /\ cond_opponent_deck_focus deck ty r = false.
Proof.
  unfold total_appearances, focus_as_my_deck_games, focus_as_opponent_deck_games.
  pose proof (len_nonneg (filter (cond_my_deck_focus deck ty) df)) as H1.
  pose proof (len_nonneg (filter (cond_opponent_deck_focus deck ty) df)) as H2.
  split.
  - intros H r Hr. split.
    + destruct (cond_my_deck_focus deck ty r) eqn:E; [|reflexivity].
      pose proof (len_filter_pos _ _ r Hr E). lia.
    + destruct (cond_opponent_deck_focus deck ty r) eqn:E; [|reflexivity].
      pose proof (len_filter_pos _ _ r Hr E). lia.
  - intros H.
    assert (E1 : filter (cond_my_deck_focus deck ty) df = []).
    { destruct (filter (cond_my_deck_focus deck ty) df) as [|x l] eqn:E;
        [reflexivity|].
      assert (Hx : In x (filter (cond_my_deck_focus deck ty) df))
        by (rewrite E; now left).
      apply filter_In in Hx. destruct Hx as [Hx Hc].
      destruct (H x Hx) as [Hf _]. congruence. }
    assert (E2 : filter (cond_opponent_deck_focus deck ty) df = []).
    { destruct (filter (cond_opponent_deck_focus deck ty) df) as [|x l] eqn:E;
        [reflexivity|].
      assert (Hx : In x (filter (cond_opponent_deck_focus deck ty) df))
        by (rewrite E; now left).
      apply filter_In in Hx. destruct Hx as [Hx Hc].
      destruct (H x Hx) as [_ Hf]. congruence. }
    rewrite E1, E2. reflexivity.
Qed.

(** X6. The analysis of a focus key ends with the no-record notice exactly
    when no record of the frame has the key on either side; in every other
    case it produces a report. *)
Theorem focus_report_none_iff_no_record :
  forall (df : DataFrame) (deck : string) (ty : option string),
    (focus_report df deck ty = Ok None
     <-> forall r, In r df ->
           cond_my_deck_focus deck ty r = false
           /\ cond_opponent_deck_focus deck ty r = false)
    /\ ((exists fr, focus_report df deck ty = Ok (Some fr))
        <-> exists r, In r df
                      /\ (cond_my_deck_focus deck ty r = true
                          \/ cond_opponent_deck_focus deck ty r = true)).
Proof.
  intros df deck ty. rewrite focus_report_ok.
  pose proof (total_appearances_zero_iff df deck ty) as Hz.
  destruct (total_appearances df deck ty =? 0) eqn:E.
  - apply Z.eqb_eq in E. split.
    + split; [intros _; now apply Hz | reflexivity].
    + split; [intros [fr Hfr]; discriminate|]. intros [r [Hr Hc]].
      destruct (proj1 Hz E r Hr) as [H1 H2]. rewrite H1, H2 in Hc.
      destruct Hc; discriminate.
  - apply Z.eqb_neq in E. split.
    + split; [discriminate|]. intros H. apply Hz in H. contradiction.
    + split; [|intros _; eexists; reflexivity]. intros _.
      destruct (existsb (fun r => cond_my_deck_focus deck ty r
                                  || cond_opponent_deck_focus deck ty r) df)
        eqn:Ex.
      * apply existsb_exists in Ex. destruct Ex as [r [Hr Hc]].
        exists r. split; [exact Hr|]. now apply orb_true_iff.
      * exfalso. apply E, Hz. intros r Hr.
        assert (Hf : cond_my_deck_focus deck ty r
                     || cond_opponent_deck_focus deck ty r = false).
        { destruct (cond_my_deck_focus deck ty r
                    || cond_opponent_deck_focus deck ty r) eqn:Ec;
            [|reflexivity].
          assert (existsb (fun r => cond_my_deck_focus deck ty r
                                    || cond_opponent_deck_focus deck ty r) df
                  = true) by (apply existsb_exists; now exists r).
          congruence. }
        now apply orb_false_iff in Hf.
Qed.

(** ** Discovery of archetypes and types *)

Lemma dropna_if_nonempty (f : MatchRecord -> string) (l : DataFrame) :
  (if negb (is_empty l) then dropna_empty (map f l) else [])
  = dropna_empty (map f l).
Proof. destruct l; reflexivity. Qed.

Lemma types_of_selected_deck (df : DataFrame) (d : string) :
  PyStr.truthy d = true -> d <> SELECT_PLACEHOLDER ->
  get_all_types_for_archetype df d
  = ALL_TYPES_PLACEHOLDER
    :: sorted String.leb
         (filter analyzable
            (unique string_dec
               (dropna_empty (map my_deck_type (where_eq my_deck d df))
                ++ dropna_empty (map opponent_deck_type
                                     (where_eq opponent_deck d df))))).
Proof.
  intros Ht Hd. unfold get_all_types_for_archetype.
  apply String.eqb_neq in Hd. rewrite Ht, Hd. cbn [negb orb].
  now rewrite !dropna_if_nonempty.
Qed.

Lemma types_of_deck_characterised (df : DataFrame) (d : string) :
  d <> "" -> d <> SELECT_PLACEHOLDER ->
  exists types,
    get_all_types_for_archetype df d = ALL_TYPES_PLACEHOLDER :: types
    /\ ascending types
    /\ NoDup types
    /\ forall t, In t types
                 <-> valid_name t /\ exists r, In r df /\ has_type r d t.
Proof.
  intros Hne Hd. apply truthy_iff in Hne.
  eexists. split; [apply types_of_selected_deck; assumption|].
  split; [apply sorted_Sorted, String.leb_total|].
  split; [apply NoDup_sorted, NoDup_filter, NoDup_unique|].
  intros t. rewrite in_sorted, filter_In, in_unique, in_app_iff,
    !in_dropna_empty, !in_map_iff, analyzable_iff.
  unfold has_type, where_eq. split.
  - intros [[[[r [E Hr]] _] | [[r [E Hr]] _]] Hv]; (split; [exact Hv|]);
      apply filter_In in Hr; destruct Hr as [Hr Hc];
      apply String.eqb_eq in Hc; exists r; tauto.
  - intros [Hv [r [Hr [[H1 H2]|[H1 H2]]]]]; (split; [|exact Hv]);
      [left | right]; (split; [|apply Hv]); exists r;
      (split; [exact H2|]); apply filter_In; (split; [exact Hr|]);
      now apply String.eqb_eq.
Qed.

(** X7. Archetype discovery returns the names in ascending order without
    duplicates.  Type discovery returns the ALL entry alone when no deck is
    selected; for a selected deck it returns the ALL entry followed, in
    ascending order and without duplicates, by exactly the usable types
    with which the deck is recorded on either side of some record. *)
Theorem discovery_sorted_and_complete :
  forall (df : DataFrame),
    ascending (get_all_analyzable_deck_names df)
    /\ NoDup (get_all_analyzable_deck_names df)
    /\ get_all_types_for_archetype df "" = [ALL_TYPES_PLACEHOLDER]
    /\ get_all_types_for_archetype df SELECT_PLACEHOLDER = [ALL_TYPES_PLACEHOLDER]
    /\ forall d, d <> "" -> d <> SELECT_PLACEHOLDER ->
         exists types,
           get_all_types_for_archetype df d = ALL_TYPES_PLACEHOLDER :: types
           /\ ascending types
           /\ NoDup types
           /\ forall t, In t types
                        <-> valid_name t /\ exists r, In r df /\ has_type r d t.
Proof.
  intros df.
  split; [apply sorted_Sorted, String.leb_total|].
  split; [apply NoDup_deck_names|].
  split; [reflexivity|]. split; [reflexivity|].
  intros d Hne Hd. now apply types_of_deck_characterised.
Qed.

(** X8. Whatever the selectors offer has records: for every discovered
    archetype and every entry that type discovery returns for it (the ALL
    entry or a type), the analysis of that key finds at least one record
    and produces a report; the no-record notice cannot be reached from the
    offered options. *)
Theorem offered_selection_has_records :
  forall (df : DataFrame) (deck t : string),
    In deck (get_all_analyzable_deck_names df) ->
    In t (get_all_types_for_archetype df deck) ->
    0 < total_appearances df deck (Some t)
    /\ exists fr, focus_report df deck (Some t) = Ok (Some fr).
Proof.
  intros df deck t Hdeck Ht.
  assert (Hpos : 0 < total_appearances df deck (Some t)).
  { destruct (type_filter (Some t)) as [t'|] eqn:Etf.
    - (* a concrete type: it was read off a record of the deck *)
      assert (Et : t' = t).
      { cbn in Etf. destruct (PyStr.truthy t && _); congruence. }
      subst t'.
      assert (Hall : t <> ALL_TYPES_PLACEHOLDER).
      { intros ->. discriminate Etf. }
      pose proof Hdeck as Hv. apply in_deck_names in Hv. destruct Hv as [[Hne _] _].
      destruct (string_dec deck SELECT_PLACEHOLDER) as [Hsel|Hsel].
      { exfalso. unfold get_all_types_for_archetype in Ht.
        rewrite Hsel, String.eqb_refl, orb_true_r in Ht.
        destruct Ht as [Ht|[]]. congruence. }
      destruct (types_of_deck_characterised df deck Hne Hsel)
        as [types [E [_ [_ Hin]]]].
      rewrite E in Ht. destruct Ht as [Ht|Ht]; [congruence|].
      apply Hin in Ht. destruct Ht as [_ [r [Hr Hty]]].
      unfold total_appearances.
      pose proof (len_nonneg (focus_as_my_deck_games df deck (Some t))).
      pose proof (len_nonneg (focus_as_opponent_deck_games df deck (Some t))).
      destruct Hty as [[H1 H2]|[H1 H2]].
      + assert (0 < len (focus_as_my_deck_games df deck (Some t))); [|lia].
        apply (len_filter_pos _ _ r Hr).
        apply cond_my_deck_focus_true; [exact H1|]. right. now rewrite H2.
      + assert (0 < len (focus_as_opponent_deck_games df deck (Some t))); [|lia].
        apply (len_filter_pos _ _ r Hr).
        apply cond_opponent_deck_focus_true; [exact H1|]. right. now rewrite H2.
    - (* no type filter: any record of the deck counts *)
      apply in_deck_names in Hdeck. destruct Hdeck as [_ [r [Hr Hn]]].
      unfold total_appearances.
      pose proof (len_nonneg (focus_as_my_deck_games df deck (Some t))).
      pose proof (len_nonneg (focus_as_opponent_deck_games df deck (Some t))).
      destruct Hn as [Hn|Hn].
      + assert (0 < len (focus_as_my_deck_games df deck (Some t))); [|lia].
        apply (len_filter_pos _ _ r Hr).
        apply cond_my_deck_focus_true; [exact Hn | now left].
      + assert (0 < len (focus_as_opponent_deck_games df deck (Some t))); [|lia].
        apply (len_filter_pos _ _ r Hr).
        apply cond_opponent_deck_focus_true; [exact Hn | now left]. }
  split; [exact Hpos|].
  exists (focus_report_value df deck (Some t)). rewrite focus_report_ok.
  destruct (total_appearances df deck (Some t) =? 0) eqn:E; [|reflexivity].
  apply Z.eqb_eq in E. lia.
Qed.

Lemma offered_selection_has_records_witness :
  In "Alpha" (get_all_analyzable_deck_names scenario_df)
  /\ In "Red" (get_all_types_for_archetype scenario_df "Alpha")
  /\ 0 < total_appearances scenario_df "Alpha" (Some "Red")
  /\ exists fr, focus_report scenario_df "Alpha" (Some "Red") = Ok (Some fr).
Proof.
  assert (H1 : In "Alpha" (get_all_analyzable_deck_names scenario_df))
    by (left; reflexivity).
  assert (H2 : In "Red" (get_all_types_for_archetype scenario_df "Alpha"))
    by (right; left; reflexivity).
  split; [exact H1|]. split; [exact H2|].
  exact (offered_selection_has_records scenario_df "Alpha" "Red" H1 H2).
Defined.

(** ** More on the matchup tables *)

Lemma rows_of_specific_field {B} (f : MatchupRow -> B) df deck ty (b : string) :
  map f (rows_of b (matchup_data_value df deck ty))
  = map (fun k => f (specific_row_value df deck ty (b, k)))
        (faced_types df deck ty b).
Proof.
  unfold rows_of, faced_types. rewrite matchup_data_value_eq, filter_map_comm.
  rewrite !map_map. apply map_ext_in. intros [n k] Ht.
  apply filter_In in Ht. destruct Ht as [_ Ht]. cbn in Ht.
  apply String.eqb_eq in Ht. now subst n.
Qed.

(** A count over the games against [b], split by the type of [b]. *)
Lemma specific_stat_sum df deck ty (b : string) (q1 q2 : MatchRecord -> bool) :
  valid_name b ->
  Zsum (map (fun k => len (filter q1 (case1_games df deck ty b k))
                      + len (filter q2 (case2_games df deck ty b k)))
            (faced_types df deck ty b))
  = len (filter q1 (case1_agg_games_total df deck ty b))
    + len (filter q2 (case2_agg_games_total df deck ty b)).
Proof.
  intros Hb. rewrite Zsum_map_add. f_equal.
  - unfold case1_agg_games_total, where_eq. rewrite filter_filter.
    rewrite <- (len_filter_partition opponent_deck_type
                  (fun r => seq_str (opponent_deck r) b && q1 r)
                  (faced_types df deck ty b) (focus_as_my_deck_games df deck ty)
                  (NoDup_faced_types df deck ty b)).
    + f_equal. apply map_ext. intros k. unfold case1_games.
      rewrite filter_filter. f_equal. apply filter_ext. intros r.
      destruct (seq_str (opponent_deck r) b), (q1 r),
        (seq_str (opponent_deck_type r) k); reflexivity.
    + intros r Hr Hp. apply andb_true_iff in Hp. destruct Hp as [Hp _].
      now apply faced_types_cover_my.
  - unfold case2_agg_games_total, where_eq. rewrite filter_filter.
    rewrite <- (len_filter_partition my_deck_type
                  (fun r => seq_str (my_deck r) b && q2 r)
                  (faced_types df deck ty b)
                  (focus_as_opponent_deck_games df deck ty)
                  (NoDup_faced_types df deck ty b)).
    + f_equal. apply map_ext. intros k. unfold case2_games.
      rewrite filter_filter. f_equal. apply filter_ext. intros r.
      destruct (seq_str (my_deck r) b), (q2 r),
        (seq_str (my_deck_type r) k); reflexivity.
    + intros r Hr Hp. apply andb_true_iff in Hp. destruct Hp as [Hp _].
      now apply faced_types_cover_opp.
Qed.

Lemma pooled_row_of_table df deck ty (pooled : MatchupRow) :
  In pooled (agg_matchup_data_value df deck ty) ->
  valid_name (m_opp_deck pooled)
  /\ pooled = matchup_row_value (m_opp_deck pooled) ALL_TYPES_PLACEHOLDER
                (case1_agg_games_total df deck ty (m_opp_deck pooled))
                (case2_agg_games_total df deck ty (m_opp_deck pooled)).
Proof.
  intros Hp. split; [now apply agg_matchup_data_value_valid in Hp|].
  apply in_agg_matchup_data_value in Hp. destruct Hp as [b [_ Hp]].
  apply pooled_row_opt_some in Hp. rewrite Hp at 1. now rewrite Hp.
Qed.

(** X9. In the matchup tables of any focus key, the wins of a pooled
    (ALL-types) row are the sum of the wins of the specific-type rows of the
    same opponent deck, and so are its first-seat games. *)
Theorem pooled_wins_sum_specific_rows :
  forall (df : DataFrame) (deck : string) (ty : option string),
  exists r,
    focus_report df deck ty = Ok r
    /\ forall fr pooled,
         r = Some fr -> In pooled (f_matchup_all_types fr) ->
         m_wins pooled
         = Zsum (map m_wins (rows_of (m_opp_deck pooled)
                                     (f_matchup_specific_types fr)))
         /\ m_first_games pooled
            = Zsum (map m_first_games (rows_of (m_opp_deck pooled)
                                               (f_matchup_specific_types fr))).
Proof.
  intros df deck ty. eexists. split; [apply focus_report_ok|].
  intros fr pooled Hfr Hp.
  destruct (total_appearances df deck ty =? 0); [discriminate|].
  injection Hfr as <-.
  cbn [f_matchup_specific_types f_matchup_all_types focus_report_value] in *.
  apply pooled_row_of_table in Hp. destruct Hp as [Hb Hp].
  set (b := m_opp_deck pooled) in *. rewrite Hp.
  cbn [m_wins m_first_games matchup_row_value].
  rewrite !rows_of_specific_field.
  cbn [m_wins m_first_games specific_row_value matchup_row_value fst snd].
  unfold focus_deck_wins_count, fd_first_games_count, where_eq.
  split; symmetry; apply specific_stat_sum; exact Hb.
Qed.

Lemma agg_matchup_data_value_eq df deck ty :
  agg_matchup_data_value df deck ty
  = map (fun b => matchup_row_value b ALL_TYPES_PLACEHOLDER
                    (case1_agg_games_total df deck ty b)
                    (case2_agg_games_total df deck ty b))
        (unique string_dec (map m_opp_deck (matchup_data_value df deck ty))).
Proof.
  unfold agg_matchup_data_value. apply somes_map_some. intros b Hb.
  apply in_unique, in_specific_names in Hb. destruct Hb as [k Hk].
  apply pooled_has_games, Z.ltb_lt in Hk.
  unfold pooled_row_opt, matchup_row_opt. now rewrite Hk.
Qed.

(** A count over the games of the focus key, split by opponent deck. *)
Lemma pooled_stat_sum df deck ty (q1 q2 : MatchRecord -> bool) :
  Zsum (map (fun b => len (filter q1 (case1_agg_games_total df deck ty b))
                      + len (filter q2 (case2_agg_games_total df deck ty b)))
            (unique string_dec (map m_opp_deck (matchup_data_value df deck ty))))
  = len (filter (fun r => analyzable (opponent_deck r) && q1 r)
                (focus_as_my_deck_games df deck ty))
    + len (filter (fun r => analyzable (my_deck r) && q2 r)
                  (focus_as_opponent_deck_games df deck ty)).
Proof.
  set (names := unique string_dec (map m_opp_deck (matchup_data_value df deck ty))).
  assert (Hnd : NoDup names) by apply NoDup_unique.
  assert (Hvalid : forall b, In b names -> analyzable b = true).
  { intros b Hb. apply in_unique, in_map_iff in Hb. destruct Hb as [m [<- Hm]].
    apply analyzable_iff. now apply matchup_data_value_valid in Hm. }
  rewrite Zsum_map_add. f_equal.
  - rewrite <- (len_filter_partition opponent_deck
                  (fun r => analyzable (opponent_deck r) && q1 r) names
                  (focus_as_my_deck_games df deck ty) Hnd).
    + f_equal. apply map_ext_in. intros b Hb. apply Hvalid in Hb.
      unfold case1_agg_games_total, where_eq. rewrite filter_filter.
      f_equal. apply filter_ext. intros r.
      destruct (seq_str (opponent_deck r) b) eqn:E; [|now rewrite andb_false_r].
      apply String.eqb_eq in E. rewrite E, Hb. simpl. now rewrite andb_true_r.
    + intros r Hr Hp. apply andb_true_iff in Hp. destruct Hp as [Hp _].
      apply in_unique, in_specific_names. exists (opponent_deck_type r).
      apply in_all_faced_opponents_tuples. split; [now apply analyzable_iff|].
      apply in_opponents_set. left. now exists r.
  - rewrite <- (len_filter_partition my_deck
                  (fun r => analyzable (my_deck r) && q2 r) names
                  (focus_as_opponent_deck_games df deck ty) Hnd).
    + f_equal. apply map_ext_in. intros b Hb. apply Hvalid in Hb.
      unfold case2_agg_games_total, where_eq. rewrite filter_filter.
      f_equal. apply filter_ext. intros r.
      destruct (seq_str (my_deck r) b) eqn:E; [|now rewrite andb_false_r].
      apply String.eqb_eq in E. rewrite E, Hb. simpl. now rewrite andb_true_r.
    + intros r Hr Hp. apply andb_true_iff in Hp. destruct Hp as [Hp _].
      apply in_unique, in_specific_names. exists (my_deck_type r).
      apply in_all_faced_opponents_tuples. split; [now apply analyzable_iff|].
      apply in_opponents_set. right. now exists r.
Qed.

(** X10. The pooled rows of a focus report split the games of the focus key
    by opponent deck: there is one pooled row per opponent deck, and the
    games of all pooled rows add up to the games of the key against
    opponents with a usable name, the wins to the wins in those games.
    When every deck name of the frame is usable these are the total
    appearances and the total wins of the report. *)
Theorem pooled_rows_partition_the_games :
  forall (df : DataFrame) (deck : string) (ty : option string),
  exists r,
    focus_report df deck ty = Ok r
    /\ forall fr,
         r = Some fr ->
         NoDup (map m_opp_deck (f_matchup_all_types fr))
         /\ Zsum (map m_games_played (f_matchup_all_types fr))
            = games_vs_usable_opponents df deck ty
         /\ Zsum (map m_wins (f_matchup_all_types fr))
            = wins_vs_usable_opponents df deck ty
         /\ (names_usable df ->
             Zsum (map m_games_played (f_matchup_all_types fr))
             = f_total_appearances fr
             /\ Zsum (map m_wins (f_matchup_all_types fr)) = f_total_wins fr).
Proof.
  intros df deck ty. eexists. split; [apply focus_report_ok|].
  intros fr Hfr.
  destruct (total_appearances df deck ty =? 0); [discriminate|].
  injection Hfr as <-.
  cbn [f_matchup_all_types f_total_appearances f_total_wins focus_report_value].
  rewrite agg_matchup_data_value_eq, !map_map.
  cbn [m_opp_deck m_games_played m_wins matchup_row_value].
  assert (Hg : Zsum (map (fun b => games_played_count
                                     (case1_agg_games_total df deck ty b)
                                     (case2_agg_games_total df deck ty b))
                         (unique string_dec
                            (map m_opp_deck (matchup_data_value df deck ty))))
               = games_vs_usable_opponents df deck ty).
  { pose proof (pooled_stat_sum df deck ty (fun _ => true) (fun _ => true)) as H.
    unfold games_played_count, games_vs_usable_opponents.
    etransitivity; [|etransitivity; [exact H|]].
    - f_equal. apply map_ext. intros b. now rewrite !filter_true.
    - f_equal; f_equal; apply filter_ext; intros r; apply andb_true_r. }
  assert (Hw : Zsum (map (fun b => focus_deck_wins_count
                                     (case1_agg_games_total df deck ty b)
                                     (case2_agg_games_total df deck ty b))
                         (unique string_dec
                            (map m_opp_deck (matchup_data_value df deck ty))))
               = wins_vs_usable_opponents df deck ty).
  { exact (pooled_stat_sum df deck ty (fun r => seq_str (result r) WIN)
             (fun r => seq_str (result r) LOSS)). }
  split; [rewrite map_id; apply NoDup_unique|].
  split; [exact Hg|]. split; [exact Hw|].
  intros Hn. split.
  - etransitivity; [exact Hg|].
    unfold games_vs_usable_opponents, total_appearances.
    rewrite !filter_all; [reflexivity | |]; intros r Hr;
      apply filter_In in Hr; destruct Hr as [Hr _];
      apply analyzable_iff; now apply Hn.
  - etransitivity; [exact Hw|].
    unfold wins_vs_usable_opponents, total_wins_for_focus_deck,
      wins_when_focus_is_my_deck_df, wins_when_focus_is_opponent_deck_df,
      where_eq.
    f_equal; f_equal; apply filter_ext_in; intros r Hr;
      apply filter_In in Hr; destruct Hr as [Hr _];
      destruct (Hn r Hr) as [H1 H2]; apply analyzable_iff in H1, H2;
      now rewrite ?H1, ?H2.
Qed.

Lemma pooled_rows_partition_the_games_witness :
  names_usable scenario_df
  /\ exists r,
       focus_report scenario_df "Alpha" ALL_KEY = Ok r
       /\ forall fr,
            r = Some fr ->
            Zsum (map m_games_played (f_matchup_all_types fr))
            = f_total_appearances fr
            /\ Zsum (map m_wins (f_matchup_all_types fr)) = f_total_wins fr.
Proof.
  assert (Hn : names_usable scenario_df).
  { intros r [<-|[<-|[]]]; repeat split; cbv; discriminate. }
  split; [exact Hn|].
  destruct (pooled_rows_partition_the_games scenario_df "Alpha" ALL_KEY)
    as [r [E H]].
  exists r. split; [exact E|]. intros fr Hfr.
  destruct (H fr Hfr) as [_ [_ [_ Hall]]]. exact (Hall Hn).
Defined.

(** ** Ranges of the focus report *)

Lemma len_filter_two_le {A} (p q : A -> bool) (l : list A) :
  (forall x, p x && q x = false) ->
  len (filter p l) + len (filter q l) <= len l.
Proof.
  intros H. induction l as [|x l IH]; [reflexivity|].
  cbn [filter]. specialize (H x).
  destruct (p x), (q x); cbn in H; try discriminate; rewrite ?len_cons; lia.
Qed.

Lemma first_second_disjoint (s : string) :
  seq_str s FIRST && seq_str s SECOND = false.
Proof.
  destruct (seq_str s FIRST) eqn:E; [|reflexivity].
  apply String.eqb_eq in E. subst s. reflexivity.
Qed.

Lemma seat_counts_le (c1 c2 : DataFrame) :
  fd_first_games_count c1 c2 + fd_second_games_count c1 c2
  <= games_played_count c1 c2.
Proof.
  unfold fd_first_games_count, fd_second_games_count, games_played_count, where_eq.
  pose proof (len_filter_two_le (fun r => seq_str (first_second r) FIRST)
                (fun r => seq_str (first_second r) SECOND) c1
                (fun r => first_second_disjoint (first_second r))).
  pose proof (len_filter_two_le (fun r => seq_str (first_second r) FIRST)
                (fun r => seq_str (first_second r) SECOND) c2
                (fun r => first_second_disjoint (first_second r))).
  lia.
Qed.

Lemma matchup_counts_bounds (c1 c2 : DataFrame) :
  0 <= focus_deck_wins_count c1 c2 <= games_played_count c1 c2
  /\ 0 <= fd_first_games_count c1 c2 <= games_played_count c1 c2
  /\ 0 <= fd_first_wins_count c1 c2 <= fd_first_games_count c1 c2
  /\ 0 <= fd_second_wins_count c1 c2 <= fd_second_games_count c1 c2.
Proof.
  pose proof (seat_counts_le c1 c2) as Hs.
  unfold focus_deck_wins_count, games_played_count, fd_first_games_count,
    fd_first_wins_count, fd_second_games_count, fd_second_wins_count in *.
  pose proof (len_where_eq_le result WIN c1).
  pose proof (len_where_eq_le result LOSS c2).
  pose proof (len_where_eq_le result WIN (where_eq first_second FIRST c1)).
  pose proof (len_where_eq_le result LOSS (where_eq first_second SECOND c2)).
  pose proof (len_where_eq_le result WIN (where_eq first_second SECOND c1)).
  pose proof (len_where_eq_le result LOSS (where_eq first_second FIRST c2)).
  pose proof (len_nonneg (where_eq result WIN c1)).
  pose proof (len_nonneg (where_eq result LOSS c2)).
  pose proof (len_nonneg (where_eq first_second FIRST c1)).
  pose proof (len_nonneg (where_eq first_second SECOND c2)).
  pose proof (len_nonneg (where_eq first_second SECOND c1)).
  pose proof (len_nonneg (where_eq first_second FIRST c2)).
  pose proof (len_nonneg (where_eq result WIN (where_eq first_second FIRST c1))).
  pose proof (len_nonneg (where_eq result LOSS (where_eq first_second SECOND c2))).
  pose proof (len_nonneg (where_eq result WIN (where_eq first_second SECOND c1))).
  pose proof (len_nonneg (where_eq result LOSS (where_eq first_second FIRST c2))).
  lia.
Qed.

Lemma matchup_row_opt_in_range name type c1 c2 m :
  matchup_row_opt name type c1 c2 = Some m -> matchup_row_in_range m.
Proof.
  unfold matchup_row_opt. destruct (0 <? games_played_count c1 c2) eqn:E;
    [|discriminate].
  apply Z.ltb_lt in E. intros H. injection H as <-.
  destruct (matchup_counts_bounds c1 c2) as [H1 [H2 [H3 H4]]].
  unfold matchup_row_in_range. cbn.
  split; [exact H1|]. split; [exact H2|].
  split; [now apply pct_in_range|].
  split; now apply rate_opt_in_range.
Qed.

Lemma focus_counts_as_matchup df deck ty :
  total_appearances df deck ty
  = games_played_count (focus_as_my_deck_games df deck ty)
                       (focus_as_opponent_deck_games df deck ty)
  /\ total_wins_for_focus_deck df deck ty
     = focus_deck_wins_count (focus_as_my_deck_games df deck ty)
                             (focus_as_opponent_deck_games df deck ty)
  /\ total_games_focus_first df deck ty
     = fd_first_games_count (focus_as_my_deck_games df deck ty)
                            (focus_as_opponent_deck_games df deck ty)
  /\ wins_focus_first df deck ty
     = fd_first_wins_count (focus_as_my_deck_games df deck ty)
                           (focus_as_opponent_deck_games df deck ty)
  /\ total_games_focus_second df deck ty
     = fd_second_games_count (focus_as_my_deck_games df deck ty)
                             (focus_as_opponent_deck_games df deck ty)
  /\ wins_focus_second df deck ty
     = fd_second_wins_count (focus_as_my_deck_games df deck ty)
                            (focus_as_opponent_deck_games df deck ty).
Proof. repeat split. Qed.

(** X11. Every figure of a focus report is in range: wins and losses are
    between 0 and the appearances and add up to them, the seat wins are at
    most the seat games, first-seat and second-seat games together are at
    most the appearances, and every rate, of the report and of every row of
    both matchup tables, is missing or a percentage between 0 and 100; in
    every matchup row the wins and the first-seat games are at most the
    games. *)
Theorem focus_report_figures_in_range :
  forall (df : DataFrame) (deck : string) (ty : option string),
  exists r,
    focus_report df deck ty = Ok r
    /\ forall fr, r = Some fr -> focus_report_in_range fr.
Proof.
  intros df deck ty. eexists. split; [apply focus_report_ok|].
  intros fr Hfr.
  destruct (total_appearances df deck ty =? 0) eqn:E; [discriminate|].
  apply Z.eqb_neq in E. injection Hfr as <-.
  pose proof (total_appearances_nonneg df deck ty) as Hnn.
  destruct (focus_counts_as_matchup df deck ty) as [E1 [E2 [E3 [E4 [E5 E6]]]]].
  pose proof (matchup_counts_bounds (focus_as_my_deck_games df deck ty)
                (focus_as_opponent_deck_games df deck ty)) as [H1 [H2 [H3 H4]]].
  pose proof (seat_counts_le (focus_as_my_deck_games df deck ty)
                (focus_as_opponent_deck_games df deck ty)) as H5.
  rewrite <- E1, <- E2, <- E3, <- E4, <- E5, <- E6 in *.
  unfold focus_report_in_range. cbn. unfold total_losses_for_focus_deck.
  split; [lia|]. split; [lia|]. split; [lia|]. split; [lia|]. split; [lia|].
  split; [lia|].
  split; [apply pct_in_range; lia|].
  split; [apply rate_opt_in_range; lia|].
  split; [apply rate_opt_in_range; lia|].
  split.
  - intros m Hm. apply in_somes_map in Hm. destruct Hm as [opp [_ Hm]].
    eapply matchup_row_opt_in_range; exact Hm.
  - intros m Hm. apply in_somes_map in Hm. destruct Hm as [b [_ Hm]].
    eapply matchup_row_opt_in_range; exact Hm.
Qed.

(** ** Finish turns *)

Lemma in_finish_turns (x : Q) (l : DataFrame) :
  In x (finish_turns l) ->
  exists r t, In r l /\ finish_turn r = Some t /\ x = inject_Z t.
Proof.
  unfold finish_turns. induction l as [|r l IH]; simpl; [contradiction|].
  destruct (finish_turn r) as [t|] eqn:E; simpl.
  - intros [<-|H].
    + exists r, t. tauto.
    + destruct (IH H) as [r' [t' [H1 H2]]]. exists r', t'. tauto.
  - intros H. destruct (IH H) as [r' [t' [H1 H2]]]. exists r', t'. tauto.
Qed.

Lemma finish_turns_app (l1 l2 : DataFrame) :
  finish_turns (l1 ++ l2) = finish_turns l1 ++ finish_turns l2.
Proof.
  unfold finish_turns. induction l1 as [|r l1 IH]; simpl; [reflexivity|].
  destruct (finish_turn r); simpl; now rewrite IH.
Qed.

Lemma finish_turns_if_nonempty (l : DataFrame) :
  (if negb (is_empty l) then finish_turns l else []) = finish_turns l.
Proof. destruct l; reflexivity. Qed.

Lemma turns_between_mean (lo hi : Z) (df : DataFrame) (l : list Q) :
  turns_between lo hi df ->
  (forall x, In x l -> exists r t, In r df /\ finish_turn r = Some t
                                   /\ x = inject_Z t) ->
  mean_turn_between lo hi (mean_or_none l).
Proof.
  intros Hb Hl. unfold mean_turn_between.
  destruct (mean_or_none l) as [m|] eqn:E; [|exact I].
  apply (mean_or_none_bounds _ _ l m); [|exact E].
  intros x Hx. destruct (Hl x Hx) as [r [t [Hr [Ht ->]]]].
  destruct (Hb r t Hr Ht). rewrite <- !Zle_Qle. tauto.
Qed.

Lemma turns_of_cases (df c1 c2 : DataFrame) (x : Q) :
  incl c1 df -> incl c2 df ->
  (In x (focus_deck_win_turns c1 c2) \/ In x (focus_deck_loss_turns c1 c2)) ->
  exists r t, In r df /\ finish_turn r = Some t /\ x = inject_Z t.
Proof.
  intros H1 H2 Hx.
  unfold focus_deck_win_turns, focus_deck_loss_turns, where_eq in Hx.
  rewrite !in_app_iff in Hx.
  destruct Hx as [[Hx|Hx]|[Hx|Hx]]; apply in_finish_turns in Hx;
    destruct Hx as [r [t [Hr Ht]]]; apply filter_In in Hr;
    destruct Hr as [Hr _]; exists r, t; split; auto.
Qed.

Lemma matchup_row_opt_turns lo hi df name type c1 c2 m :
  turns_between lo hi df -> incl c1 df -> incl c2 df ->
  matchup_row_opt name type c1 c2 = Some m ->
  mean_turn_between lo hi (m_avg_win_turn m)
  /\ mean_turn_between lo hi (m_avg_loss_turn m).
Proof.
  intros Hb H1 H2. unfold matchup_row_opt.
  destruct (0 <? games_played_count c1 c2); [|discriminate].
  intros H. injection H as <-. cbn.
  split; apply (turns_between_mean lo hi df); try exact Hb; intros x Hx;
    apply (turns_of_cases df c1 c2); auto.
Qed.

Lemma incl_filter {A} (p : A -> bool) (l : list A) : incl (filter p l) l.
Proof. intros x Hx. now apply filter_In in Hx. Qed.

(** X12. The mean turns of a focus report stay within the turns of the
    frame: when every recorded finish turn lies between [lo] and [hi], so
    does the mean finish turn of the wins, and so do the mean win turn and
    the mean loss turn of every row of both matchup tables, unless the mean
    is missing.  With [lo = 1], no mean turn is below 1. *)
Theorem mean_turns_within_bounds :
  forall (df : DataFrame) (deck : string) (ty : option string) (lo hi : Z),
    turns_between lo hi df ->
    exists r,
      focus_report df deck ty = Ok r
      /\ forall fr, r = Some fr -> mean_turns_between lo hi fr.
Proof.
  intros df deck ty lo hi Hb. eexists. split; [apply focus_report_ok|].
  intros fr Hfr.
  destruct (total_appearances df deck ty =? 0); [discriminate|].
  injection Hfr as <-. unfold mean_turns_between. cbn.
  assert (Hmy : incl (focus_as_my_deck_games df deck ty) df)
    by apply incl_filter.
  assert (Hopp : incl (focus_as_opponent_deck_games df deck ty) df)
    by apply incl_filter.
  split.
  - unfold avg_win_finish_turn_val, win_finish_turns.
    rewrite !finish_turns_if_nonempty.
    apply (turns_between_mean lo hi df _ Hb). intros x Hx.
    apply (turns_of_cases df (focus_as_my_deck_games df deck ty)
             (focus_as_opponent_deck_games df deck ty)); auto.
  - intros m Hm. apply in_app_iff in Hm.
    destruct Hm as [Hm|Hm]; apply in_somes_map in Hm;
      destruct Hm as [x [_ Hm]];
      apply (matchup_row_opt_turns lo hi df _ _ _ _ m Hb) in Hm; auto;
      intros r Hr; apply filter_In in Hr; destruct Hr as [Hr _]; auto.
Qed.

Lemma mean_turns_within_bounds_witness :
  turns_between 1 7 scenario_df
  /\ exists r,
       focus_report scenario_df "Alpha" ALL_KEY = Ok r
       /\ forall fr, r = Some fr -> mean_turns_between 1 7 fr.
Proof.
  assert (H : turns_between 1 7 scenario_df).
  { intros r t [<-|[<-|[]]] E; injection E as <-; lia. }
  split; [exact H|].
  exact (mean_turns_within_bounds scenario_df "Alpha" ALL_KEY 1 7 H).
Defined.

Lemma finish_turns_skip (p : MatchRecord -> bool) (l1 l2 : DataFrame)
      (r : MatchRecord) :
  finish_turn r = None ->
  finish_turns (filter p (l1 ++ r :: l2)) = finish_turns (filter p (l1 ++ l2)).
Proof.
  intros Hr. rewrite !filter_app, !finish_turns_app. f_equal. simpl.
  destruct (p r); [|reflexivity].
  unfold finish_turns. simpl. now rewrite Hr.
Qed.

(** X13. A record without a finish turn is counted but does not enter the
    means: adding such a record to the frame leaves the list of win finish
    turns of every focus key, and so its mean, unchanged, while the
    appearances grow by one for each side on which the record matches the
    key. *)
Theorem record_without_turn_counted_not_averaged :
  forall (df1 df2 : DataFrame) (r : MatchRecord) (deck : string)
         (ty : option string),
    finish_turn r = None ->
    win_finish_turns (df1 ++ r :: df2) deck ty
    = win_finish_turns (df1 ++ df2) deck ty
    /\ avg_win_finish_turn_val (df1 ++ r :: df2) deck ty
       = avg_win_finish_turn_val (df1 ++ df2) deck ty
    /\ total_appearances (df1 ++ r :: df2) deck ty
       = total_appearances (df1 ++ df2) deck ty
         + b2z (cond_my_deck_focus deck ty r)
         + b2z (cond_opponent_deck_focus deck ty r).
Proof.
  intros df1 df2 r deck ty Hr.
  assert (E : win_finish_turns (df1 ++ r :: df2) deck ty
              = win_finish_turns (df1 ++ df2) deck ty).
  { unfold win_finish_turns. rewrite !finish_turns_if_nonempty.
    unfold wins_when_focus_is_my_deck_df, wins_when_focus_is_opponent_deck_df,
      focus_as_my_deck_games, focus_as_opponent_deck_games, where_eq.
    rewrite !filter_filter, !(finish_turns_skip _ df1 df2 r Hr). reflexivity. }
  split; [exact E|]. split.
  - unfold avg_win_finish_turn_val. now rewrite E.
  - unfold total_appearances, focus_as_my_deck_games,
      focus_as_opponent_deck_games.
    rewrite !len_filter_insert. lia.
Qed.

Lemma record_without_turn_counted_not_averaged_witness :
  finish_turn no_turn_record = None
  /\ avg_win_finish_turn_val (scenario_record_1 :: no_turn_record
                                :: [scenario_record_2]) "Alpha" ALL_KEY
     = avg_win_finish_turn_val scenario_df "Alpha" ALL_KEY
  /\ total_appearances (scenario_record_1 :: no_turn_record
                          :: [scenario_record_2]) "Alpha" ALL_KEY = 3.
Proof.
  split; [reflexivity|].
  destruct (record_without_turn_counted_not_averaged [scenario_record_1]
              [scenario_record_2] no_turn_record "Alpha" ALL_KEY eq_refl)
    as [_ [H1 H2]].
  split; [exact H1 | exact H2].
Defined.

(** ** Seats *)

Lemma seats_split (df c : DataFrame) :
  all_seats_well_formed df -> incl c df ->
  len (where_eq first_second FIRST c) + len (where_eq first_second SECOND c)
  = len c.
Proof.
  intros Hs Hc. unfold where_eq. apply len_filter_complement.
  intros r Hr. destruct (Hs r (Hc r Hr)) as [-> | ->]; reflexivity.
Qed.

Lemma seat_counts_split (df c1 c2 : DataFrame) :
  all_seats_well_formed df -> incl c1 df -> incl c2 df ->
  fd_first_games_count c1 c2 + fd_second_games_count c1 c2
  = games_played_count c1 c2.
Proof.
  intros Hs H1 H2.
  pose proof (seats_split df c1 Hs H1). pose proof (seats_split df c2 Hs H2).
  unfold fd_first_games_count, fd_second_games_count, games_played_count. lia.
Qed.

Lemma matchup_row_opt_seats df name type c1 c2 m :
  all_seats_well_formed df -> incl c1 df -> incl c2 df ->
  matchup_row_opt name type c1 c2 = Some m -> matchup_row_seats_split m.
Proof.
  intros Hs H1 H2. unfold matchup_row_opt.
  destruct (0 <? games_played_count c1 c2); [|discriminate].
  intros H. injection H as <-.
  pose proof (seat_counts_split df c1 c2 Hs H1 H2) as Hsplit.
  destruct (matchup_counts_bounds c1 c2) as [_ [Hf [_ Hsec]]].
  unfold matchup_row_seats_split. cbn. rewrite !rate_opt_none. lia.
Qed.

(** X14. When every seat of the frame is FIRST or SECOND, the first-seat and
    second-seat games of a focus report add up to its appearances, and in
    every row of both matchup tables the displayed first-seat count
    determines the seat rates: the first-seat rate is missing exactly when
    that count is 0, the second-seat rate exactly when it equals the games
    of the row.  The same holds for the seat rates of the overview rows. *)
Theorem seats_split_the_games :
  forall (df : DataFrame) (deck : string) (ty : option string),
    all_seats_well_formed df ->
    (exists r,
        focus_report df deck ty = Ok r
        /\ forall fr, r = Some fr -> focus_report_seats_split fr)
    /\ (exists rows,
           general_performance_data df = Ok rows
           /\ forall row, In row rows -> overview_row_seats_split row).
Proof.
  intros df deck ty Hs. split.
  - eexists. split; [apply focus_report_ok|].
    intros fr Hfr.
    destruct (total_appearances df deck ty =? 0); [discriminate|].
    injection Hfr as <-. unfold focus_report_seats_split. cbn. split.
    + exact (seat_counts_split df _ _ Hs (incl_filter _ df) (incl_filter _ df)).
    + intros m Hm. apply in_app_iff in Hm.
      destruct Hm as [Hm|Hm]; apply in_somes_map in Hm;
        destruct Hm as [x [_ Hm]];
        apply (matchup_row_opt_seats df) in Hm; auto;
        intros r Hr; apply filter_In in Hr; destruct Hr as [Hr _];
        now apply filter_In in Hr.
  - eexists. split; [apply general_performance_data_rows|].
    intros row Hrow. apply in_map_iff in Hrow. destruct Hrow as [a [<- _]].
    unfold overview_row_seats_split. cbn. rewrite !rate_opt_none.
    pose proof (seat_counts_split df (games_as_my_deck_df df a)
                  (games_as_opponent_deck_df df a) Hs
                  (incl_filter _ df) (incl_filter _ df)) as Hsplit.
    destruct (matchup_counts_bounds (games_as_my_deck_df df a)
                (games_as_opponent_deck_df df a)) as [_ [Hf [_ Hsec]]].
    change (fd_first_games_count (games_as_my_deck_df df a)
              (games_as_opponent_deck_df df a))
      with (total_games_deck_a_first df a) in *.
    change (fd_second_games_count (games_as_my_deck_df df a)
              (games_as_opponent_deck_df df a))
      with (total_games_deck_a_second df a) in *.
    change (games_played_count (games_as_my_deck_df df a)
              (games_as_opponent_deck_df df a))
      with (total_appearances_deck_a df a) in *.
    lia.
Qed.

Lemma seats_split_the_games_witness :
  all_seats_well_formed scenario_df
  /\ (exists r,
         focus_report scenario_df "Alpha" ALL_KEY = Ok r
         /\ forall fr, r = Some fr -> focus_report_seats_split fr)
  /\ (exists rows,
         general_performance_data scenario_df = Ok rows
         /\ forall row, In row rows -> overview_row_seats_split row).
Proof.
  assert (H : all_seats_well_formed scenario_df).
  { intros r [<-|[<-|[]]]; [left | right]; reflexivity. }
  split; [exact H|].
  exact (seats_split_the_games scenario_df "Alpha" ALL_KEY H).
Defined.

(** ** Opponents *)

Lemma pairs_sym (r : MatchRecord) (a b : string) : pairs r a b -> pairs r b a.
Proof. unfold pairs. tauto. Qed.

(** X15. Facing is mutual in the overview: when deck B is among the
    opponents counted for deck A and the name of A passes the guard of the
    opponent loop, A is among the opponents counted for B, and the two
    pairings have the same number of games. *)
Theorem counted_opponents_are_mutual :
  forall (df : DataFrame) (a b : string),
    In b (unique_opponents_faced_by_deck_a df a) ->
    counted_name a ->
    In a (unique_opponents_faced_by_deck_a df b)
    /\ total_games_vs_specific_opponent df b a
       = total_games_vs_specific_opponent df a b.
Proof.
  intros df a b Hb Ha.
  pose proof Hb as Hin. apply in_unique_opponents in Hin.
  destruct Hin as [Hc [r [Hr Hp]]].
  apply counted_opponent_iff in Hc. destruct Hc as [Hne _].
  split.
  - apply in_unique_opponents. split.
    + apply counted_opponent_iff. split; [congruence | exact Ha].
    + exists r. split; [exact Hr | now apply pairs_sym].
  - rewrite !total_games_vs_specific_opponent_eq by congruence.
    apply pairing_games_sym.
Qed.

Lemma counted_opponents_are_mutual_witness :
  In "Beta" (unique_opponents_faced_by_deck_a scenario_df "Alpha")
  /\ counted_name "Alpha"
  /\ In "Alpha" (unique_opponents_faced_by_deck_a scenario_df "Beta")
  /\ total_games_vs_specific_opponent scenario_df "Beta" "Alpha"
     = total_games_vs_specific_opponent scenario_df "Alpha" "Beta".
Proof.
  assert (H1 : In "Beta" (unique_opponents_faced_by_deck_a scenario_df "Alpha"))
    by (left; reflexivity).
  assert (H2 : counted_name "Alpha") by (split; discriminate).
  split; [exact H1|]. split; [exact H2|].
  exact (counted_opponents_are_mutual scenario_df "Alpha" "Beta" H1 H2).
Defined.

(** ** The order of strings and of tuples of strings *)

Lemma ascii_compare_lt_trans (x y z : ascii) :
  Ascii.compare x y = Lt -> Ascii.compare y z = Lt -> Ascii.compare x z = Lt.
Proof.
  unfold Ascii.compare. rewrite !N.compare_lt_iff. apply N.lt_trans.
Qed.

Lemma string_compare_refl (s : string) : String.compare s s = Eq.
Proof.
  induction s as [|c s IH]; simpl; [reflexivity|].
  now rewrite ascii_compare_refl.
Qed.

Lemma string_compare_eq (a b : string) : String.compare a b = Eq <-> a = b.
Proof.
  split; [apply String.compare_eq_iff | intros ->; apply string_compare_refl].
Qed.

Lemma string_compare_lt_trans (a b c : string) :
  String.compare a b = Lt -> String.compare b c = Lt -> String.compare a c = Lt.
Proof.
  revert b c. induction a as [|x a IH]; intros [|y b] [|z c]; simpl;
    try congruence.
  destruct (Ascii.compare x y) eqn:E1; try discriminate;
    destruct (Ascii.compare y z) eqn:E2; try discriminate; intros H1 H2.
  - apply Ascii.compare_eq_iff in E1, E2. subst.
    rewrite ascii_compare_refl. now apply (IH b c).
  - apply Ascii.compare_eq_iff in E1. subst. now rewrite E2.
  - apply Ascii.compare_eq_iff in E2. subst. now rewrite E1.
  - now rewrite (ascii_compare_lt_trans x y z E1 E2).
Qed.

Lemma string_leb_iff (a b : string) :
  String.leb a b = true <-> String.compare a b = Lt \/ a = b.
Proof.
  unfold String.leb. rewrite <- string_compare_eq.
  destruct (String.compare a b); split; intros H; try tauto; try discriminate;
    destruct H; discriminate.
Qed.

Lemma string_leb_trans (a b c : string) :
  String.leb a b = true -> String.leb b c = true -> String.leb a c = true.
Proof.
  rewrite !string_leb_iff. intros [H1 | ->] [H2 | ->]; auto.
  left. eapply string_compare_lt_trans; eassumption.
Qed.

Lemma string_leb_refl (a : string) : String.leb a a = true.
Proof. apply string_leb_iff. now right. Qed.

Lemma tuple_leb_iff (a b : string * string) :
  tuple_leb a b = true
  <-> String.compare (fst a) (fst b) = Lt
      \/ (fst a = fst b /\ String.leb (snd a) (snd b) = true).
Proof.
  unfold tuple_leb. destruct (String.compare (fst a) (fst b)) eqn:E.
  - apply string_compare_eq in E. split; [tauto|].
    intros [H|[_ H]]; [discriminate | exact H].
  - tauto.
  - split; [discriminate|]. intros [H|[H _]]; [discriminate|].
    apply string_compare_eq in H. congruence.
Qed.

Lemma tuple_leb_total (a b : string * string) :
  tuple_leb a b = true \/ tuple_leb b a = true.
Proof.
  unfold tuple_leb. rewrite (String.compare_antisym (fst b) (fst a)).
  destruct (String.compare (fst a) (fst b)); simpl; auto.
  apply String.leb_total.
Qed.

Lemma tuple_leb_trans (a b c : string * string) :
  tuple_leb a b = true -> tuple_leb b c = true -> tuple_leb a c = true.
Proof.
  rewrite !tuple_leb_iff.
  intros [H1 | [E1 H1]] [H2 | [E2 H2]].
  - left. eapply string_compare_lt_trans; eassumption.
  - left. now rewrite <- E2.
  - left. now rewrite E1.
  - right. split; [congruence|]. eapply string_leb_trans; eassumption.
Qed.


(** Two ascending arrangements of the same members are the same list. *)
Lemma sorted_unique {A} (leb : A -> A -> bool) (l1 l2 : list A) :
  (forall x y z, leb x y = true -> leb y z = true -> leb x z = true) ->
  (forall x y, leb x y = true -> leb y x = true -> x = y) ->
  Sorted (fun a b => leb a b = true) l1 ->
  Sorted (fun a b => leb a b = true) l2 ->
  Permutation l1 l2 -> l1 = l2.
Proof.
  intros Htr Has H1 H2.
  apply Sorted_StronglySorted in H1; [|intros x y z; apply Htr].
  apply Sorted_StronglySorted in H2; [|intros x y z; apply Htr].
  revert l2 H2. induction H1 as [|x l1 Hs1 IH Hx]; intros l2 H2 Hp.
  - apply Permutation_nil in Hp. now subst.
  - destruct H2 as [|y l2 Hs2 Hy].
    + apply Permutation_sym, Permutation_nil in Hp. discriminate.
    + assert (E : x = y).
      { assert (Hiny : In y (x :: l1))
          by (apply (Permutation_in _ (Permutation_sym Hp)); now left).
        assert (Hinx : In x (y :: l2))
          by (apply (Permutation_in _ Hp); now left).
        destruct Hiny as [E|Hiny]; [exact E|].
        destruct Hinx as [E|Hinx]; [now symmetry|].
        rewrite Forall_forall in Hx, Hy.
        apply Has; [now apply Hx | now apply Hy]. }
      subst y. f_equal. apply IH; [exact Hs2|].
      eapply Permutation_cons_inv; exact Hp.
Qed.

Lemma sorted_of_perm {A} (leb : A -> A -> bool) (l1 l2 : list A) :
  (forall x y, leb x y = true \/ leb y x = true) ->
  (forall x y z, leb x y = true -> leb y z = true -> leb x z = true) ->
  (forall x y, leb x y = true -> leb y x = true -> x = y) ->
  Permutation l1 l2 -> sorted leb l1 = sorted leb l2.
Proof.
  intros Htot Htr Has Hp. apply (sorted_unique leb); try assumption.
  - now apply sorted_Sorted.
  - now apply sorted_Sorted.
  - rewrite !sorted_perm. exact Hp.
Qed.

(** ** The order of the rows of the frame does not matter *)






Section RowOrder.
Variables df df' : DataFrame.
Hypothesis Hperm : Permutation df df'.






End RowOrder.






Section RowOrderTables.
Variables df df' : DataFrame.
Hypothesis Hperm : Permutation df df'.











End RowOrderTables.



(** ** The displayed matchup table *)

Lemma StronglySorted_app_r {A} (R : A -> A -> Prop) (l1 l2 : list A) :
  StronglySorted R (l1 ++ l2) -> StronglySorted R l2.
Proof.
  induction l1 as [|x l1 IH]; simpl; [auto|].
  intros H. apply StronglySorted_inv in H. tauto.
Qed.

Lemma StronglySorted_stands_before {A} (R : A -> A -> Prop) (x y : A)
      (l : list A) :
  StronglySorted R l -> stands_before x y l -> R x y.
Proof.
  intros Hs [l1 [l2 [l3 ->]]]. apply StronglySorted_app_r in Hs.
  apply StronglySorted_inv in Hs. destruct Hs as [_ Hx].
  rewrite Forall_forall in Hx. apply Hx. apply in_or_app. right. now left.
Qed.

Lemma StronglySorted_prefix {A} (R : A -> A -> Prop) (x y : A) (l1 l2 : list A) :
  StronglySorted R (l1 ++ x :: l2) -> In y l1 -> R y x.
Proof.
  induction l1 as [|z l1 IH]; simpl; [contradiction|].
  intros Hs [->|Hy].
  - apply StronglySorted_inv in Hs. destruct Hs as [_ Hz].
    rewrite Forall_forall in Hz. apply Hz. apply in_or_app. right. now left.
  - apply StronglySorted_inv in Hs. destruct Hs as [Hs _]. now apply IH.
Qed.

(** In a sorted table a row strictly below another one stands before it. *)
Lemma strictly_below_stands_before {A} (R : A -> A -> Prop) (x y : A)
      (l : list A) :
  StronglySorted R l -> In x l -> In y l -> ~ R y x -> R x x ->
  stands_before x y l.
Proof.
  intros Hs Hx Hy Hn Hrefl.
  apply in_split in Hx. destruct Hx as [l1 [l2 ->]].
  apply in_app_iff in Hy. destruct Hy as [Hy|[->|Hy]].
  - exfalso. apply Hn. eapply StronglySorted_prefix; eassumption.
  - contradiction.
  - apply in_split in Hy. destruct Hy as [l3 [l4 ->]].
    now exists l1, l3, l4.
Qed.

(** [sorted] is stable: a row that stands before another one and is not
    above it in the order still stands before it after the sort. *)
Lemma stands_before_cons {A} (a x y : A) (l : list A) :
  stands_before x y l -> stands_before x y (a :: l).
Proof. intros [l1 [l2 [l3 ->]]]. now exists (a :: l1), l2, l3. Qed.

Lemma stands_before_head {A} (x y : A) (l : list A) :
  In y l -> stands_before x y (x :: l).
Proof.
  intros H. apply in_split in H. destruct H as [l2 [l3 ->]].
  now exists [], l2, l3.
Qed.

Lemma stands_before_inv {A} (x y z : A) (l : list A) :
  stands_before x y (z :: l) -> (z = x /\ In y l) \/ stands_before x y l.
Proof.
  intros [[|a l1] [l2 [l3 E]]]; simpl in E; injection E as -> ->.
  - left. split; [reflexivity|]. apply in_or_app. right. now left.
  - right. now exists l1, l2, l3.
Qed.

Lemma insert_sorted_keeps_order {A} (leb : A -> A -> bool) (a x y : A)
      (l : list A) :
  stands_before x y l -> stands_before x y (insert_sorted leb a l).
Proof.
  induction l as [|z l IH]; intros H.
  - destruct H as [[|? ?] [? [? E]]]; discriminate E.
  - simpl. destruct (leb a z); [now apply stands_before_cons|].
    apply stands_before_inv in H. destruct H as [[-> Hy]|H].
    + apply stands_before_head.
      apply (Permutation_in _ (Permutation_sym (insert_sorted_perm leb a l))).
      now right.
    + apply stands_before_cons. now apply IH.
Qed.

Lemma insert_sorted_before {A} (leb : A -> A -> bool) (x y : A) (l : list A) :
  In y l -> leb x y = true -> stands_before x y (insert_sorted leb x l).
Proof.
  induction l as [|z l IH]; intros Hy Hle; [contradiction|].
  simpl. destruct (leb x z) eqn:E.
  - now apply stands_before_head.
  - destruct Hy as [->|Hy]; [congruence|].
    apply stands_before_cons. now apply IH.
Qed.

Lemma sorted_stable {A} (leb : A -> A -> bool) (x y : A) (l : list A) :
  stands_before x y l -> leb x y = true -> stands_before x y (sorted leb l).
Proof.
  induction l as [|z l IH]; intros H Hle.
  - destruct H as [[|? ?] [? [? E]]]; discriminate E.
  - simpl. apply stands_before_inv in H. destruct H as [[-> Hy]|H].
    + apply insert_sorted_before; [|exact Hle].
      apply (Permutation_in _ (Permutation_sym (sorted_perm leb l))). exact Hy.
    + apply insert_sorted_keeps_order. now apply IH.
Qed.

Lemma matchup_sort_total (x y : MatchupRow) :
  tuple_leb (matchup_sort_key x) (matchup_sort_key y) = true
  \/ tuple_leb (matchup_sort_key y) (matchup_sort_key x) = true.
Proof. apply tuple_leb_total. Qed.

Lemma tuple_leb_refl (a : string * string) : tuple_leb a a = true.
Proof. apply tuple_leb_iff. right. split; [reflexivity | apply string_leb_refl]. Qed.

Lemma pooled_key_below_specific (p s : MatchupRow) :
  m_opp_type p = ALL_TYPES_PLACEHOLDER ->
  m_opp_deck s = m_opp_deck p ->
  m_opp_type s <> ALL_TYPES_PLACEHOLDER ->
  tuple_leb (matchup_sort_key s) (matchup_sort_key p) = false.
Proof.
  intros Hp Hd Hs. unfold matchup_sort_key, sort_type, tuple_leb. cbn [fst snd].
  rewrite Hd, string_compare_refl, Hp, seq_str_refl.
  apply String.eqb_neq in Hs. unfold seq_str. rewrite Hs. reflexivity.
Qed.

(** X17. The matchup table is displayed unless there is no specific-type
    row.  The displayed table holds exactly the rows of both tables, in
    ascending order of the opponent deck, and for every opponent deck its
    pooled (ALL-types) row stands before each of its specific-type rows
    whose type is not itself the ALL entry, so that the order within one
    opponent is pooled first, then by type.  A specific-type row whose type
    is the ALL entry has the sort key of the pooled row and keeps its place
    before it: the sort is stable and the specific rows are concatenated
    first. *)
Theorem displayed_matchup_table_order :
  forall (df : DataFrame) (deck : string) (ty : option string),
  exists r,
    focus_report df deck ty = Ok r
    /\ forall fr,
         r = Some fr ->
         (matchup_df_final fr = None <-> f_matchup_specific_types fr = [])
         /\ forall final,
              matchup_df_final fr = Some final -> matchup_table_ordered fr final.
Proof.
  intros df deck ty. eexists. split; [apply focus_report_ok|].
  intros fr Hfr.
  destruct (total_appearances df deck ty =? 0); [discriminate|].
  injection Hfr as <-.
  unfold matchup_df_final, matchup_df_combined.
  cbn [f_matchup_specific_types f_matchup_all_types focus_report_value].
  destruct (is_empty (matchup_data_value df deck ty)) eqn:Ee.
  - split; [|discriminate]. split; [intros _ | reflexivity].
    destruct (matchup_data_value df deck ty); [reflexivity | discriminate].
  - assert (Ec : is_empty (matchup_data_value df deck ty
                           ++ agg_matchup_data_value df deck ty) = false).
    { destruct (matchup_data_value df deck ty); [discriminate | reflexivity]. }
    rewrite Ec. split.
    { split; [discriminate|]. intros E. rewrite E in Ee. discriminate. }
    intros final Hfinal. injection Hfinal as <-.
    set (rows := matchup_data_value df deck ty
                 ++ agg_matchup_data_value df deck ty).
    set (cmp := fun x y => tuple_leb (matchup_sort_key x) (matchup_sort_key y)).
    assert (Hperm : Permutation (sorted cmp rows) rows) by apply sorted_perm.
    assert (Hs : StronglySorted (fun x y => cmp x y = true) (sorted cmp rows)).
    { apply Sorted_StronglySorted.
      - intros x y z. apply tuple_leb_trans.
      - apply sorted_Sorted. intros x y. apply tuple_leb_total. }
    unfold matchup_table_ordered.
    cbn [f_matchup_specific_types f_matchup_all_types focus_report_value].
    split; [exact Hperm|]. split; [exact Hs|]. split; [|split].
    + intros pooled specific Hp Hsp Hd Hty.
      apply (strictly_below_stands_before (fun x y => cmp x y = true)).
      * exact Hs.
      * apply (Permutation_in _ (Permutation_sym Hperm)).
        apply in_or_app. now right.
      * apply (Permutation_in _ (Permutation_sym Hperm)).
        apply in_or_app. now left.
      * unfold cmp. rewrite pooled_key_below_specific; try assumption.
        -- discriminate.
        -- apply in_agg_matchup_data_value in Hp. destruct Hp as [b [_ Hp]].
           now apply matchup_row_opt_name in Hp.
      * apply tuple_leb_refl.
    + intros pooled specific Hp Hsp Hd Hty.
      assert (Hpty : m_opp_type pooled = ALL_TYPES_PLACEHOLDER).
      { apply in_agg_matchup_data_value in Hp. destruct Hp as [b [_ Hp]].
        now apply matchup_row_opt_name in Hp. }
      apply sorted_stable.
      * apply in_split in Hsp. destruct Hsp as [l1 [l2 E1]].
        apply in_split in Hp. destruct Hp as [l3 [l4 E2]].
        exists l1, (l2 ++ l3), l4. unfold rows. rewrite E1, E2.
        now rewrite <- !app_assoc.
      * unfold cmp, matchup_sort_key. rewrite Hd, Hty, Hpty.
        apply tuple_leb_refl.
    + intros x y Hxy.
      pose proof (StronglySorted_stands_before _ x y _ Hs Hxy) as H.
      unfold cmp in H. apply tuple_leb_iff in H. cbn [matchup_sort_key fst] in H.
      apply string_leb_iff. destruct H as [H|[H _]]; [now left | now right].
Qed.

(** ** The list of all records *)

Lemma ts_compare_antisym (a b : Timestamp) :
  ts_compare b a = CompOpp (ts_compare a b).
Proof.
  unfold ts_compare.
  rewrite (Nat.compare_antisym (year a) (year b)).
  rewrite (Nat.compare_antisym (month a) (month b)).
  rewrite (Nat.compare_antisym (day a) (day b)).
  rewrite (Z.compare_antisym (time_ns a) (time_ns b)).
  destruct (Nat.compare (year a) (year b)); simpl; try reflexivity.
  destruct (Nat.compare (month a) (month b)); simpl; try reflexivity.
  destruct (Nat.compare (day a) (day b)); simpl; reflexivity.
Qed.

Lemma ts_leb_total (a b : Timestamp) : ts_leb a b = true \/ ts_leb b a = true.
Proof.
  unfold ts_leb. rewrite (ts_compare_antisym a b).
  destruct (ts_compare a b); simpl; auto.
Qed.

Lemma keyed_dates (l : DataFrame) : map fst (keyed date l) = not_nat_dates l.
Proof.
  unfold keyed, not_nat_dates, notna_date.
  induction l as [|r l IH]; simpl; [reflexivity|].
  destruct (date r); simpl; now rewrite IH.
Qed.

Lemma unkeyed_dates (l : DataFrame) : unkeyed date l = nat_dates l.
Proof.
  unfold unkeyed, nat_dates, notna_date. apply filter_ext. intros r.
  now destruct (date r).
Qed.

Lemma not_nat_dates_idem (l : DataFrame) :
  not_nat_dates (not_nat_dates l) = not_nat_dates l
  /\ nat_dates (not_nat_dates l) = [].
Proof.
  unfold not_nat_dates, nat_dates. rewrite !filter_filter. split.
  - apply filter_ext. intros r. now destruct (notna_date r).
  - induction l as [|r l IH]; simpl; [reflexivity|].
    destruct (notna_date r); simpl; exact IH.
Qed.

(** X18. The list of all records of the page holds every record of the
    sheet exactly once: first the dated records, none before a record with a
    later timestamp, then the undated records in the order of the sheet.
    The sort has a result for every frame, and a displayed date is missing
    exactly for the undated records. *)
Theorem record_list_order :
  forall df : DataFrame,
    (exists out, df_display_sorted df out)
    /\ forall out, df_display_sorted df out -> record_list_ordered df out.
Proof.
  intros df. split.
  - destruct (sort_values_desc_total ts_leb ts_leb_total date (not_nat_dates df))
      as [dated Hd].
    exists (dated ++ nat_dates df), dated. split; [exact Hd | reflexivity].
  - intros out [dated [Hd ->]].
    apply sort_values_desc_sorted in Hd.
    destruct Hd as [with_key [-> [Hperm Hs]]].
    destruct (not_nat_dates_idem df) as [E1 E2].
    rewrite unkeyed_dates, E2, app_nil_r.
    rewrite keyed_dates, E1 in Hperm.
    assert (Hdated : forall r, In r with_key -> date r <> None).
    { intros r Hr. apply (Permutation_in _ Hperm) in Hr.
      apply filter_In in Hr. destruct Hr as [_ Hr]. unfold notna_date in Hr.
      destruct (date r); [discriminate | discriminate Hr]. }
    unfold record_list_ordered. split.
    + rewrite Hperm, <- keyed_dates, <- unkeyed_dates.
      apply keyed_unkeyed_perm.
    + exists with_key. split; [reflexivity|]. split; [exact Hperm|].
      split; [exact Hdated|]. split.
      * intros r Hr. apply filter_In in Hr. destruct Hr as [_ Hr].
        unfold notna_date in Hr. now destruct (date r).
      * split.
        -- apply (Sorted_impl_in (key_ge ts_leb date)); [|exact Hs].
           intros x y _ _. unfold key_ge, not_later_ts, ts_leb.
           destruct (date x), (date y); try tauto.
           destruct (ts_compare t0 t); congruence.
        -- intros x Hx. unfold record_list_rows in Hx.
           apply in_map_iff in Hx. destruct Hx as [r [<- _]]. cbn.
           destruct (date r); cbn; split; congruence.
Qed.

(** ** Filters of the page *)

Lemma df_for_analysis_filter (df : DataFrame) (s : string) (envs : list string) :
  df_for_analysis df s envs = filter (passes_filters s envs) df.
Proof.
  unfold df_for_analysis, passes_filters, where_eq.
  destruct (PyStr.truthy s && negb (seq_str s SELECT_PLACEHOLDER));
    destruct (is_empty envs); cbn [negb].
  - apply filter_ext. intros r. now rewrite andb_true_r.
  - now rewrite filter_filter.
  - symmetry. apply filter_all. reflexivity.
  - reflexivity.
Qed.

Lemma filter_idem {A} (p : A -> bool) (l : list A) :
  filter p (filter p l) = filter p l.
Proof.
  rewrite filter_filter. apply filter_ext. intros x. now destruct (p x).
Qed.

Lemma in_season_options (df : DataFrame) (s : string) :
  In s (sorted String.leb
          (filter analyzable (unique string_dec (dropna_empty (map season df)))))
  <-> valid_name s /\ exists r, In r df /\ season r = s.
Proof.
  rewrite in_sorted, filter_In, in_unique, in_dropna_empty, in_map_iff,
    analyzable_iff.
  split.
  - intros [[[r [E Hr]] _] Hv]. split; [exact Hv|]. now exists r.
  - intros [Hv [r [Hr E]]]. split; [|exact Hv]. split; [|apply Hv].
    now exists r.
Qed.

(** X19. The filters of the page select rows and never change or reorder
    them: the analysed frame is the sheet restricted to the records of the
    selected season (when one is selected) whose environment is among the
    selected ones (when any is selected).  With nothing selected it is the
    whole sheet, filtering twice changes nothing, and a season that the
    selector offers always leaves at least one record when no environment
    is selected. *)
Theorem filters_select_rows :
  forall (df : DataFrame) (s : string) (envs : list string),
    df_for_analysis df s envs = filter (passes_filters s envs) df
    /\ (forall r, In r (df_for_analysis df s envs)
                  <-> In r df /\ passes_filters s envs r = true)
    /\ len (df_for_analysis df s envs) <= len df
    /\ df_for_analysis df SELECT_PLACEHOLDER [] = df
    /\ df_for_analysis df "" [] = df
    /\ df_for_analysis (df_for_analysis df s envs) s envs
       = df_for_analysis df s envs
    /\ (In s (all_seasons df) -> df <> [] -> df_for_analysis df s [] <> []).
Proof.
  intros df s envs.
  split; [apply df_for_analysis_filter|].
  split; [intros r; rewrite df_for_analysis_filter; apply filter_In|].
  split; [rewrite df_for_analysis_filter; apply len_filter_le|].
  split; [reflexivity|]. split; [reflexivity|].
  split; [rewrite !df_for_analysis_filter; apply filter_idem|].
  intros Hs Hne. unfold all_seasons in Hs. destruct Hs as [<-|Hs].
  - exact Hne.
  - apply in_season_options in Hs. destruct Hs as [_ [r [Hr E]]].
    rewrite df_for_analysis_filter. intros Hnil.
    assert (Hin : In r (filter (passes_filters s []) df)).
    { apply filter_In. split; [exact Hr|]. unfold passes_filters.
      cbn [is_empty]. rewrite andb_true_r.
      destruct (PyStr.truthy s && negb (seq_str s SELECT_PLACEHOLDER));
        [now apply String.eqb_eq | reflexivity]. }
    rewrite Hnil in Hin. exact Hin.
Qed.

(** ** The analysis section as a whole *)

(** X20. The analysis section shows the nothing-to-analyse notice exactly
    when the filters leave no record; otherwise it shows the analysis of the
    selected deck, computed on the filtered frame, when a deck is selected,
    and the overview of the filtered frame when none is. *)
Theorem analysis_section_dispatch :
  forall (original_df : DataFrame) (s : string) (envs : list string)
         (deck : string) (ty : option string),
    let df := df_for_analysis original_df s envs in
    (show_analysis_section original_df s envs deck ty = Ok NothingToAnalyse
     <-> df = [])
    /\ (df <> [] -> deck_selected deck = true ->
        exists r, focus_report df deck ty = Ok r
                  /\ show_analysis_section original_df s envs deck ty
                     = Ok (FocusAnalysis r))
    /\ (df <> [] -> deck_selected deck = false ->
        exists rows, general_performance_data df = Ok rows
                     /\ show_analysis_section original_df s envs deck ty
                        = Ok (Overview rows)).
Proof.
  intros original_df s envs deck ty df.
  assert (Hemp : original_df = [] -> df = []).
  { intros ->. unfold df. now rewrite df_for_analysis_filter. }
  unfold show_analysis_section. fold df. unfold deck_selected.
  rewrite focus_report_ok, general_performance_data_ok.
  destruct original_df as [|r0 l0] eqn:Eo.
  - rewrite (Hemp eq_refl). cbn. repeat split; congruence.
  - cbn [is_empty]. destruct df as [|r l] eqn:Ed.
    + cbn. repeat split; congruence.
    + cbn [is_empty].
      destruct (PyStr.truthy deck && negb (seq_str deck SELECT_PLACEHOLDER));
        cbn [bind ret]; (split; [split; discriminate|]); split; intros _ H;
        try discriminate; eexists; split; reflexivity.
Qed.

(** ** Types of one deck *)

Lemma cond_my_with_type (a t : string) (r : MatchRecord) :
  type_filter (Some t) = Some t ->
  cond_my_deck_focus a (Some t) r
  = seq_str (my_deck r) a && seq_str (my_deck_type r) t.
Proof. intros H. unfold cond_my_deck_focus. now rewrite H. Qed.

Lemma cond_opp_with_type (a t : string) (r : MatchRecord) :
  type_filter (Some t) = Some t ->
  cond_opponent_deck_focus a (Some t) r
  = seq_str (opponent_deck r) a && seq_str (opponent_deck_type r) t.
Proof. intros H. unfold cond_opponent_deck_focus. now rewrite H. Qed.

Lemma type_filter_concrete (t : string) :
  valid_name t -> t <> ALL_TYPES_PLACEHOLDER -> type_filter (Some t) = Some t.
Proof.
  intros [Hne _] Hall. cbn. apply truthy_iff in Hne.
  apply String.eqb_neq in Hall. unfold seq_str. now rewrite Hne, Hall.
Qed.

Lemma cond_my_implies_all (a : string) (ty : option string) (r : MatchRecord) :
  cond_my_deck_focus a ty r = true -> cond_my_deck_focus a ALL_KEY r = true.
Proof.
  unfold cond_my_deck_focus. rewrite type_filter_all_key.
  destruct (type_filter ty); [|auto]. rewrite andb_true_iff. tauto.
Qed.

Lemma cond_opp_implies_all (a : string) (ty : option string) (r : MatchRecord) :
  cond_opponent_deck_focus a ty r = true ->
  cond_opponent_deck_focus a ALL_KEY r = true.
Proof.
  unfold cond_opponent_deck_focus. rewrite type_filter_all_key.
  destruct (type_filter ty); [|auto]. rewrite andb_true_iff. tauto.
Qed.

Lemma len_filter_mono {A} (p q : A -> bool) (l : list A) :
  (forall x, p x = true -> q x = true) ->
  len (filter p l) <= len (filter q l).
Proof.
  intros H. induction l as [|x l IH]; [reflexivity|].
  cbn [filter]. specialize (H x).
  destruct (p x) eqn:Ep, (q x) eqn:Eq; rewrite ?len_cons;
    try discriminate (H eq_refl); lia.
Qed.

(** X21. A type never shows more than its deck: for every type selection
    the appearances and the wins of the key are at most those of the key
    (deck, ALL).  When every type recorded with the deck is usable (and is
    not itself the ALL entry), the appearances of the deck under its
    different types add up to its appearances under ALL. *)
Theorem types_split_the_deck :
  forall (df : DataFrame) (a : string),
    (forall ty, total_appearances df a ty <= total_appearances df a ALL_KEY
                /\ total_wins_for_focus_deck df a ty
                   <= total_wins_for_focus_deck df a ALL_KEY)
    /\ (a <> "" -> a <> SELECT_PLACEHOLDER -> types_usable df a ->
        Zsum (map (fun t => total_appearances df a (Some t))
                  (tl (get_all_types_for_archetype df a)))
        = total_appearances df a ALL_KEY).
Proof.
  intros df a. split.
  - intros ty. unfold total_appearances, total_wins_for_focus_deck,
      wins_when_focus_is_my_deck_df, wins_when_focus_is_opponent_deck_df,
      focus_as_my_deck_games, focus_as_opponent_deck_games, where_eq.
    rewrite !filter_filter.
    pose proof (len_filter_mono _ _ df (cond_my_implies_all a ty)).
    pose proof (len_filter_mono _ _ df (cond_opp_implies_all a ty)).
    assert (len (filter (fun x => cond_my_deck_focus a ty x
                                  && seq_str (result x) WIN) df)
            <= len (filter (fun x => cond_my_deck_focus a ALL_KEY x
                                     && seq_str (result x) WIN) df)).
    { apply len_filter_mono. intros x. rewrite !andb_true_iff.
      intros [Ha Hb]. split; [now apply (cond_my_implies_all a ty) | exact Hb]. }
    assert (len (filter (fun x => cond_opponent_deck_focus a ty x
                                  && seq_str (result x) LOSS) df)
            <= len (filter (fun x => cond_opponent_deck_focus a ALL_KEY x
                                     && seq_str (result x) LOSS) df)).
    { apply len_filter_mono. intros x. rewrite !andb_true_iff.
      intros [Ha Hb]. split; [now apply (cond_opp_implies_all a ty) | exact Hb]. }
    lia.
  - intros Hne Hsel Hus.
    destruct (types_of_deck_characterised df a Hne Hsel)
      as [types [E [_ [Hnd Hin]]]].
    rewrite E. cbn [tl].
    assert (Hconcrete : forall t, In t types -> type_filter (Some t) = Some t).
    { intros t Ht. apply Hin in Ht. destruct Ht as [Hv [r [Hr Hty]]].
      apply type_filter_concrete; [exact Hv|].
      destruct (Hus r Hr) as [H1 H2].
      destruct Hty as [[Hd <-]|[Hd <-]]; [now apply H1 | now apply H2]. }
    unfold total_appearances. rewrite Zsum_map_add. f_equal.
    + rewrite (focus_as_my_deck_games_all df a ALL_KEY type_filter_all_key).
      unfold where_eq.
      rewrite <- (len_filter_partition my_deck_type
                    (fun r => seq_str (my_deck r) a) types df Hnd).
      * f_equal. apply map_ext_in. intros t Ht.
        unfold focus_as_my_deck_games. f_equal. apply filter_ext. intros r.
        now apply cond_my_with_type, Hconcrete.
      * intros r Hr Hd. apply String.eqb_eq in Hd. apply Hin.
        destruct (Hus r Hr) as [H1 _]. split; [now apply H1|].
        exists r. split; [exact Hr|]. left. tauto.
    + rewrite (focus_as_opponent_deck_games_all df a ALL_KEY type_filter_all_key).
      unfold where_eq.
      rewrite <- (len_filter_partition opponent_deck_type
                    (fun r => seq_str (opponent_deck r) a) types df Hnd).
      * f_equal. apply map_ext_in. intros t Ht.
        unfold focus_as_opponent_deck_games. f_equal. apply filter_ext.
        intros r. now apply cond_opp_with_type, Hconcrete.
      * intros r Hr Hd. apply String.eqb_eq in Hd. apply Hin.
        destruct (Hus r Hr) as [_ H2]. split; [now apply H2|].
        exists r. split; [exact Hr|]. right. tauto.
Qed.

Lemma types_split_the_deck_witness :
  types_usable scenario_df "Alpha"
  /\ Zsum (map (fun t => total_appearances scenario_df "Alpha" (Some t))
               (tl (get_all_types_for_archetype scenario_df "Alpha")))
     = total_appearances scenario_df "Alpha" ALL_KEY.
Proof.
  assert (Hu : types_usable scenario_df "Alpha").
  { intros r [<-|[<-|[]]]; split; intros _; repeat split; cbv; discriminate. }
  split; [exact Hu|].
  destruct (types_split_the_deck scenario_df "Alpha") as [_ H].
  apply H; [discriminate | cbv; discriminate | exact Hu].
Defined.
